(** * mock-mcp: the fixture matcher, the tool registry, the webhook trigger
      and the URL scrubbing of the remote sync, embedded from the Go sources

    Sources embedded here:
    - [internal/mcp/github_sync.go]: [getAuthenticatedURL],
      [sanitizeURLForLogging], and the test-case manager
      ([FindMatchingTestCase], [loadTestCase], [matchArguments],
      [valuesMatch], [toFloat64]);
    - [internal/mcp/tools.go]: [loadToolsFromYAML], [watchFileChanges];
    - [internal/mcp/webhook.go]: [HandleWebhook], [handlePushEvent],
      [verifySignatureWithBody];
    - [internal/mcp/types.go]: the records.

    Embedded after those, each in a module of its own:
    - [internal/mcp/github_sync.go]: [normalizeRepoURL], [sanitizeRepoName],
      [Sync], [cloneRepo], [pullRepo], [copyDirectory], [SyncFromGitHub],
      [SaveTestCase];
    - [internal/mcp/tools.go]: [NewToolManager], [registerDefaultTools],
      [createExampleYAML], the loop of [watchFileChanges];
    - [internal/mcp/webhook.go]: [processRequest], [handleInitialize],
      [handleListTools], [handleCallTool], [executeMockTool],
      [HandleSaveTestCase], and [HandleWebhook] of the server.

    Go strings are byte sequences and are modelled by [string]; Go [int] is
    modelled by [Z]; [map[string]T] by [gmap string T]; [float64] by the
    IEEE-754 binary64 instance of [spec_float]. *)

From Stdlib Require Import ZArith Lia Bool Ascii String DecimalString SpecFloat.
From Stdlib Require Import DecimalPos DecimalZ.
From stdpp Require Import base option list strings gmap fin_maps.

Local Open Scope string_scope.
Local Open Scope Z_scope.

(** ** Go's [strings] package, on [string] *)

Module GoStrings.

(** [s[n:]] and [s[:n]] for an index within [0 .. len(s)]. *)
Fixpoint sliceFrom (n : nat) (s : string) : string :=
  match n, s with
  | O, _ => s
  | S n', String _ s' => sliceFrom n' s'
  | S _, EmptyString => EmptyString
  end.

Fixpoint sliceTo (n : nat) (s : string) : string :=
  match n, s with
  | O, _ => EmptyString
  | S n', String c s' => String c (sliceTo n' s')
  | S _, EmptyString => EmptyString
  end.

(** [strings.HasPrefix(s, prefix)] *)
Definition HasPrefix (s prefix : string) : bool := String.prefix prefix s.

(** Position of the first occurrence of [sub] in [s], if any. *)
Fixpoint indexNat (s sub : string) : option nat :=
  if HasPrefix s sub then Some O
  else match s with
       | EmptyString => None
       | String _ s' => S <$> indexNat s' sub
       end.

(** Position of the last occurrence of [sub] in [s], if any. *)
Fixpoint lastIndexNat (s sub : string) : option nat :=
  match s with
  | EmptyString => if HasPrefix s sub then Some O else None
  | String _ s' =>
      match lastIndexNat s' sub with
      | Some n => Some (S n)
      | None => if HasPrefix s sub then Some O else None
      end
  end.

(** [strings.Index(s, sub)]: an [int], [-1] when [sub] does not occur. *)
Definition Index (s sub : string) : Z :=
  match indexNat s sub with
  | Some n => Z.of_nat n
  | None => -1
  end.

(** [strings.LastIndex(s, sub)] *)
Definition LastIndex (s sub : string) : Z :=
  match lastIndexNat s sub with
  | Some n => Z.of_nat n
  | None => -1
  end.

(** [strings.Contains(s, sub)] is [Index(s, sub) >= 0]. *)
Definition Contains (s sub : string) : bool := 0 <=? Index s sub.

(** [strings.HasSuffix(s, suffix)] *)
Fixpoint HasSuffix (s suffix : string) : bool :=
  if String.eqb s suffix then true
  else match s with
       | EmptyString => false
       | String _ s' => HasSuffix s' suffix
       end.

(** [fmt.Sprintf("%d", n)] *)
Definition itoa (n : Z) : string := NilZero.string_of_int (Z.to_int n).

(** The character [c] does not occur in [s]. *)
Fixpoint lacks (c : ascii) (s : string) : Prop :=
  match s with
  | EmptyString => True
  | String c' s' => c' <> c /\ lacks c s'
  end.

(** [s] is [pre ++ sub ++ post], and [sub] does not occur in [s] at any
    earlier position. *)
Definition firstSplit (sub s pre post : string) : Prop :=
  s = pre ++ sub ++ post
  /\ forall pre' post',
       s = pre' ++ sub ++ post' -> (String.length pre <= String.length pre')%nat.

End GoStrings.

(** ** Dynamic values held in [interface{}] *)

Module GoValue.

(** The integer types that [toFloat64] switches on. *)
Inductive IntKind : Set :=
| KInt | KInt8 | KInt16 | KInt32 | KInt64
| KUint | KUint8 | KUint16 | KUint32 | KUint64.

(** A value of type [interface{}] as produced by the YAML and JSON decoders
    (nil, bool, string, int, float64, nested mapping, nested sequence),
    together with every numeric type of [toFloat64]. *)
#[warnings="-register-all"]
Inductive Value : Type :=
| VNil
| VBool (b : bool)
| VString (s : string)
| VInt (k : IntKind) (n : Z)
| VFloat32 (f : spec_float)
| VFloat64 (f : spec_float)
| VMap (m : gmap string Value)
| VSlice (l : list Value).

(** Dynamic type of an interface value; [TNil] is the nil interface,
    which has none. *)
Inductive DynType : Set :=
| TNil | TBool | TString | TInt (k : IntKind) | TFloat32 | TFloat64
| TMap | TSlice.

Definition typeOf (v : Value) : DynType :=
  match v with
  | VNil => TNil
  | VBool _ => TBool
  | VString _ => TString
  | VInt k _ => TInt k
  | VFloat32 _ => TFloat32
  | VFloat64 _ => TFloat64
  | VMap _ => TMap
  | VSlice _ => TSlice
  end.

(** Maps and slices are the types of the language that are not comparable. *)
Definition comparable (t : DynType) : bool :=
  match t with
  | TMap | TSlice => false
  | _ => true
  end.

Definition IntKind_eqb (a b : IntKind) : bool :=
  match a, b with
  | KInt, KInt | KInt8, KInt8 | KInt16, KInt16 | KInt32, KInt32
  | KInt64, KInt64 | KUint, KUint | KUint8, KUint8 | KUint16, KUint16
  | KUint32, KUint32 | KUint64, KUint64 => true
  | _, _ => false
  end.

(** The value range of each integer type ([int] and [uint] are 64 bits wide
    on the platforms the server is built for). *)
Definition intRange (k : IntKind) : Z * Z :=
  match k with
  | KInt8 => (- 2 ^ 7, 2 ^ 7 - 1)
  | KInt16 => (- 2 ^ 15, 2 ^ 15 - 1)
  | KInt32 => (- 2 ^ 31, 2 ^ 31 - 1)
  | KInt | KInt64 => (- 2 ^ 63, 2 ^ 63 - 1)
  | KUint8 => (0, 2 ^ 8 - 1)
  | KUint16 => (0, 2 ^ 16 - 1)
  | KUint32 => (0, 2 ^ 32 - 1)
  | KUint | KUint64 => (0, 2 ^ 64 - 1)
  end.

Definition inRange (k : IntKind) (n : Z) : Prop :=
  (intRange k).1 <= n <= (intRange k).2.

(** Run-time panics. *)
Inductive PanicReason : Set :=
| UncomparableType (t : DynType).
    (* "runtime error: comparing uncomparable type ..." *)

(** Outcome of running a piece of code: a result, or a run-time panic. *)
Inductive exec (A : Type) : Type :=
| Ret (a : A)
| Panic (r : PanicReason).
Arguments Ret {A} a.
Arguments Panic {A} r.

(** The [==] operator on two interface values: equal when both are nil or
    when the dynamic types are identical and the dynamic values equal;
    two values of one and the same non-comparable dynamic type panic. *)
Definition ifaceEq (x y : Value) : exec bool :=
  match x, y with
  | VNil, VNil => Ret true
  | VBool a, VBool b => Ret (Bool.eqb a b)
  | VString a, VString b => Ret (String.eqb a b)
  | VInt k a, VInt k' b => Ret (IntKind_eqb k k' && (a =? b))
  | VFloat32 a, VFloat32 b => Ret (SFeqb a b)
  | VFloat64 a, VFloat64 b => Ret (SFeqb a b)
  | VMap _, VMap _ => Panic (UncomparableType TMap)
  | VSlice _, VSlice _ => Panic (UncomparableType TSlice)
  | _, _ => Ret false
  end.

(** binary64: 53 bits of precision, exponents up to 1024. *)
Definition prec64 : Z := 53.
Definition emax64 : Z := 1024.

(** [float64(n)] for an integer [n]: rounding to nearest, ties to even. *)
Definition float64_of_int (n : Z) : spec_float :=
  binary_normalize prec64 emax64 n 0 false.

(** [float64(f)] for a [float32] value [f]: exact, renormalised to the
    binary64 format. *)
Definition float64_of_float32 (f : spec_float) : spec_float :=
  match f with
  | S754_finite s m e => binary_round prec64 emax64 s m e
  | _ => f
  end.

(** The binary64 number [5.0], that is [5 * 2^50 * 2^-50]. *)
Definition float64_5 : spec_float :=
  S754_finite false 5629499534213120 (-50).

(** [f] is a finite binary64 number whose value is the integer [n]:
    [(-1)^s * m * 2^e = n], written without fractions. *)
Definition represents (f : spec_float) (n : Z) : Prop :=
  match f with
  | S754_zero _ => n = 0
  | S754_finite s m e =>
      cond_Zopp s (Z.pos m) * 2 ^ Z.max e 0 = n * 2 ^ Z.max (- e) 0
  | _ => False
  end.

(** Mantissa and exponent of the canonical binary64 form of a positive
    integer of at most 53 bits. *)
Definition aligned (p : positive) : positive * Z :=
  shl_align p 0 (Z.pos (digits2_pos p) - prec64).

(** Type assertions [v.(string)] and [v.(bool)]. *)
Definition asString (v : Value) : option string :=
  match v with VString s => Some s | _ => None end.

Definition asBool (v : Value) : option bool :=
  match v with VBool b => Some b | _ => None end.

End GoValue.

(** ** [internal/mcp/types.go] *)

Module Types.
Import GoValue.

Record ContentBlock : Type := {
  cbType : string;
  cbText : string;
  cbJSON : Value
}.

Record ToolResult : Type := {
  Content : list ContentBlock;
  IsError : bool
}.

(** [TestCaseConfig]: one fixture. *)
Record TestCaseConfig : Type := {
  Input : gmap string Value;
  Response : ToolResult
}.

(** [Tool]: a registered tool descriptor. *)
Record Tool : Type := {
  Name : string;
  Description : string;
  InputSchema : Value;
  DefaultTestCase : Z
}.

(** [ToolConfig]: one entry of the configuration document. *)
Record ToolConfig : Type := {
  tcName : string;
  tcDescription : string;
  tcInputSchema : gmap string Value;
  tcHandler : string;
  tcDefaultTestCase : Z
}.

Record ToolsConfig : Type := {
  Tools : list ToolConfig
}.

End Types.

(** ** The test-case manager ([TestCaseManager]) *)

Module Matcher.
Import GoStrings GoValue Types.

(** [toFloat64]: the numeric types convert to [float64]; everything else
    yields [(0, false)]. *)
Definition toFloat64 (v : Value) : spec_float * bool :=
  match v with
  | VFloat64 val => (val, true)
  | VFloat32 val => (float64_of_float32 val, true)
  | VInt _ val => (float64_of_int val, true)
  | _ => (S754_zero false, false)
  end.

(** The second component of [toFloat64]: the value is of a numeric type. *)
Definition isNumeric (v : Value) : bool := (toFloat64 v).2.

(** [valuesMatch] *)
Definition valuesMatch (expected actual : Value) : exec bool :=
  let '(expectedFloat, expectedIsNum) := toFloat64 expected in
  let '(actualFloat, actualIsNum) := toFloat64 actual in
  if expectedIsNum && actualIsNum then Ret (SFeqb expectedFloat actualFloat)
  else
    match asString expected, asString actual with
    | Some expectedStr, Some actualStr => Ret (String.eqb expectedStr actualStr)
    | _, _ =>
        match asBool expected, asBool actual with
        | Some expectedBool, Some actualBool =>
            Ret (Bool.eqb expectedBool actualBool)
        | _, _ => ifaceEq expected actual
        end
    end.

(** The body of the [range expected] loop of [matchArguments], over the
    entries in the order the iteration visits them. *)
Fixpoint matchEntries (entries : list (string * Value))
    (actual : gmap string Value) : exec bool :=
  match entries with
  | [] => Ret true
  | (key, expectedValue) :: rest =>
      match actual !! key with
      | None => Ret false
      | Some actualValue =>
          match valuesMatch expectedValue actualValue with
          | Ret true => matchEntries rest actual
          | Ret false => Ret false
          | Panic r => Panic r
          end
      end
  end.

(** An expected entry is satisfied by the call's arguments: its key is
    present and [valuesMatch] accepts the two values. *)
Definition satisfied (actual : gmap string Value) (entry : string * Value) : Prop :=
  exists actualValue,
    actual !! entry.1 = Some actualValue
    /\ valuesMatch entry.2 actualValue = Ret true.

(** Log lines of [FindMatchingTestCase]. *)
Inductive LogLine : Type :=
| LogFinding (toolName dir : string) (defaultTestCase : Z)
| LogErrorLoading (file : string)
| LogMatched (file : string)
| LogDidNotMatch (file : string)
| LogUsingDefault (defaultTestCase : Z) (file : string)
| LogDefaultNotFound (defaultTestCase : Z) (file : string).

(** Code that logs and may panic. *)
Definition M (A : Type) : Type := list LogLine * exec A.

Definition mret {A} (a : A) : M A := ([], Ret a).

Definition mbind {A B} (m : M A) (f : A -> M B) : M B :=
  match m with
  | (l, Ret a) => let '(l', r) := f a in ((l ++ l')%list, r)
  | (l, Panic p) => (l, Panic p)
  end.

Definition logPrintf (line : LogLine) : M unit := ([line], Ret tt).

Definition lift {A} (e : exec A) : M A := ([], e).

Notation "x <- m ;; k" := (mbind m (fun x => k))
  (at level 100, m at next level, right associativity).
Notation "m ;;; k" := (mbind m (fun _ => k))
  (at level 100, right associativity).

(** Result of [os.Stat]: no error, an error for which [os.IsNotExist]
    holds, or another error. *)
Inductive StatResult : Set := StatOk | StatNotExist | StatError.

Definition IsNotExist (r : StatResult) : bool :=
  match r with StatNotExist => true | _ => false end.

(** What [FindMatchingTestCase] returns: a fixture and a nil error, or nil
    and the error "no matching test case found". *)
Inductive FindResult : Type :=
| Found (testCase : TestCaseConfig)
| NotFound.

Section TestCaseManager.

(** The environment: the file system, [filepath.Join], the YAML decoder and
    the order in which [range] visits the entries of a map (any order is
    allowed by the language). *)
Variable os_Stat : string -> StatResult.
Variable os_ReadFile : string -> option string.
Variable yaml_Unmarshal : string -> option TestCaseConfig.
Variable filepath_Join : string -> string -> string.
Variable rangeOrder : gmap string Value -> list (string * Value).

(** The receiver. *)
Variable testCasesDir : string.

(** [loadTestCase] *)
Definition loadTestCase (filePath : string) : option TestCaseConfig :=
  match os_ReadFile filePath with
  | None => None
  | Some data => yaml_Unmarshal data
  end.

(** [matchArguments] *)
Definition matchArguments (expected actual : gmap string Value) : exec bool :=
  if (size expected =? 0)%nat then Ret true
  else matchEntries (rangeOrder expected) actual.

(** [filepath.Join(tcm.testCasesDir, fmt.Sprintf("%s-test-case-%d.yaml", toolName, i))] *)
Definition testCaseFile (toolName : string) (i : Z) : string :=
  filepath_Join testCasesDir (toolName ++ "-test-case-" ++ itoa i ++ ".yaml").

(** The [for i := 1; i <= 100; i++] loop of [FindMatchingTestCase], run over
    the remaining values of [i]; [Some] is the early [return]. *)
Fixpoint searchLoop (toolName : string) (args : gmap string Value)
    (indices : list Z) : M (option TestCaseConfig) :=
  match indices with
  | [] => mret None
  | i :: rest =>
      let file := testCaseFile toolName i in
      if IsNotExist (os_Stat file) then searchLoop toolName args rest
      else
        match loadTestCase file with
        | None =>
            logPrintf (LogErrorLoading file) ;;;
            searchLoop toolName args rest
        | Some testCase =>
            matched <- lift (matchArguments (Input testCase) args) ;;
            if (matched : bool) then
              logPrintf (LogMatched file) ;;; mret (Some testCase)
            else
              logPrintf (LogDidNotMatch file) ;;;
              searchLoop toolName args rest
        end
  end.

(** The fallback after the loop. *)
Definition useDefault (toolName : string) (defaultTestCase : Z) : M FindResult :=
  if 0 <? defaultTestCase then
    let defaultFile := testCaseFile toolName defaultTestCase in
    match os_Stat defaultFile with
    | StatOk =>
        match loadTestCase defaultFile with
        | Some testCase =>
            logPrintf (LogUsingDefault defaultTestCase defaultFile) ;;;
            mret (Found testCase)
        | None => mret NotFound
        end
    | _ =>
        logPrintf (LogDefaultNotFound defaultTestCase defaultFile) ;;;
        mret NotFound
    end
  else mret NotFound.

(** [FindMatchingTestCase] *)
Definition FindMatchingTestCase (toolName : string)
    (args : gmap string Value) (defaultTestCase : Z) : M FindResult :=
  logPrintf (LogFinding toolName testCasesDir defaultTestCase) ;;;
  found <- searchLoop toolName args (seqZ 1 100) ;;
  match found with
  | Some testCase => mret (Found testCase)
  | None => useDefault toolName defaultTestCase
  end.

(** Fixture [i] does not stop the loop: its file does not exist, or it
    cannot be loaded, or its expected arguments are compared with the call's
    and found different. *)
Definition passedOver (toolName : string) (args : gmap string Value)
    (i : Z) : Prop :=
  os_Stat (testCaseFile toolName i) = StatNotExist
  \/ loadTestCase (testCaseFile toolName i) = None
  \/ exists testCase,
       loadTestCase (testCaseFile toolName i) = Some testCase
       /\ matchArguments (Input testCase) args = Ret false.

(** Fixture [i] exists, loads as [testCase] and its expected arguments match
    the call. *)
Definition matchesAt (toolName : string) (args : gmap string Value)
    (i : Z) (testCase : TestCaseConfig) : Prop :=
  os_Stat (testCaseFile toolName i) <> StatNotExist
  /\ loadTestCase (testCaseFile toolName i) = Some testCase
  /\ matchArguments (Input testCase) args = Ret true.

End TestCaseManager.

End Matcher.

(** ** The tool manager ([internal/mcp/tools.go]) *)

Module Registry.
Import GoValue Types.

(** [ToolManager]: the registry, its mutex (held for writing or not) and the
    path of the configuration document. *)
Record ToolManager : Type := {
  tools : gmap string Tool;
  toolsMutexHeld : bool;
  configPath : string
}.

(** The [Tool] built from one [ToolConfig] in the loop of
    [loadToolsFromYAML]. *)
Definition toolOf (toolConfig : ToolConfig) : Tool :=
  {| Name := tcName toolConfig;
     Description := tcDescription toolConfig;
     InputSchema := VMap (tcInputSchema toolConfig);
     DefaultTestCase := tcDefaultTestCase toolConfig |}.

(** The statements of [loadToolsFromYAML] that touch the manager, one at a
    time: [tm.toolsMutex.Lock()], [tm.tools = make(map[string]Tool)],
    [tm.tools[toolConfig.Name] = tool], and the deferred [Unlock()]. *)
Inductive Instr : Type :=
| ILock
| IClear
| IStore (toolConfig : ToolConfig)
| IUnlock.

Definition step (tm : ToolManager) (i : Instr) : ToolManager :=
  match i with
  | ILock =>
      {| tools := tools tm; toolsMutexHeld := true; configPath := configPath tm |}
  | IClear =>
      {| tools := ∅; toolsMutexHeld := toolsMutexHeld tm;
         configPath := configPath tm |}
  | IStore toolConfig =>
      {| tools := <[tcName toolConfig := toolOf toolConfig]> (tools tm);
         toolsMutexHeld := toolsMutexHeld tm; configPath := configPath tm |}
  | IUnlock =>
      {| tools := tools tm; toolsMutexHeld := false; configPath := configPath tm |}
  end.

(** The locked part of [loadToolsFromYAML] for a parsed document. *)
Definition loadBody (config : ToolsConfig) : list Instr :=
  ILock :: IClear :: (IStore <$> Tools config) ++ [IUnlock].

Definition run (tm : ToolManager) (body : list Instr) : ToolManager :=
  foldl step tm body.

(** Every state the manager goes through while [body] runs, the initial one
    first. *)
Fixpoint states (tm : ToolManager) (body : list Instr) : list ToolManager :=
  match body with
  | [] => [tm]
  | i :: rest => tm :: states (step tm i) rest
  end.

(** The statements that run between [Lock] and [Unlock]. *)
Definition keepsLock (i : Instr) : Prop :=
  match i with
  | IClear | IStore _ => True
  | ILock | IUnlock => False
  end.

(** A reader ([GetTool], [GetAllTools]) takes the read lock, so it sees the
    registry only in states where the mutex is not held for writing. *)
Definition observable (tm : ToolManager) : bool := negb (toolsMutexHeld tm).

(** [GetTool] and [GetAllTools], as seen by a reader that got the lock. *)
Definition GetTool (tm : ToolManager) (name : string) : option Tool :=
  tools tm !! name.

Definition GetAllTools (tm : ToolManager) : list Tool :=
  (map_to_list (tools tm)).*2.

(** The last entry of a document's list that bears the identifier [name]. *)
Fixpoint lastEntry (name : string) (entries : list ToolConfig) : option ToolConfig :=
  match entries with
  | [] => None
  | toolConfig :: rest =>
      match lastEntry name rest with
      | Some later => Some later
      | None => if String.eqb (tcName toolConfig) name then Some toolConfig else None
      end
  end.

Inductive LoadError : Set :=
| FailedToReadConfigFile
| FailedToParseYAML.

(** Events of the file watcher; the bits of [fsnotify.Op]. *)
Definition Create : Z := 1.
Definition Write : Z := 2.
Definition Remove : Z := 4.
Definition Rename : Z := 8.
Definition Chmod : Z := 16.

Record Event : Type := {
  evName : string;
  evOp : Z
}.

Inductive WatchLog : Set :=
| LogConfigChanged
| LogErrorReloading (err : LoadError)
| LogReloaded
| LogWatcherError.

Section ToolManager.

(** The environment: [os.ReadFile] and the YAML decoder. *)
Variable os_ReadFile : string -> option string.
Variable yaml_Unmarshal : string -> option ToolsConfig.

(** [loadToolsFromYAML]: the manager it leaves behind and the error it
    returns. *)
Definition loadToolsFromYAML (tm : ToolManager) : ToolManager * option LoadError :=
  match os_ReadFile (configPath tm) with
  | None => (tm, Some FailedToReadConfigFile)
  | Some data =>
      match yaml_Unmarshal data with
      | None => (tm, Some FailedToParseYAML)
      | Some config => (run tm (loadBody config), None)
      end
  end.

(** The states the manager goes through during one call of
    [loadToolsFromYAML]. *)
Definition loadStates (tm : ToolManager) : list ToolManager :=
  match os_ReadFile (configPath tm) with
  | None => [tm]
  | Some data =>
      match yaml_Unmarshal data with
      | None => [tm]
      | Some config => states tm (loadBody config)
      end
  end.

(** One turn of the [select] loop of [watchFileChanges] on an event. *)
Definition onEvent (tm : ToolManager) (event : Event) : ToolManager * list WatchLog :=
  if ((Z.land (evOp event) Write =? Write) || (Z.land (evOp event) Rename =? Rename))
     && String.eqb (evName event) (configPath tm)
  then
    match loadToolsFromYAML tm with
    | (tm', Some err) => (tm', [LogConfigChanged; LogErrorReloading err])
    | (tm', None) => (tm', [LogConfigChanged; LogReloaded])
    end
  else (tm, []).

End ToolManager.

(** A configuration document with a single entry whose identifier is empty,
    and a manager whose registry holds one tool. *)
Definition unnamedEntry : ToolConfig :=
  {| tcName := "";
     tcDescription := "no name";
     tcInputSchema := ∅;
     tcHandler := "";
     tcDefaultTestCase := 0 |}.

Definition unnamedDocument : ToolsConfig := {| Tools := [unnamedEntry] |}.

Definition echoEntry : ToolConfig :=
  {| tcName := "mock_echo";
     tcDescription := "Echoes back the input message";
     tcInputSchema := {[ "type" := VString "object" ]};
     tcHandler := "";
     tcDefaultTestCase := 0 |}.

Definition echoManager : ToolManager :=
  {| tools := {[ "mock_echo" := toolOf echoEntry ]};
     toolsMutexHeld := false;
     configPath := "config/tools.yaml" |}.

End Registry.

(** ** The remote sync ([internal/mcp/github_sync.go]) *)

Module RemoteSync.
Import GoStrings.

Record GitHubSync : Type := {
  repoURL : string;
  cacheDir : string;
  configDir : string;
  testcasesDir : string;
  repoConfigPath : string;
  repoTestcasesPath : string;
  username : string;
  token : string
}.

(** [NewGitHubSync]; [filepath.Join] is the library's. *)
Definition NewGitHubSync (filepath_Join : string -> string -> string)
    (repoURL cacheDir repoConfigPath repoTestcasesPath username token : string)
    : GitHubSync :=
  let repoConfigPath :=
    if String.eqb repoConfigPath "" then "config/tools.yaml" else repoConfigPath in
  let repoTestcasesPath :=
    if String.eqb repoTestcasesPath "" then "testcases" else repoTestcasesPath in
  {| repoURL := repoURL;
     cacheDir := cacheDir;
     configDir := filepath_Join cacheDir "config";
     testcasesDir := filepath_Join cacheDir "testcases";
     repoConfigPath := repoConfigPath;
     repoTestcasesPath := repoTestcasesPath;
     username := username;
     token := token |}.

(** A sync of [repoURL] with the default paths, a cache under [/tmp] and the
    given credentials. *)
Definition syncOf (repoURL username token : string) : GitHubSync :=
  NewGitHubSync (fun dir name => dir ++ "/" ++ name)
    repoURL "/tmp/mock-mcp-github-sync/repo" "" "" username token.

Definition GetRepoConfigPath (gs : GitHubSync) : string := repoConfigPath gs.
Definition GetRepoTestcasesPath (gs : GitHubSync) : string := repoTestcasesPath gs.

(** [s[i:]] and [s[:i]] for an [int] index. *)
Definition from (i : Z) (s : string) : string := sliceFrom (Z.to_nat i) s.
Definition upto (i : Z) (s : string) : string := sliceTo (Z.to_nat i) s.

(** [getAuthenticatedURL] *)
Definition getAuthenticatedURL (gs : GitHubSync) : string :=
  if String.eqb (username gs) "" || String.eqb (token gs) "" then repoURL gs
  else
    let url := repoURL gs in
    let protocolIdx := Index url "://" in
    if negb (protocolIdx =? -1) then
      let afterProtocol := from (protocolIdx + 3) url in
      let atIdx := Index afterProtocol "@" in
      let url :=
        if negb (atIdx =? -1)
        then upto (protocolIdx + 3) url ++ from (atIdx + 1) afterProtocol
        else url in
      let afterProtocol := from (protocolIdx + 3) url in
      upto (protocolIdx + 3) url
        ++ (username gs ++ ":" ++ token gs ++ "@") ++ afterProtocol
    else url.

(** [sanitizeURLForLogging] *)
Definition sanitizeURLForLogging (url : string) : string :=
  let protocolIdx := Index url "://" in
  if negb (protocolIdx =? -1) then
    let afterProtocol := from (protocolIdx + 3) url in
    let atIdx := Index afterProtocol "@" in
    if negb (atIdx =? -1)
    then upto (protocolIdx + 3) url ++ "***@" ++ from (atIdx + 1) afterProtocol
    else url
  else url.

End RemoteSync.

(** ** The webhook handler ([internal/mcp/webhook.go]) *)

Module Webhook.
Import GoStrings RemoteSync.

(** One element of [GitHubWebhookPayload.Commits]. *)
Record Commit : Type := {
  ID : string;
  Message : string;
  Added : list string;
  Removed : list string;
  Modified : list string
}.

Record GitHubWebhookPayload : Type := {
  Ref : string;
  RepositoryFullName : string;
  RepositoryCloneURL : string;
  Commits : list Commit
}.

Record WebhookHandler : Type := {
  githubSync : GitHubSync;
  webhookSecret : string
}.

(** An incoming request: the method, the headers under their canonical
    names, and what [io.ReadAll(r.Body)] yields ([None] on a read error). *)
Record Request : Type := {
  Method : string;
  Header : gmap string string;
  Body : option string
}.

(** [r.Header.Get(key)]: the empty string when the header is absent. *)
Definition HeaderGet (r : Request) (key : string) : string :=
  default "" (Header r !! key).

(** What a request makes the handler do besides answering: look at a file
    path of a commit, run [Sync]. *)
Inductive Effect : Type :=
| InspectPath (file : string)
| RunSync.

Inductive PushError : Type :=
| FailedToParsePayload
| FailedToSync (err : string).

(** The answers of [HandleWebhook]. *)
Inductive Response : Type :=
| MethodNotAllowed
| FailedToReadPayload
| InvalidSignature
| MissingEventType
| ErrorProcessingWebhook (err : PushError)
| OK.

Definition statusCode (resp : Response) : Z :=
  match resp with
  | MethodNotAllowed => 405
  | FailedToReadPayload => 400
  | InvalidSignature => 401
  | MissingEventType => 400
  | ErrorProcessingWebhook _ => 500
  | OK => 200
  end.

(** The prefix the config path is checked against. *)
Definition configDirPrefixOf (repoConfigPath : string) : string :=
  let idx := LastIndex repoConfigPath "/" in
  if negb (idx =? -1) then upto (idx + 1) repoConfigPath else repoConfigPath.

(** The prefix the fixtures path is checked against. *)
Definition testcasesDirPrefixOf (repoTestcasesPath : string) : string :=
  if negb (HasSuffix repoTestcasesPath "/")
  then repoTestcasesPath ++ "/" else repoTestcasesPath.

(** The test of the inner loop body: [configMatches || testcasesMatches]. *)
Definition fileTriggers (repoConfigPath repoTestcasesPath file : string) : bool :=
  let configDirPrefix := configDirPrefixOf repoConfigPath in
  let testcasesDirPrefix := testcasesDirPrefixOf repoTestcasesPath in
  let configMatches :=
    if Contains repoConfigPath "/"
    then HasPrefix file configDirPrefix
    else String.eqb file configDirPrefix in
  let testcasesMatches := HasPrefix file testcasesDirPrefix in
  configMatches || testcasesMatches.

(** The inner loop over the files of one commit: the paths looked at, and
    whether [shouldSync] was set (which leaves the loop). *)
Fixpoint scanFiles (repoConfigPath repoTestcasesPath : string)
    (files : list string) : list Effect * bool :=
  match files with
  | [] => ([], false)
  | file :: rest =>
      if fileTriggers repoConfigPath repoTestcasesPath file
      then ([InspectPath file], true)
      else
        let '(seen, shouldSync) := scanFiles repoConfigPath repoTestcasesPath rest in
        (InspectPath file :: seen, shouldSync)
  end.

(** The outer loop over the commits. *)
Fixpoint scanCommits (repoConfigPath repoTestcasesPath : string)
    (commits : list Commit) : list Effect * bool :=
  match commits with
  | [] => ([], false)
  | commit :: rest =>
      let '(seen, shouldSync) :=
        scanFiles repoConfigPath repoTestcasesPath
          ((Added commit ++ Modified commit) ++ Removed commit)%list in
      if shouldSync then (seen, true)
      else
        let '(seen', shouldSync') :=
          scanCommits repoConfigPath repoTestcasesPath rest in
        ((seen ++ seen')%list, shouldSync')
  end.

Section WebhookHandler.

(** The environment: the JSON decoder, the MAC and hex encoder of the
    library, and the outcome of [githubSync.Sync()] ([None] is success). *)
Variable json_Unmarshal : string -> option GitHubWebhookPayload.
Variable hmac_sha256 : string -> string -> string.
Variable hex_EncodeToString : string -> string.
Variable Sync : GitHubSync -> option string.

(** [handlePushEvent] *)
Definition handlePushEvent (wh : WebhookHandler) (payload : string)
    : list Effect * option PushError :=
  match json_Unmarshal payload with
  | None => ([], Some FailedToParsePayload)
  | Some webhookPayload =>
      let repoConfigPath := GetRepoConfigPath (githubSync wh) in
      let repoTestcasesPath := GetRepoTestcasesPath (githubSync wh) in
      let '(seen, shouldSync) :=
        scanCommits repoConfigPath repoTestcasesPath (Commits webhookPayload) in
      if negb shouldSync then (seen, None)
      else
        match Sync (githubSync wh) with
        | Some err => ((seen ++ [RunSync])%list, Some (FailedToSync err))
        | None => ((seen ++ [RunSync])%list, None)
        end
  end.

(** [verifySignatureWithBody]; [hmac.Equal] is equality of the two byte
    strings. *)
Definition verifySignatureWithBody (wh : WebhookHandler) (r : Request)
    (body : string) : bool :=
  let signature := HeaderGet r "X-Hub-Signature-256" in
  if String.eqb signature "" then false
  else
    let expectedSignature :=
      "sha256=" ++ hex_EncodeToString (hmac_sha256 (webhookSecret wh) body) in
    String.eqb signature expectedSignature.

(** [HandleWebhook]: what the request made the handler do, and the answer. *)
Definition HandleWebhook (wh : WebhookHandler) (r : Request)
    : list Effect * Response :=
  if negb (String.eqb (Method r) "POST") then ([], MethodNotAllowed)
  else
    match Body r with
    | None => ([], FailedToReadPayload)
    | Some payload =>
        if negb (String.eqb (webhookSecret wh) "")
           && negb (verifySignatureWithBody wh r payload)
        then ([], InvalidSignature)
        else
          let eventType := HeaderGet r "X-GitHub-Event" in
          if String.eqb eventType "" then ([], MissingEventType)
          else if String.eqb eventType "push" then
            match handlePushEvent wh payload with
            | (effects, Some err) => (effects, ErrorProcessingWebhook err)
            | (effects, None) => (effects, OK)
            end
          else ([], OK)
    end.

End WebhookHandler.

(** What the specification says of a changed path. The path is under the
    config sub-path: equal to it when the config path has no directory
    component, otherwise starting with its containing directory. *)
Definition underConfigPath (repoConfigPath file : string) : Prop :=
  (lacks "/" repoConfigPath /\ file = repoConfigPath)
  \/ exists dir base rest,
       repoConfigPath = dir ++ "/" ++ base
       /\ lacks "/" base
       /\ file = dir ++ "/" ++ rest.

(** [dir] is [path] read as a directory: with a slash at its end, added
    when [path] has none. *)
Definition asDirectory (path dir : string) : Prop :=
  ((exists front, path = front ++ "/") /\ dir = path)
  \/ (~ (exists front, path = front ++ "/") /\ dir = path ++ "/").

(** The path is under the fixtures sub-path: it starts with that path read
    as a directory. *)
Definition underTestcasesPath (repoTestcasesPath file : string) : Prop :=
  exists dir rest, asDirectory repoTestcasesPath dir /\ file = dir ++ rest.

(** Some commit of the push adds, modifies or removes a path under one of
    the two sub-paths. *)
Definition touchesWatchedPath (gs : GitHubSync) (commits : list Commit) : Prop :=
  exists commit file,
    commit ∈ commits
    /\ (file ∈ Added commit \/ file ∈ Modified commit \/ file ∈ Removed commit)
    /\ (underConfigPath (repoConfigPath gs) file
        \/ underTestcasesPath (repoTestcasesPath gs) file).

(** Two pushes, a handler without secret and one with the secret ["s"], and
    a decoder for the two payloads. *)
Definition commitOf (modified : list string) : Commit :=
  {| ID := "c0ffee"; Message := "update"; Added := []; Removed := [];
     Modified := modified |}.

Definition pushOf (modified : list string) : GitHubWebhookPayload :=
  {| Ref := "refs/heads/main";
     RepositoryFullName := "org/repo";
     RepositoryCloneURL := "https://github.com/org/repo.git";
     Commits := [commitOf modified] |}.

Definition decodePush (payload : string) : option GitHubWebhookPayload :=
  if String.eqb payload "fixture push"
  then Some (pushOf ["testcases/mock_echo-test-case-2.yaml"])
  else if String.eqb payload "readme push" then Some (pushOf ["README.md"])
  else None.

Definition openHandler : WebhookHandler :=
  {| githubSync := syncOf "https://github.com/org/repo.git" "" "";
     webhookSecret := "" |}.

Definition guardedHandler : WebhookHandler :=
  {| githubSync := syncOf "https://github.com/org/repo.git" "" "";
     webhookSecret := "s" |}.

Definition pushRequest (method payload : string) : Request :=
  {| Method := method;
     Header := {[ "X-GitHub-Event" := "push" ]};
     Body := Some payload |}.

End Webhook.

(** ** A fixture directory to run the matcher on *)

Module Scenario.
Import GoStrings GoValue Types Matcher.

(** [filepath.Join] on a clean directory name and a file name. *)
Definition join (dir name : string) : string := dir ++ "/" ++ name.

Definition textResult (text : string) : ToolResult :=
  {| Content := [ {| cbType := "text"; cbText := text; cbJSON := VNil |} ];
     IsError := false |}.

(** A fixture whose input is [{tags: [tag]}]. *)
Definition taggedFixture (tag : string) : TestCaseConfig :=
  {| Input := {[ "tags" := VSlice [VString tag] ]};
     Response := textResult ("tagged " ++ tag) |}.

(** A fixture without any expected argument. *)
Definition wildcardFixture : TestCaseConfig :=
  {| Input := ∅; Response := textResult "anything" |}.

(** A fixture whose input is [{message: "Hello, World!"}]. *)
Definition helloFixture : TestCaseConfig :=
  {| Input := {[ "message" := VString "Hello, World!" ]};
     Response := textResult "Echo: Hello, World!" |}.

(** The files of the directory ["testcases"]: documents are named by their
    content, and [decode] is the decoder on those documents. *)
Definition files : gmap string string :=
  {[ "testcases/mock_search-test-case-1.yaml" := "input: {tags: [x]}";
     "testcases/mock_search-test-case-2.yaml" := "input: {}";
     "testcases/mock_find-test-case-1.yaml" := "input: {tags: [x]}";
     "testcases/mock_echo-test-case-1.yaml" := "input: {message: Hello, World!}";
     "testcases/mock_echo-test-case-2.yaml" := "input: [broken";
     "testcases/mock_echo-test-case-3.yaml" := "input: {}" ]}.

Definition stat (path : string) : StatResult :=
  match files !! path with
  | Some _ => StatOk
  | None => StatNotExist
  end.

Definition readFile (path : string) : option string := files !! path.

Definition decode (data : string) : option TestCaseConfig :=
  if String.eqb data "input: {tags: [x]}" then Some (taggedFixture "x")
  else if String.eqb data "input: {}" then Some wildcardFixture
  else if String.eqb data "input: {message: Hello, World!}" then Some helloFixture
  else None.

(** [FindMatchingTestCase] on that directory. *)
Definition find (toolName : string) (args : gmap string Value)
    (defaultTestCase : Z) : M FindResult :=
  FindMatchingTestCase stat readFile decode join map_to_list "testcases"
    toolName args defaultTestCase.

End Scenario.

(** ** The tool manager, continued ([internal/mcp/tools.go]) *)

Module RegistryStart.
Import GoValue Types Matcher Registry.

(** [tm.tools[name] = tool] *)
Definition store (name : string) (tool : Tool) (tm : ToolManager) : ToolManager :=
  {| tools := <[name := tool]> (tools tm);
     toolsMutexHeld := toolsMutexHeld tm;
     configPath := configPath tm |}.

(** Log lines of [NewToolManager] and [createExampleYAML]. *)
Inductive StartLog : Set :=
| LogFailedToLoadUsingDefaults (err : LoadError)
| LogLoadedTools (path : string)
| LogNotFoundUsingDefaults (path : string)
| LogFailedToCreateExample
| LogFailedToWriteExample
| LogCreatedExample (path : string)
| LogFailedToStartWatcher.

(** What the watcher goroutine receives in one turn of its [select]: an
    event or an error, or the closing of one of the two channels. *)
Inductive Message : Type :=
| EventMessage (event : Event)
| EventsClosed
| ErrorMessage
| ErrorsClosed.

Section ToolManager.

(** A [[]string] held in an [interface{}], as the schemas of the default
    tools have them; the decoders never produce one. *)
Variable stringSlice : list string -> Value.

(** The environment: a file system with a state, the YAML decoder and
    encoder, and whether [startFileWatcher] succeeds. *)
Variable FS : Type.
Variable os_Stat : FS -> string -> StatResult.
Variable os_ReadFile : FS -> string -> option string.
Variable os_WriteFile : string -> string -> FS -> FS * bool.
Variable yaml_Unmarshal : string -> option ToolsConfig.
Variable yaml_Marshal : ToolsConfig -> option string.
Variable startFileWatcher : string -> bool.

(** The document of [createExampleYAML]. *)
Definition exampleConfig : ToolsConfig :=
  {| Tools :=
       [ {| tcName := "mock_echo";
            tcDescription := "Echoes back the input message";
            tcInputSchema :=
              {[ "type" := VString "object";
                 "properties" :=
                   VMap {[ "message" :=
                             VMap {[ "type" := VString "string";
                                     "description" := VString "The message to echo" ]} ]};
                 "required" := stringSlice ["message"] ]};
            tcHandler := "";
            tcDefaultTestCase := 0 |};
         {| tcName := "mock_calculator";
            tcDescription := "Performs basic arithmetic operations";
            tcInputSchema :=
              {[ "type" := VString "object";
                 "properties" :=
                   VMap {[ "operation" :=
                             VMap {[ "type" := VString "string";
                                     "description" :=
                                       VString "The operation to perform (add, subtract, multiply, divide)";
                                     "enum" :=
                                       stringSlice ["add"; "subtract"; "multiply"; "divide"] ]};
                           "a" :=
                             VMap {[ "type" := VString "number";
                                     "description" := VString "First number" ]};
                           "b" :=
                             VMap {[ "type" := VString "number";
                                     "description" := VString "Second number" ]} ]};
                 "required" := stringSlice ["operation"; "a"; "b"] ]};
            tcHandler := "";
            tcDefaultTestCase := 0 |};
         {| tcName := "mock_delay";
            tcDescription := "Simulates a delayed operation";
            tcInputSchema :=
              {[ "type" := VString "object";
                 "properties" :=
                   VMap {[ "seconds" :=
                             VMap {[ "type" := VString "number";
                                     "description" := VString "Number of seconds to delay" ]} ]};
                 "required" := stringSlice ["seconds"] ]};
            tcHandler := "";
            tcDefaultTestCase := 0 |} ] |}.

(** [createExampleYAML] *)
Definition createExampleYAML (tm : ToolManager) (fs : FS) : FS * list StartLog :=
  match yaml_Marshal exampleConfig with
  | None => (fs, [LogFailedToCreateExample])
  | Some data =>
      let '(fs, ok) := os_WriteFile (configPath tm) data fs in
      if negb ok then (fs, [LogFailedToWriteExample])
      else (fs, [LogCreatedExample (configPath tm)])
  end.

(** [registerDefaultTools] *)
Definition registerDefaultTools (tm : ToolManager) : ToolManager :=
  let tm := step tm ILock in
  let tm :=
    store "mock_echo"
      {| Name := "mock_echo";
         Description := "Echoes back the input message";
         InputSchema :=
           VMap {[ "type" := VString "object";
                   "properties" :=
                     VMap {[ "message" :=
                               VMap {[ "type" := VString "string";
                                       "description" := VString "The message to echo" ]} ]};
                   "required" := stringSlice ["message"] ]};
         DefaultTestCase := 0 |} tm in
  let tm :=
    store "mock_calculator"
      {| Name := "mock_calculator";
         Description := "Performs basic arithmetic operations";
         InputSchema :=
           VMap {[ "type" := VString "object";
                   "properties" :=
                     VMap {[ "operation" :=
                               VMap {[ "type" := VString "string";
                                       "description" :=
                                         VString "The operation to perform (add, subtract, multiply, divide)";
                                       "enum" :=
                                         stringSlice ["add"; "subtract"; "multiply"; "divide"] ]};
                             "a" :=
                               VMap {[ "type" := VString "number";
                                       "description" := VString "First number" ]};
                             "b" :=
                               VMap {[ "type" := VString "number";
                                       "description" := VString "Second number" ]} ]};
                   "required" := stringSlice ["operation"; "a"; "b"] ]};
         DefaultTestCase := 0 |} tm in
  let tm :=
    store "mock_delay"
      {| Name := "mock_delay";
         Description := "Simulates a delayed operation";
         InputSchema :=
           VMap {[ "type" := VString "object";
                   "properties" :=
                     VMap {[ "seconds" :=
                               VMap {[ "type" := VString "number";
                                       "description" := VString "Number of seconds to delay" ]} ]};
                   "required" := stringSlice ["seconds"] ]};
         DefaultTestCase := 0 |} tm in
  step tm IUnlock.

(** [NewToolManager]: the manager, the file system it leaves behind and the
    lines it logs (those of [loadToolsFromYAML] left out). The error it
    returns is always nil. *)
Definition NewToolManager (path : string) (fs : FS)
    : ToolManager * FS * list StartLog :=
  let tm := {| tools := ∅; toolsMutexHeld := false; configPath := path |} in
  let '(tm, fs, logs) :=
    match os_Stat fs path with
    | StatOk =>
        match loadToolsFromYAML (os_ReadFile fs) yaml_Unmarshal tm with
        | (tm, Some err) =>
            (registerDefaultTools tm, fs, [LogFailedToLoadUsingDefaults err])
        | (tm, None) => (tm, fs, [LogLoadedTools path])
        end
    | _ =>
        let tm := registerDefaultTools tm in
        let '(fs, logs) := createExampleYAML tm fs in
        (tm, fs, LogNotFoundUsingDefaults path :: logs)
    end in
  if startFileWatcher path then (tm, fs, logs)
  else (tm, fs, (logs ++ [LogFailedToStartWatcher])%list).

(** [watchFileChanges], run on the messages the goroutine receives, each
    with the file system as it is when the message is handled. The loop ends
    when a channel is closed; when the messages run out it waits. *)
Fixpoint watchFileChanges (tm : ToolManager) (turns : list (FS * Message))
    : ToolManager * list WatchLog :=
  match turns with
  | [] => (tm, [])
  | (fs, EventMessage event) :: rest =>
      let '(tm, logs) := onEvent (os_ReadFile fs) yaml_Unmarshal tm event in
      let '(tm, logs') := watchFileChanges tm rest in
      (tm, (logs ++ logs')%list)
  | (_, ErrorMessage) :: rest =>
      let '(tm, logs') := watchFileChanges tm rest in
      (tm, LogWatcherError :: logs')
  | (_, EventsClosed) :: _ => (tm, [])
  | (_, ErrorsClosed) :: _ => (tm, [])
  end.

(** The turn makes the manager reload its registry from [config]: it is a
    write or rename event for the config file, and the file reads and
    parses as [config] at that time. *)
Definition reloadsFrom (tm : ToolManager) (turn : FS * Message)
    (config : ToolsConfig) : Prop :=
  exists event data,
    turn.2 = EventMessage event
    /\ (Z.land (evOp event) Write = Write \/ Z.land (evOp event) Rename = Rename)
    /\ evName event = configPath tm
    /\ os_ReadFile turn.1 (configPath tm) = Some data
    /\ yaml_Unmarshal data = Some config.

Definition closes (turn : FS * Message) : Prop :=
  turn.2 = EventsClosed \/ turn.2 = ErrorsClosed.

End ToolManager.

End RegistryStart.

(** ** More of Go's [strings] package *)

Module GoStringsTrim.
Import GoStrings.

(** [strings.TrimPrefix(s, prefix)] *)
Definition TrimPrefix (s prefix : string) : string :=
  if HasPrefix s prefix then sliceFrom (String.length prefix) s else s.

(** [strings.TrimSuffix(s, suffix)] *)
Definition TrimSuffix (s suffix : string) : string :=
  if HasSuffix s suffix
  then sliceTo (String.length s - String.length suffix) s
  else s.

(** [strings.ReplaceAll(s, old, new)] for an [old] of one byte. *)
Fixpoint ReplaceAllByte (s : string) (old : ascii) (new : string) : string :=
  match s with
  | EmptyString => EmptyString
  | String c s' =>
      if Ascii.eqb c old then new ++ ReplaceAllByte s' old new
      else String c (ReplaceAllByte s' old new)
  end.

End GoStringsTrim.

(** ** Repository names ([internal/mcp/github_sync.go]) *)

Module RepoNames.
Import GoStrings GoStringsTrim.

(** [normalizeRepoURL]; [strings.TrimSpace] is the library's. *)
Definition normalizeRepoURL (TrimSpace : string -> string) (url : string) : string :=
  let url := TrimSpace url in
  let url := TrimSuffix url ".git" in
  let url :=
    if negb (HasPrefix url "http://") && negb (HasPrefix url "https://") then
      if Contains url "/" && negb (Contains url "@")
      then "https://github.com/" ++ TrimPrefix url "github.com/"
      else "https://" ++ url
    else url in
  if negb (HasSuffix url ".git") then url ++ ".git" else url.

(** [sanitizeRepoName] *)
Definition sanitizeRepoName (url : string) : string :=
  let url := TrimPrefix url "https://" in
  let url := TrimPrefix url "http://" in
  let url := TrimSuffix url ".git" in
  let url := ReplaceAllByte url "/" "_" in
  let url := ReplaceAllByte url ":" "_" in
  let url := ReplaceAllByte url "@" "_" in
  url.

End RepoNames.

(** ** The remote sync, continued ([internal/mcp/github_sync.go]) *)

Module RemoteSyncRun.
Import GoStrings GoStringsTrim RepoNames RemoteSync.

(** The sync with another repository URL. *)
Definition withRepoURL (gs : GitHubSync) (url : string) : GitHubSync :=
  {| repoURL := url;
     cacheDir := cacheDir gs;
     configDir := configDir gs;
     testcasesDir := testcasesDir gs;
     repoConfigPath := repoConfigPath gs;
     repoTestcasesPath := repoTestcasesPath gs;
     username := username gs;
     token := token gs |}.

(** What [Sync] asks of the operating system: the calls of package [os],
    a command run through [exec.Command(name, args...).Run()], and the walk
    of [copyDirectoryManual], which is taken as one call. *)
Inductive Call : Type :=
| MkdirAll (path : string)
| Stat (path : string)
| RemoveAll (path : string)
| ReadFile (path : string)
| WriteFile (path data : string)
| Command (name : string) (args : list string)
| ManualCopy (srcDir destDir : string).

Inductive CloneError : Set :=
| FailedToRemoveExistingDirectory
| GitCloneFailed.

Inductive CopyError : Set :=
| FailedToRemoveExistingDestination
| FailedToCreateDestination
| ManualCopyFailed.

Inductive SyncError : Set :=
| RepoURLIsEmpty
| FailedToCreateCacheDirectory
| FailedToCloneRepository (cause : CloneError)
| FailedToCheckRepositoryStatus
| FailedToCreateConfigDirectory
| FailedToReadConfigFileFromRepo
| FailedToWriteConfigFile
| FailedToCopyTestcasesDirectory (cause : CopyError).

(** The errors of [Sync] that come before anything is copied. *)
Definition fetchError (err : SyncError) : bool :=
  match err with
  | RepoURLIsEmpty | FailedToCreateCacheDirectory | FailedToCloneRepository _
  | FailedToCheckRepositoryStatus => true
  | _ => false
  end.

(** The commands that work on the clone in place: [git -C repoDir ...]. *)
Definition gitInPlace (c : Call) : bool :=
  match c with
  | Command name (flag :: _) => String.eqb name "git" && String.eqb flag "-C"
  | _ => false
  end.

Inductive SyncLog : Type :=
| LogCloning (logURL : string)
| LogCloned
| LogPulling (logURL : string)
| LogFailedToPull
| LogUpdated
| LogFailedToUpdateRemoteURL
| LogConfigSynced (repoConfigPath destConfigFile : string)
| LogConfigNotFound (repoConfigPath : string)
| LogTestcasesSynced (repoTestcasesPath testcasesDir : string)
| LogTestcasesNotFound (repoTestcasesPath : string).

(** Code that calls the operating system and logs: it runs from the calls
    made and the lines logged so far, and adds to both. *)
Definition Op (A : Type) : Type :=
  list Call * list SyncLog -> (list Call * list SyncLog) * A.

Definition ret {A} (a : A) : Op A := fun st => (st, a).

Definition bind {A B} (m : Op A) (f : A -> Op B) : Op B :=
  fun st => let '(st, a) := m st in f a st.

Notation "x <~ m ;; k" := (bind m (fun x => k))
  (at level 100, m at next level, right associativity).
Notation "m ;;~ k" := (bind m (fun _ => k))
  (at level 100, right associativity).

Definition logLine (line : SyncLog) : Op unit :=
  fun '(calls, logs) => ((calls, (logs ++ [line])%list), tt).

Section Sync.

(** The environment answers every call, knowing the calls made before it:
    whether it succeeds (the error is nil), and for [os.Stat] and
    [os.ReadFile] what they yield. [filepath.Join] is the library's. *)
Variable succeeds : list Call -> Call -> bool.
Variable os_Stat : list Call -> string -> Matcher.StatResult.
Variable os_ReadFile : list Call -> string -> option string.
Variable filepath_Join : string -> string -> string.

Definition call (c : Call) : Op bool :=
  fun '(calls, logs) => (((calls ++ [c])%list, logs), succeeds calls c).

Definition osStat (path : string) : Op Matcher.StatResult :=
  fun '(calls, logs) => (((calls ++ [Stat path])%list, logs), os_Stat calls path).

Definition osReadFile (path : string) : Op (option string) :=
  fun '(calls, logs) =>
    (((calls ++ [ReadFile path])%list, logs), os_ReadFile calls path).

(** [cloneRepo] *)
Definition cloneRepo (gs : GitHubSync) (destDir : string) : Op (option CloneError) :=
  removed <~ call (RemoveAll destDir) ;;
  if negb removed then ret (Some FailedToRemoveExistingDirectory)
  else
    let cloneURL := getAuthenticatedURL gs in
    cloned <~ call (Command "git" ["clone"; "--depth"; "1"; cloneURL; destDir]) ;;
    if negb cloned then ret (Some GitCloneFailed) else ret None.

(** [pullRepo]; [true] is the nil error. *)
Definition pullRepo (gs : GitHubSync) (repoDir : string) : Op bool :=
  (if negb (String.eqb (username gs) "") && negb (String.eqb (token gs) "") then
     let authenticatedURL := getAuthenticatedURL gs in
     updated <~ call (Command "git" ["-C"; repoDir; "remote"; "set-url"; "origin";
                                      authenticatedURL]) ;;
     if negb updated then logLine LogFailedToUpdateRemoteURL else ret tt
   else ret tt) ;;~
  call (Command "git" ["-C"; repoDir; "pull"]).

(** [copyDirectory] *)
Definition copyDirectory (srcDir destDir : string) : Op (option CopyError) :=
  removed <~ call (RemoveAll destDir) ;;
  if negb removed then ret (Some FailedToRemoveExistingDestination)
  else
    made <~ call (MkdirAll destDir) ;;
    if negb made then ret (Some FailedToCreateDestination)
    else
      copied <~ call (Command "cp" ["-r"; srcDir ++ "/."; destDir ++ "/"]) ;;
      if negb copied then
        walked <~ call (ManualCopy srcDir destDir) ;;
        if negb walked then ret (Some ManualCopyFailed) else ret None
      else ret None.

(** The part of [Sync] that copies the testcases directory. *)
Definition syncTestcases (gs : GitHubSync) (repoDir : string) : Op (option SyncError) :=
  let repoTestcasesDir := filepath_Join repoDir (repoTestcasesPath gs) in
  found <~ osStat repoTestcasesDir ;;
  match found with
  | Matcher.StatOk =>
      copied <~ copyDirectory repoTestcasesDir (testcasesDir gs) ;;
      match copied with
      | Some err => ret (Some (FailedToCopyTestcasesDirectory err))
      | None =>
          logLine (LogTestcasesSynced (repoTestcasesPath gs) (testcasesDir gs)) ;;~
          ret None
      end
  | _ => logLine (LogTestcasesNotFound (repoTestcasesPath gs)) ;;~ ret None
  end.

(** The part of [Sync] that copies the config file, followed by the
    testcases. *)
Definition syncConfig (gs : GitHubSync) (repoDir : string) : Op (option SyncError) :=
  let repoConfigFile := filepath_Join repoDir (repoConfigPath gs) in
  found <~ osStat repoConfigFile ;;
  match found with
  | Matcher.StatOk =>
      made <~ call (MkdirAll (configDir gs)) ;;
      if negb made then ret (Some FailedToCreateConfigDirectory)
      else
        let destConfigFile := filepath_Join (configDir gs) "tools.yaml" in
        data <~ osReadFile repoConfigFile ;;
        match data with
        | None => ret (Some FailedToReadConfigFileFromRepo)
        | Some data =>
            written <~ call (WriteFile destConfigFile data) ;;
            if negb written then ret (Some FailedToWriteConfigFile)
            else
              logLine (LogConfigSynced (repoConfigPath gs) destConfigFile) ;;~
              syncTestcases gs repoDir
        end
  | _ =>
      logLine (LogConfigNotFound (repoConfigPath gs)) ;;~
      syncTestcases gs repoDir
  end.

(** [Sync]: [None] is the nil error. *)
Definition Sync (gs : GitHubSync) : Op (option SyncError) :=
  if String.eqb (repoURL gs) "" then ret (Some RepoURLIsEmpty)
  else
    made <~ call (MkdirAll (cacheDir gs)) ;;
    if negb made then ret (Some FailedToCreateCacheDirectory)
    else
      let repoDir := filepath_Join (cacheDir gs) "repo" in
      found <~ osStat (filepath_Join repoDir ".git") ;;
      match found with
      | Matcher.StatNotExist =>
          let logURL := sanitizeURLForLogging (repoURL gs) in
          logLine (LogCloning logURL) ;;~
          cloned <~ cloneRepo gs repoDir ;;
          match cloned with
          | Some err => ret (Some (FailedToCloneRepository err))
          | None => logLine LogCloned ;;~ syncConfig gs repoDir
          end
      | Matcher.StatOk =>
          let logURL := sanitizeURLForLogging (repoURL gs) in
          logLine (LogPulling logURL) ;;~
          pulled <~ pullRepo gs repoDir ;;
          (if negb pulled then logLine LogFailedToPull else logLine LogUpdated) ;;~
          syncConfig gs repoDir
      | Matcher.StatError => ret (Some FailedToCheckRepositoryStatus)
      end.

(** The call stays within the directories of the sync: directories are
    made at the cache, config and testcases directories only, removed at
    the clone and the testcases directory only, the one file written is
    [tools.yaml] in the config directory, with what was read from the
    config file of the clone, git works on the clone, and the copies go to
    the testcases directory. *)
Definition confined (gs : GitHubSync) (c : Call) : Prop :=
  let repoDir := filepath_Join (cacheDir gs) "repo" in
  match c with
  | MkdirAll path =>
      path = cacheDir gs \/ path = configDir gs \/ path = testcasesDir gs
  | RemoveAll path => path = repoDir \/ path = testcasesDir gs
  | WriteFile path data =>
      path = filepath_Join (configDir gs) "tools.yaml"
      /\ exists calls,
           os_ReadFile calls (filepath_Join repoDir (repoConfigPath gs)) = Some data
  | Command name args =>
      (name = "git" /\ repoDir ∈ args)
      \/ (name = "cp" /\ last args = Some (testcasesDir gs ++ "/"))
  | ManualCopy _ destDir => destDir = testcasesDir gs
  | Stat _ | ReadFile _ => True
  end.

(** The calls of a sync that gets no further than fetching the
    repository. *)
Definition fetchCalls (gs : GitHubSync) : list Call :=
  let repoDir := filepath_Join (cacheDir gs) "repo" in
  [ MkdirAll (cacheDir gs);
    Stat (filepath_Join repoDir ".git");
    RemoveAll repoDir;
    Command "git" ["clone"; "--depth"; "1"; getAuthenticatedURL gs; repoDir] ].

(** [GetConfigPath] and [GetTestcasesDir] *)
Definition GetConfigPath (gs : GitHubSync) : string :=
  filepath_Join (configDir gs) "tools.yaml".

Definition GetTestcasesDir (gs : GitHubSync) : string := testcasesDir gs.

(** The environment of [SyncFromGitHub]: the variables of the process, the
    temporary directory and [strings.TrimSpace]. *)
Variable os_Getenv : string -> string.
Variable os_TempDir : string.
Variable TrimSpace : string -> string.

(** The [GitHubSync] that [SyncFromGitHub] makes for a repository URL. *)
Definition syncFor (repoURL : string) : GitHubSync :=
  let normalizedURL := normalizeRepoURL TrimSpace repoURL in
  let repoConfigPath := os_Getenv "GITHUB_TOOLS_CONFIG_PATH" in
  let repoConfigPath :=
    if String.eqb repoConfigPath "" then "config/tools.yaml" else repoConfigPath in
  let repoTestcasesPath := os_Getenv "GITHUB_TESTCASES_PATH" in
  let repoTestcasesPath :=
    if String.eqb repoTestcasesPath "" then "testcases" else repoTestcasesPath in
  let username := os_Getenv "GITHUB_USERNAME" in
  let token := os_Getenv "GITHUB_TOKEN" in
  let cacheBase := filepath_Join os_TempDir "mock-mcp-github-sync" in
  let cacheDir := filepath_Join cacheBase (sanitizeRepoName normalizedURL) in
  NewGitHubSync filepath_Join normalizedURL cacheDir repoConfigPath
    repoTestcasesPath username token.

(** [SyncFromGitHub]: the config path, the testcases directory and the sync,
    or the error of [Sync] that the returned error wraps. *)
Definition SyncFromGitHub (repoURL : string)
    : Op (SyncError + (string * string * GitHubSync)) :=
  if String.eqb repoURL "" then ret (inl RepoURLIsEmpty)
  else
    let sync := syncFor repoURL in
    failed <~ Sync sync ;;
    match failed with
    | Some err => ret (inl err)
    | None => ret (inr (GetConfigPath sync, GetTestcasesDir sync, sync))
    end.

End Sync.

(** A run from nothing: the calls made, the lines logged and the result. *)
Definition runOp {A} (m : Op A) : list Call * list SyncLog * A := m ([], []).

(** Running [m] keeps [P] true of every call made, and its result
    satisfies [Q]. *)
Definition preserves {A} (P : Call -> Prop) (m : Op A) (Q : A -> Prop) : Prop :=
  forall st, Forall P st.1 -> Forall P (m st).1.1 /\ Q (m st).2.

(** [m] and [m'] make the same calls. *)
Definition sameTrace {A B} (m : Op A) (m' : Op B) : Prop :=
  forall st st', st.1 = st'.1 -> (m st).1.1 = (m' st').1.1.

(** [m] and [m'] make the same calls and give the same result. *)
Definition sameCalls {A} (m m' : Op A) : Prop :=
  forall st st', st.1 = st'.1 -> (m st).1.1 = (m' st').1.1 /\ (m st).2 = (m' st').2.

End RemoteSyncRun.

(** ** Kinds of values *)

Module ValueKinds.
Import GoValue.

(** The kinds of value the decoders produce: a number of any numeric type,
    a string, a boolean, nil, a mapping, a sequence. *)
Inductive Kind : Set :=
| Number | Text | Flag | Null | Mapping | Sequence.

Definition kindOf (v : Value) : Kind :=
  match v with
  | VNil => Null
  | VBool _ => Flag
  | VString _ => Text
  | VInt _ _ | VFloat32 _ | VFloat64 _ => Number
  | VMap _ => Mapping
  | VSlice _ => Sequence
  end.

Definition isNaN (f : spec_float) : bool :=
  match f with S754_nan => true | _ => false end.

End ValueKinds.

(** ** The test-case manager, continued ([TestCaseManager]) *)

Module TestCaseStore.
Import GoStrings GoValue Types Matcher.

Section Outcome.

Variable os_Stat : string -> StatResult.
Variable os_ReadFile : string -> option string.
Variable yaml_Unmarshal : string -> option TestCaseConfig.
Variable filepath_Join : string -> string -> string.
Variable rangeOrder : gmap string Value -> list (string * Value).
Variable testCasesDir : string.

(** Fixture [i] exists and loads, and comparing its expected arguments with
    the call's panics. *)
Definition faultsAt (toolName : string) (args : gmap string Value)
    (i : Z) (r : PanicReason) : Prop :=
  os_Stat (testCaseFile filepath_Join testCasesDir toolName i) <> StatNotExist
  /\ exists testCase,
       loadTestCase os_ReadFile yaml_Unmarshal
         (testCaseFile filepath_Join testCasesDir toolName i) = Some testCase
       /\ matchArguments rangeOrder (Input testCase) args = Panic r.

End Outcome.

Inductive SaveError : Set :=
| FailedToCreateTestcasesDirectory
| FailedToMarshalTestCase
| FailedToWriteTestCaseFile.

Section SaveTestCase.

(** The environment: a file system with a state, [os.MkdirAll] and
    [os.WriteFile] on it (the boolean tells that the error is nil), the YAML
    encoder and [filepath.Join]. *)
Variable FS : Type.
Variable os_MkdirAll : string -> FS -> FS * bool.
Variable os_WriteFile : string -> string -> FS -> FS * bool.
Variable yaml_Marshal : TestCaseConfig -> option string.
Variable filepath_Join : string -> string -> string.

(** The receiver. *)
Variable testCasesDir : string.

(** [SaveTestCase]: the file system it leaves behind and the error. *)
Definition SaveTestCase (toolName : string) (testCaseNumber : Z)
    (testCase : TestCaseConfig) (fs : FS) : FS * option SaveError :=
  let '(fs, ok) := os_MkdirAll testCasesDir fs in
  if negb ok then (fs, Some FailedToCreateTestcasesDirectory)
  else
    let filename := testCaseFile filepath_Join testCasesDir toolName testCaseNumber in
    match yaml_Marshal testCase with
    | None => (fs, Some FailedToMarshalTestCase)
    | Some data =>
        let '(fs, ok) := os_WriteFile filename data fs in
        if negb ok then (fs, Some FailedToWriteTestCaseFile)
        else (fs, None)
    end.

End SaveTestCase.

(** A file system in memory: the files by path. Directories need not be
    made, and every write succeeds. *)
Definition memMkdirAll (path : string) (fs : gmap string string)
    : gmap string string * bool := (fs, true).

Definition memWriteFile (path data : string) (fs : gmap string string)
    : gmap string string * bool := (<[path := data]> fs, true).

Definition memStat (fs : gmap string string) (path : string) : StatResult :=
  match fs !! path with Some _ => StatOk | None => StatNotExist end.

Definition memReadFile (fs : gmap string string) (path : string) : option string :=
  fs !! path.

End TestCaseStore.

(** ** The server ([MockMCPServer]) *)

Module Server.
Import GoStrings GoValue Types Matcher Registry TestCaseStore.

(** [MCPRequest]; [Params] is the raw JSON text. *)
Record MCPRequest : Type := {
  JSONRPC : string;
  ID : Value;
  Method : string;
  Params : string
}.

Record MCPError : Type := {
  Code : Z;
  Message : string;
  Data : option string
}.

(** What the handlers put into [MCPResponse.Result]: an
    [InitializeResult], the map [{"tools": tools}], or a [ToolResult]. *)
Inductive ResultValue : Type :=
| InitializeResult (ProtocolVersion : string)
    (Capabilities ServerInfo : gmap string Value)
| ToolsResult (tools : list Tool)
| CallResult (result : ToolResult).

(** [MCPResponse]; [None] is the nil [Result] or [Error], which the encoder
    omits. *)
Record MCPResponse : Type := {
  respJSONRPC : string;
  respID : Value;
  Result : option ResultValue;
  Error : option MCPError
}.

(** The fields of [MockMCPServer] that the handlers read; [None] is the nil
    webhook handler. *)
Record MockMCPServer : Type := {
  toolManager : ToolManager;
  testCasesDir : string;
  webhookHandler : option Webhook.WebhookHandler
}.

(** The log of a request: the lines of [FindMatchingTestCase] and the line
    of [executeMockTool]. *)
Inductive ServerLog : Type :=
| TestCaseLog (line : LogLine)
| LogErrorFindingTestCase (name : string).

Definition errorResponse (req : MCPRequest) (code : Z) (message : string)
    (data : option string) : MCPResponse :=
  {| respJSONRPC := "2.0";
     respID := ID req;
     Result := None;
     Error := Some {| Code := code; Message := message; Data := data |} |}.

Definition resultResponse (req : MCPRequest) (result : ResultValue) : MCPResponse :=
  {| respJSONRPC := "2.0";
     respID := ID req;
     Result := Some result;
     Error := None |}.

(** A response is well formed for [req]: version 2.0, the identifier of the
    request, and either a result or an error, not both. *)
Definition wellFormed (req : MCPRequest) (resp : MCPResponse) : Prop :=
  respJSONRPC resp = "2.0"
  /\ respID resp = ID req
  /\ ((is_Some (Result resp) /\ Error resp = None)
      \/ (Result resp = None /\ is_Some (Error resp))).

Section MockMCPServer.

(** The environment: the file system and decoders of the test-case manager,
    the JSON decoder on the two kinds of parameters ([inl] carries the text
    of the error), and the [%v] format of an argument map. *)
Variable os_Stat : string -> StatResult.
Variable os_ReadFile : string -> option string.
Variable yaml_Unmarshal : string -> option TestCaseConfig.
Variable filepath_Join : string -> string -> string.
Variable rangeOrder : gmap string Value -> list (string * Value).
Variable json_Unmarshal_InitializeParams : string -> option string.
Variable json_Unmarshal_ToolCall : string -> string + (string * gmap string Value).
Variable Sprint_args : gmap string Value -> string.

(** [handleInitialize] *)
Definition handleInitialize (s : MockMCPServer) (req : MCPRequest) : MCPResponse :=
  match json_Unmarshal_InitializeParams (Params req) with
  | Some err => errorResponse req (-32602) "Invalid params" (Some err)
  | None =>
      resultResponse req
        (InitializeResult "2024-11-05"
           {[ "tools" := VMap {[ "listChanged" := VBool true ]} ]}
           {[ "name" := VString "mock-mcp-server";
              "version" := VString "1.0.0" ]})
  end.

(** [handleListTools] *)
Definition handleListTools (s : MockMCPServer) (req : MCPRequest) : MCPResponse :=
  resultResponse req (ToolsResult (GetAllTools (toolManager s))).

(** [executeMockTool] *)
Definition executeMockTool (s : MockMCPServer) (name : string)
    (args : gmap string Value) : list ServerLog * exec ToolResult :=
  let defaultTestCase :=
    match GetTool (toolManager s) name with
    | Some tool => DefaultTestCase tool
    | None => 0
    end in
  match FindMatchingTestCase os_Stat os_ReadFile yaml_Unmarshal filepath_Join
          rangeOrder (testCasesDir s) name args defaultTestCase with
  | (lines, Ret (Found testCase)) => (TestCaseLog <$> lines, Ret (Response testCase))
  | (lines, Ret NotFound) =>
      ((TestCaseLog <$> lines) ++ [LogErrorFindingTestCase name],
       Ret {| Content :=
                [ {| cbType := "text";
                     cbText := "No test case found for tool: " ++ name
                               ++ " with args: " ++ Sprint_args args;
                     cbJSON := VNil |} ];
              IsError := true |})%list
  | (lines, Panic r) => (TestCaseLog <$> lines, Panic r)
  end.

(** [handleCallTool] *)
Definition handleCallTool (s : MockMCPServer) (req : MCPRequest)
    : list ServerLog * exec MCPResponse :=
  match json_Unmarshal_ToolCall (Params req) with
  | inl err => ([], Ret (errorResponse req (-32602) "Invalid params" (Some err)))
  | inr (name, arguments) =>
      match GetTool (toolManager s) name with
      | None => ([], Ret (errorResponse req (-32601) "Tool not found" None))
      | Some _ =>
          match executeMockTool s name arguments with
          | (lines, Ret result) => (lines, Ret (resultResponse req (CallResult result)))
          | (lines, Panic r) => (lines, Panic r)
          end
      end
  end.

(** [processRequest] *)
Definition processRequest (s : MockMCPServer) (req : MCPRequest)
    : list ServerLog * exec MCPResponse :=
  if String.eqb (Method req) "initialize" then ([], Ret (handleInitialize s req))
  else if String.eqb (Method req) "tools/list" then ([], Ret (handleListTools s req))
  else if String.eqb (Method req) "tools/call" then handleCallTool s req
  else ([], Ret (errorResponse req (-32601) "Method not found" None)).

End MockMCPServer.

(** The answers of [HandleSaveTestCase]. *)
Inductive SaveResponse : Type :=
| SaveMethodNotAllowed
| SaveInvalidRequest (err : string)
| SaveToolNotFound (toolName : string)
| SaveFailed (err : SaveError)
| SaveSucceeded (message : string).

Definition saveStatusCode (resp : SaveResponse) : Z :=
  match resp with
  | SaveMethodNotAllowed => 405
  | SaveInvalidRequest _ => 400
  | SaveToolNotFound _ => 400
  | SaveFailed _ => 500
  | SaveSucceeded _ => 200
  end.

(** The body of a save request once decoded. *)
Record SaveRequest : Type := {
  ToolName : string;
  TestCaseNumber : Z;
  saveInput : gmap string Value;
  saveResponse : ToolResult
}.

Section HandleSaveTestCase.

Variable FS : Type.
Variable os_MkdirAll : string -> FS -> FS * bool.
Variable os_WriteFile : string -> string -> FS -> FS * bool.
Variable yaml_Marshal : TestCaseConfig -> option string.
Variable filepath_Join : string -> string -> string.
Variable json_Decode_SaveRequest : string -> string + SaveRequest.

(** [HandleSaveTestCase] on a request with the given method and body: the
    file system it leaves behind and the answer. *)
Definition HandleSaveTestCase (s : MockMCPServer) (method body : string) (fs : FS)
    : FS * SaveResponse :=
  if negb (String.eqb method "POST") then (fs, SaveMethodNotAllowed)
  else
    match json_Decode_SaveRequest body with
    | inl err => (fs, SaveInvalidRequest err)
    | inr req =>
        match GetTool (toolManager s) (ToolName req) with
        | None => (fs, SaveToolNotFound (ToolName req))
        | Some _ =>
            let testCase :=
              {| Input := saveInput req; Response := saveResponse req |} in
            match SaveTestCase FS os_MkdirAll os_WriteFile yaml_Marshal filepath_Join
                    (testCasesDir s) (ToolName req) (TestCaseNumber req) testCase fs with
            | (fs, Some err) => (fs, SaveFailed err)
            | (fs, None) =>
                (fs, SaveSucceeded
                       ("Test case saved: " ++ ToolName req ++ "-test-case-"
                        ++ itoa (TestCaseNumber req) ++ ".yaml"))
            end
        end
    end.

End HandleSaveTestCase.

(** The answers of [MockMCPServer.HandleWebhook]: the server has no webhook
    handler, or the handler's answer. *)
Inductive WebhookAnswer : Type :=
| WebhookNotConfigured
| Handled (resp : Webhook.Response).

Definition webhookStatusCode (answer : WebhookAnswer) : Z :=
  match answer with
  | WebhookNotConfigured => 501
  | Handled resp => Webhook.statusCode resp
  end.

Section HandleWebhook.

Variable json_Unmarshal : string -> option Webhook.GitHubWebhookPayload.
Variable hmac_sha256 : string -> string -> string.
Variable hex_EncodeToString : string -> string.
Variable Sync : RemoteSync.GitHubSync -> option string.

(** [MockMCPServer.HandleWebhook] *)
Definition HandleWebhook (s : MockMCPServer) (r : Webhook.Request)
    : list Webhook.Effect * WebhookAnswer :=
  match webhookHandler s with
  | None => ([], WebhookNotConfigured)
  | Some wh =>
      let '(effects, resp) :=
        Webhook.HandleWebhook json_Unmarshal hmac_sha256 hex_EncodeToString Sync wh r in
      (effects, Handled resp)
  end.

End HandleWebhook.

(** The paths of a push in the order in which the loops of
    [handlePushEvent] visit them: commit by commit, the added, the modified
    and the removed paths of each. *)
Definition changedFiles (commits : list Webhook.Commit) : list string :=
  flat_map (fun commit =>
              (Webhook.Added commit ++ Webhook.Modified commit)
              ++ Webhook.Removed commit)%list commits.

(** A server with the registry of the echo tool and the fixture directory
    ["testcases"]. *)
Definition echoServer : MockMCPServer :=
  {| toolManager := echoManager;
     testCasesDir := "testcases";
     webhookHandler := None |}.

(** The same server with fixture 1 as the default of the echo tool. *)
Definition defaultingServer : MockMCPServer :=
  {| toolManager :=
       {| tools := {[ "mock_echo" :=
                        {| Name := "mock_echo";
                           Description := "Echoes back the input message";
                           InputSchema := VMap {[ "type" := VString "object" ]};
                           DefaultTestCase := 1 |} ]};
          toolsMutexHeld := false;
          configPath := "config/tools.yaml" |};
     testCasesDir := "testcases";
     webhookHandler := None |}.

(** Requests with identifier 1, and decoders for their parameters: the
    parameters ["echo bye"] call [mock_echo] with [{message: Bye}], the
    parameters ["echo hello"] with [{message: Hello, World!}], and
    ["lost"] calls a tool that is not there. *)
Definition requestOf (method params : string) : MCPRequest :=
  {| JSONRPC := "2.0"; ID := VInt KInt 1; Method := method; Params := params |}.

Definition decodeInitialize (params : string) : option string :=
  if String.eqb params "" then Some "unexpected end of JSON input" else None.

Definition decodeCall (params : string) : string + (string * gmap string Value) :=
  if String.eqb params "echo bye"
  then inr ("mock_echo", {[ "message" := VString "Bye" ]})
  else if String.eqb params "echo hello"
  then inr ("mock_echo", {[ "message" := VString "Hello, World!" ]})
  else if String.eqb params "lost" then inr ("mock_lost", ∅)
  else inl "unexpected end of JSON input".

(** A save request for the hello fixture as number 1 of the echo tool. *)
Definition saveHello : SaveRequest :=
  {| ToolName := "mock_echo";
     TestCaseNumber := 1;
     saveInput := Input Scenario.helloFixture;
     saveResponse := Response Scenario.helloFixture |}.

Definition decodeSave (body : string) : string + SaveRequest :=
  if String.eqb body "save hello" then inr saveHello
  else inl "unexpected end of JSON input".

(** An encoder and a decoder of fixtures that know the hello fixture. *)
Definition encodeFixture (testCase : TestCaseConfig) : option string := Some "hello".

Definition decodeFixture (data : string) : option TestCaseConfig :=
  if String.eqb data "hello" then Some Scenario.helloFixture else None.

(** The echo server with the webhook handler that has the secret ["s"]. *)
Definition hookedServer : MockMCPServer :=
  {| toolManager := echoManager;
     testCasesDir := "testcases";
     webhookHandler := Some Webhook.guardedHandler |}.

(** A push request signed with [signature]. *)
Definition signedPush (payload signature : string) : Webhook.Request :=
  {| Webhook.Method := "POST";
     Webhook.Header := {[ "X-GitHub-Event" := "push";
                          "X-Hub-Signature-256" := signature ]};
     Webhook.Body := Some payload |}.

End Server.

(** * Conversion of integers to binary64 *)

Module Float64.
Import GoValue.

Lemma digits2_pos_iter_xO p k :
  digits2_pos (Pos.iter xO p k) = (digits2_pos p + k)%positive.
Proof.
  induction k as [|k IH] using Pos.peano_ind.
  - simpl. lia.
  - rewrite Pos.iter_succ. simpl. rewrite IH. lia.
Qed.

Lemma binary_round_aux_canonical s m e :
  fexp prec64 emax64 (Z.pos (digits2_pos m) + e) = e ->
  e <= emax64 - prec64 ->
  binary_round_aux prec64 emax64 s (Z.pos m) e loc_Exact = S754_finite s m e.
Proof.
  intros Hcanon Hmax. unfold binary_round_aux, shr_fexp. simpl Zdigits2.
  rewrite Hcanon, Z.sub_diag. simpl. rewrite Hcanon, Z.sub_diag. simpl.
  destruct (Z.leb_spec e (emax64 - prec64)); [reflexivity | lia].
Qed.

Lemma binary_round_small s p :
  Z.pos (digits2_pos p) <= prec64 ->
  binary_round prec64 emax64 s p 0 = S754_finite s (aligned p).1 (aligned p).2.
Proof.
  intros Hd. unfold binary_round, aligned.
  assert (Hfexp : fexp prec64 emax64 (Z.pos (digits2_pos p) + 0)
                  = Z.pos (digits2_pos p) - prec64).
  { unfold fexp, emin, prec64, emax64 in *. lia. }
  rewrite Hfexp. unfold shl_align.
  destruct (Z.pos (digits2_pos p) - prec64 - 0) as [|d|d] eqn:Hsub; simpl.
  - apply binary_round_aux_canonical; [|unfold prec64, emax64; lia].
    unfold fexp, emin, prec64, emax64 in *. lia.
  - lia.
  - apply binary_round_aux_canonical; [|unfold prec64, emax64 in *; lia].
    rewrite digits2_pos_iter_xO. unfold fexp, emin, prec64, emax64 in *. lia.
Qed.

Lemma SFeqb_finite s1 m1 e1 s2 m2 e2 :
  SFeqb (S754_finite s1 m1 e1) (S754_finite s2 m2 e2) = true <->
  s1 = s2 /\ m1 = m2 /\ e1 = e2.
Proof.
  unfold SFeqb, SFcompare.
  change (Pos.compare_cont Eq m1 m2) with (m1 ?= m2)%positive.
  destruct s1, s2; try (split; [discriminate | intros (? & _); discriminate]);
    destruct (Z.compare_spec e1 e2) as [He|He|He];
    try (split; [discriminate | intros (_ & _ & ?); lia]);
    destruct (Pos.compare_spec m1 m2) as [Hm|Hm|Hm]; simpl;
    try (split; [discriminate | intros (_ & ? & _); lia]);
    subst; tauto.
Qed.


Lemma represents_functional f n n' : represents f n -> represents f n' -> n = n'.
Proof.
  destruct f as [?| | |s m e]; simpl; try tauto; [congruence|].
  intros H1 H2. rewrite H1 in H2.
  assert (0 < 2 ^ Z.max (- e) 0) by (apply Z.pow_pos_nonneg; lia). nia.
Qed.

Lemma pos_iter_xO_Z p k : Z.pos (Pos.iter xO p k) = Z.pos p * 2 ^ Z.pos k.
Proof.
  induction k as [|k IH] using Pos.peano_ind.
  - simpl. lia.
  - rewrite Pos.iter_succ, Pos2Z.inj_xO, IH, Pos2Z.inj_succ, Z.pow_succ_r; lia.
Qed.

Lemma digits2_pos_bounds p :
  2 ^ (Z.pos (digits2_pos p) - 1) <= Z.pos p < 2 ^ Z.pos (digits2_pos p).
Proof.
  induction p as [p IH|p IH|]; simpl digits2_pos; [| |simpl; lia];
    rewrite Pos2Z.inj_succ;
    replace (Z.succ (Z.pos (digits2_pos p)) - 1)
      with (Z.succ (Z.pos (digits2_pos p) - 1)) by lia;
    rewrite (Z.pow_succ_r 2 (Z.pos (digits2_pos p) - 1)) by lia;
    rewrite (Z.pow_succ_r 2 (Z.pos (digits2_pos p))) by lia; lia.
Qed.

Lemma digits2_pos_le p n : 0 <= n -> Z.pos p < 2 ^ n -> Z.pos (digits2_pos p) <= n.
Proof.
  intros Hn Hp. destruct (Z.le_gt_cases (Z.pos (digits2_pos p)) n) as [|Hgt]; [done|].
  pose proof (digits2_pos_bounds p) as [Hlo _].
  assert (2 ^ n <= 2 ^ (Z.pos (digits2_pos p) - 1)) by (apply Z.pow_le_mono_r; lia).
  lia.
Qed.


Lemma represents_aligned s p :
  represents (S754_finite s (aligned p).1 (aligned p).2) (cond_Zopp s (Z.pos p)).
Proof.
  unfold aligned, shl_align.
  destruct (Z.pos (digits2_pos p) - prec64 - 0) as [|d|d] eqn:Hsub; simpl fst; simpl snd.
  - reflexivity.
  - reflexivity.
  - assert (He : Z.pos (digits2_pos p) - prec64 = Z.neg d) by lia.
    rewrite He. simpl represents.
    replace (Z.max (Z.neg d) 0) with 0 by lia.
    replace (Z.max (- Z.neg d) 0) with (Z.pos d) by lia.
    rewrite pos_iter_xO_Z. destruct s; simpl cond_Zopp; lia.
Qed.

(** [float64(n)] for a non-zero [n] of magnitude [p]. *)
Lemma float64_of_int_sign s p :
  float64_of_int (cond_Zopp s (Z.pos p)) = binary_round prec64 emax64 s p 0.
Proof. destruct s; reflexivity. Qed.

Lemma binary_round_two53 s :
  binary_round prec64 emax64 s 9007199254740992%positive 0
  = S754_finite s 4503599627370496%positive 1.
Proof. destruct s; vm_compute; reflexivity. Qed.

Lemma represents_float64_of_int n :
  Z.abs n <= 2 ^ 53 -> represents (float64_of_int n) n.
Proof.
  intros Hn.
  assert (Hpos : forall s p, Z.pos p <= 2 ^ 53 ->
            represents (binary_round prec64 emax64 s p 0) (cond_Zopp s (Z.pos p))).
  { intros s p Hp. destruct (Pos.eq_dec p 9007199254740992%positive) as [->|Hne].
    - rewrite binary_round_two53. destruct s; vm_compute; reflexivity.
    - rewrite binary_round_small; [apply represents_aligned|].
      apply digits2_pos_le; [unfold prec64; lia|].
      change (2 ^ prec64) with 9007199254740992.
      change (2 ^ 53) with 9007199254740992 in Hp. lia. }
  destruct n as [|p|p].
  - reflexivity.
  - apply (Hpos false p). lia.
  - apply (Hpos true p). lia.
Qed.


(** A canonical binary64 number whose value is an integer of magnitude at
    most [2^53] is the conversion of that integer. *)
Lemma canonical_unique s m e p :
  bounded prec64 emax64 m e = true ->
  Z.pos p <= 2 ^ 53 ->
  Z.pos m * 2 ^ Z.max e 0 = Z.pos p * 2 ^ Z.max (- e) 0 ->
  binary_round prec64 emax64 s p 0 = S754_finite s m e.
Proof.
  unfold bounded, canonical_mantissa, fexp, emin. intros Hb Hp Hrep.
  apply andb_true_iff in Hb as [Hc He].
  apply Z.eqb_eq in Hc. apply Z.leb_le in He.
  pose proof (digits2_pos_bounds m) as [Hmlo Hmhi].
  unfold prec64, emax64 in Hc, He.
  destruct e as [|k|k].
  - change (Z.max 0 0) with 0 in Hrep. change (Z.max (- 0) 0) with 0 in Hrep.
    rewrite Z.pow_0_r, !Z.mul_1_r in Hrep. injection Hrep as ->.
    rewrite binary_round_small by (unfold prec64; lia).
    unfold aligned, shl_align, prec64.
    replace (Z.pos (digits2_pos p) - 53 - 0) with 0 by lia. reflexivity.
  - replace (Z.max (Z.pos k) 0) with (Z.pos k) in Hrep by lia.
    replace (Z.max (- Z.pos k) 0) with 0 in Hrep by lia.
    rewrite Z.pow_0_r, Z.mul_1_r in Hrep.
    assert (Hd : Z.pos (digits2_pos m) = 53) by lia.
    rewrite Hd in Hmlo. change (2 ^ (53 - 1)) with 4503599627370496 in Hmlo.
    change (2 ^ 53) with 9007199254740992 in Hp.
    assert (Hk : Z.pos k = 1).
    { destruct (Z.eq_dec (Z.pos k) 1) as [|Hne]; [done|].
      assert (2 ^ 2 <= 2 ^ Z.pos k) by (apply Z.pow_le_mono_r; lia).
      change (2 ^ 2) with 4 in *. nia. }
    rewrite Hk in *. change (2 ^ 1) with 2 in Hrep.
    assert (m = 4503599627370496%positive) by lia.
    assert (p = 9007199254740992%positive) by lia.
    subst m p. assert (k = 1%positive) by lia. subst k.
    apply binary_round_two53.
  - replace (Z.max (Z.neg k) 0) with 0 in Hrep by lia.
    replace (Z.max (- Z.neg k) 0) with (Z.pos k) in Hrep by lia.
    rewrite Z.pow_0_r, Z.mul_1_r, <- pos_iter_xO_Z in Hrep.
    injection Hrep as ->. rewrite digits2_pos_iter_xO in Hc.
    assert (Hd : Z.pos (digits2_pos p) - 53 = Z.neg k) by lia.
    rewrite binary_round_small by (unfold prec64; lia).
    unfold aligned, shl_align, prec64.
    replace (Z.pos (digits2_pos p) - 53 - 0) with (Z.neg k) by lia.
    simpl. rewrite Hd. reflexivity.
Qed.

Lemma SFeqb_sym x y : SFeqb x y = SFeqb y x.
Proof.
  destruct x as [[]|[]| |[] m e], y as [[]|[]| |[] m' e']; try reflexivity;
    apply eq_iff_eq_true; rewrite !SFeqb_finite; intuition congruence.
Qed.

Lemma SFeqb_represents x y n : SFeqb x y = true -> represents x n -> represents y n.
Proof.
  destruct x as [[]|[]| |[] m e], y as [[]|[]| |[] m' e']; simpl; try tauto;
    try discriminate;
    intros H; apply SFeqb_finite in H as (_ & -> & ->); tauto.
Qed.

(** An integer of magnitude at most [2^53] and a binary64 number match
    exactly when the number's value is that integer. *)
Lemma SFeqb_float64_of_int n f :
  Z.abs n <= 2 ^ 53 ->
  valid_binary prec64 emax64 f = true ->
  SFeqb (float64_of_int n) f = true <-> represents f n.
Proof.
  intros Hn Hvalid. split.
  - intros Heq. eapply SFeqb_represents; [exact Heq|].
    by apply represents_float64_of_int.
  - destruct f as [s| | |s m e]; simpl; try tauto.
    + intros ->. reflexivity.
    + intros Hrep.
      assert (Hn0 : n = cond_Zopp s (Z.pos (Z.to_pos (Z.abs n))) /\
                    Z.pos m * 2 ^ Z.max e 0
                    = Z.pos (Z.to_pos (Z.abs n)) * 2 ^ Z.max (- e) 0).
      { assert (0 < 2 ^ Z.max e 0) by (apply Z.pow_pos_nonneg; lia).
        assert (0 < 2 ^ Z.max (- e) 0) by (apply Z.pow_pos_nonneg; lia).
        destruct s; simpl in Hrep |- *; destruct n as [|q|q]; simpl; nia. }
      destruct Hn0 as [Hsign Hmag]. rewrite Hsign at 1.
      rewrite float64_of_int_sign.
      erewrite canonical_unique; [| exact Hvalid | | exact Hmag].
      * apply SFeqb_finite. tauto.
      * destruct n; simpl in *; lia.
Qed.

End Float64.

(** * Facts about the string functions *)

Module GoStringsFacts.
Import GoStrings.

Lemma app_cons c (a b : string) : String c a ++ b = String c (a ++ b).
Proof. reflexivity. Qed.

Lemma app_nil_l (a : string) : "" ++ a = a.
Proof. reflexivity. Qed.

Lemma app_assoc (a b c : string) : (a ++ b) ++ c = a ++ b ++ c.
Proof. induction a as [|x a IH]; [done | by rewrite !app_cons, IH]. Qed.

Lemma app_nil_r (a : string) : a ++ "" = a.
Proof. induction a as [|x a IH]; [done | by rewrite app_cons, IH]. Qed.

Lemma length_app (a b : string) :
  String.length (a ++ b) = (String.length a + String.length b)%nat.
Proof. induction a as [|x a IH]; [done | by rewrite app_cons; simpl; rewrite IH]. Qed.

(** ** Slices *)

Lemma sliceFrom_app a b k :
  sliceFrom (String.length a + k) (a ++ b) = sliceFrom k b.
Proof. induction a as [|x a IH]; [done | rewrite app_cons; exact IH]. Qed.

Lemma sliceTo_app a b k :
  sliceTo (String.length a + k) (a ++ b) = a ++ sliceTo k b.
Proof.
  induction a as [|x a IH]; [done|].
  rewrite !app_cons. simpl. by rewrite IH.
Qed.

Lemma sliceFrom_length a b : sliceFrom (String.length a) (a ++ b) = b.
Proof. by rewrite <- (Nat.add_0_r (String.length a)), sliceFrom_app. Qed.

Lemma sliceTo_length a b : sliceTo (String.length a) (a ++ b) = a.
Proof.
  rewrite <- (Nat.add_0_r (String.length a)), sliceTo_app. simpl.
  destruct b; apply app_nil_r.
Qed.

(** ** Prefixes and suffixes *)

Lemma HasPrefix_cons c s c' p :
  HasPrefix (String c s) (String c' p) = true <-> c = c' /\ HasPrefix s p = true.
Proof.
  unfold HasPrefix. simpl. destruct (ascii_dec c' c) as [->|Hne].
  - tauto.
  - split; [discriminate | intros [-> _]; congruence].
Qed.

Lemma HasPrefix_app s p : HasPrefix (p ++ s) p = true.
Proof.
  induction p as [|c p IH]; [by destruct s|].
  apply HasPrefix_cons. auto.
Qed.

Lemma HasPrefix_spec s p :
  HasPrefix s p = true <-> exists rest, s = p ++ rest.
Proof.
  split.
  - revert s. induction p as [|c p IH]; intros s Hp; [by exists s|].
    destruct s as [|c' s]; [discriminate|].
    apply HasPrefix_cons in Hp as [-> Hp].
    destruct (IH s Hp) as [rest ->]. by exists rest.
  - intros [rest ->]. apply HasPrefix_app.
Qed.

(** Whether [p] is a prefix is decided by the first [length p] characters. *)
Lemma HasPrefix_app_l x b b' p :
  (String.length p <= String.length x)%nat ->
  HasPrefix (x ++ b) p = HasPrefix (x ++ b') p.
Proof.
  revert x. induction p as [|c p IH]; intros x Hlen.
  - by destruct (x ++ b), (x ++ b').
  - destruct x as [|c' x]; simpl in Hlen; [lia|].
    unfold HasPrefix in *. simpl. destruct (ascii_dec c c'); [|done].
    apply IH. lia.
Qed.

Lemma HasSuffix_spec s suffix :
  HasSuffix s suffix = true <-> exists front, s = front ++ suffix.
Proof.
  induction s as [|c s IH]; cbn [HasSuffix].
  - destruct (String.eqb_spec "" suffix) as [<-|Hne].
    + split; [by exists "" | done].
    + split; [discriminate|]. intros [front Heq].
      destruct front; rewrite ?app_nil_l, ?app_cons in Heq;
        [congruence | discriminate].
  - destruct (String.eqb_spec (String c s) suffix) as [<-|Hne].
    + split; [by exists "" | done].
    + rewrite IH. split.
      * intros [front ->]. by exists (String c front).
      * intros [front Heq].
        destruct front as [|c' front]; rewrite ?app_nil_l, ?app_cons in Heq.
        -- congruence.
        -- injection Heq as -> ->. by exists front.
Qed.

(** ** Occurrences of a character *)

Lemma lacks_app c a b : lacks c (a ++ b) <-> lacks c a /\ lacks c b.
Proof.
  induction a as [|x a IH]; rewrite ?app_nil_l, ?app_cons; simpl;
    [tauto | rewrite IH; tauto].
Qed.

Lemma HasPrefix_char_ne c c' s rest :
  c' <> c -> HasPrefix (String c' s) (String c rest) = false.
Proof.
  intros Hne. unfold HasPrefix. simpl.
  destruct (ascii_dec c c'); [congruence | done].
Qed.

Lemma HasPrefix_char_eq c s : HasPrefix (String c s) (String c "") = true.
Proof. apply HasPrefix_cons. split; [done|]. by destruct s. Qed.

Lemma lacks_no_prefix c s rest : lacks c s -> HasPrefix s (String c rest) = false.
Proof.
  destruct s as [|c' s]; [done|]. intros [Hne _]. by apply HasPrefix_char_ne.
Qed.

Lemma indexNat_lacks c s rest : lacks c s -> indexNat s (String c rest) = None.
Proof.
  induction s as [|c' s IH]; [done|]. intros Hl.
  cbn [indexNat]. rewrite (lacks_no_prefix _ _ _ Hl).
  destruct Hl as [_ Hl]. by rewrite (IH Hl).
Qed.

Lemma lastIndexNat_lacks c s rest : lacks c s -> lastIndexNat s (String c rest) = None.
Proof.
  induction s as [|c' s IH]; [done|]. intros Hl.
  cbn [lastIndexNat]. rewrite (lacks_no_prefix _ _ _ Hl).
  destruct Hl as [_ Hl]. by rewrite (IH Hl).
Qed.

(** The first occurrence of a one-character string. *)
Lemma indexNat_char c a b :
  lacks c a -> indexNat (a ++ String c b) (String c "") = Some (String.length a).
Proof.
  induction a as [|c' a IH]; intros Hl.
  - rewrite app_nil_l. cbn [indexNat]. by rewrite HasPrefix_char_eq.
  - rewrite app_cons. cbn [indexNat]. destruct Hl as [Hne Hl].
    by rewrite (HasPrefix_char_ne _ _ _ _ Hne), (IH Hl).
Qed.

(** The last occurrence of a one-character string. *)
Lemma lastIndexNat_char c a b :
  lacks c b -> lastIndexNat (a ++ String c b) (String c "") = Some (String.length a).
Proof.
  intros Hl. induction a as [|c' a IH].
  - rewrite app_nil_l. cbn [lastIndexNat].
    by rewrite (lastIndexNat_lacks _ _ _ Hl), HasPrefix_char_eq.
  - rewrite app_cons. cbn [lastIndexNat]. by rewrite IH.
Qed.

(** Every string either lacks [c] or splits at its last [c]. *)
Lemma split_last c s :
  lacks c s \/ exists a b, s = a ++ String c b /\ lacks c b.
Proof.
  induction s as [|c' s [Hl|(a & b & -> & Hl)]].
  - by left.
  - destruct (ascii_dec c' c) as [->|Hne].
    + right. by exists "", s.
    + left. by split.
  - right. by exists (String c' a), b.
Qed.

Lemma not_lacks_app c a b : ~ lacks c (a ++ String c b).
Proof. rewrite lacks_app. simpl. tauto. Qed.

(** ** The first occurrence of a substring *)

Lemma indexNat_here sub post : indexNat (sub ++ post) sub = Some O.
Proof.
  destruct (sub ++ post) eqn:Heq; cbn [indexNat]; by rewrite <- Heq, HasPrefix_app.
Qed.

Lemma indexNat_first sub s pre post :
  firstSplit sub s pre post -> indexNat s sub = Some (String.length pre).
Proof.
  intros [-> Hmin]. induction pre as [|c pre IH].
  - rewrite app_nil_l. apply indexNat_here.
  - rewrite app_cons in *. cbn [indexNat].
    destruct (HasPrefix (String c (pre ++ sub ++ post)) sub) eqn:Hp.
    + apply HasPrefix_spec in Hp as [rest Hrest].
      specialize (Hmin "" rest Hrest). simpl in Hmin. lia.
    + rewrite IH; [done|]. intros pre' post' Heq.
      specialize (Hmin (String c pre') post'). rewrite app_cons, Heq in Hmin.
      specialize (Hmin eq_refl). simpl in Hmin. lia.
Qed.

(** The position of the first occurrence does not depend on what follows
    it. *)
Lemma indexNat_app_irrelevant sub pre post post' :
  indexNat (pre ++ sub ++ post) sub = Some (String.length pre) ->
  indexNat (pre ++ sub ++ post') sub = Some (String.length pre).
Proof.
  induction pre as [|c pre IH].
  - intros _. rewrite app_nil_l. apply indexNat_here.
  - rewrite !app_cons. cbn [indexNat String.length].
    assert (Hp : HasPrefix (String c (pre ++ sub ++ post)) sub
                 = HasPrefix (String c (pre ++ sub ++ post')) sub).
    { rewrite <- !app_assoc, <- !app_cons. apply HasPrefix_app_l.
      rewrite app_cons. simpl. rewrite length_app. lia. }
    rewrite Hp.
    destruct (HasPrefix (String c (pre ++ sub ++ post')) sub); [done|].
    destruct (indexNat (pre ++ sub ++ post) sub) as [n|] eqn:Hn; [|done].
    simpl. intros [= ->]. by rewrite IH.
Qed.

End GoStringsFacts.

(** * Properties of the value-matching rule *)

Module MatcherValues.
Import GoStrings GoValue Types Matcher Float64.

(** ** [matchEntries] and [matchArguments] *)

Lemma matchEntries_true entries actual :
  matchEntries entries actual = Ret true <-> Forall (satisfied actual) entries.
Proof.
  induction entries as [|[key expectedValue] rest IH]; simpl.
  - split; [constructor | reflexivity].
  - rewrite Forall_cons, <- IH. unfold satisfied; simpl.
    destruct (actual !! key) as [actualValue|] eqn:Hkey.
    + destruct (valuesMatch expectedValue actualValue) as [[|]|r] eqn:Hv.
      * split; [intros H; split; [eauto | exact H] | tauto].
      * split; [discriminate |].
        intros [(v & Hv' & Hm) _]. congruence.
      * split; [discriminate |].
        intros [(v & Hv' & Hm) _]. congruence.
    + split; [discriminate |].
      intros [(v & Hv' & _) _]. discriminate.
Qed.

Lemma matchEntries_agree entries actual actual' :
  Forall (fun entry : string * Value => actual' !! entry.1 = actual !! entry.1) entries ->
  matchEntries entries actual' = matchEntries entries actual.
Proof.
  induction 1 as [|[key expectedValue] rest Hkey _ IH]; simpl in *; [reflexivity|].
  rewrite Hkey. destruct (actual !! key); [|reflexivity].
  destruct (valuesMatch _ _) as [[|]|]; auto.
Qed.

Section Order.

Variable rangeOrder : gmap string Value -> list (string * Value).
Hypothesis rangeOrder_perm : forall m, rangeOrder m ≡ₚ map_to_list m.

Lemma rangeOrder_elem (m : gmap string Value) key value :
  (key, value) ∈ rangeOrder m <-> m !! key = Some value.
Proof. rewrite rangeOrder_perm. apply elem_of_map_to_list. Qed.

Lemma matchArguments_true expected actual :
  matchArguments rangeOrder expected actual = Ret true <->
  forall key expectedValue,
    expected !! key = Some expectedValue ->
    exists actualValue,
      actual !! key = Some actualValue
      /\ valuesMatch expectedValue actualValue = Ret true.
Proof.
  unfold matchArguments.
  destruct (size expected =? 0)%nat eqn:Hsize.
  - apply Nat.eqb_eq, map_size_empty_iff in Hsize. subst expected.
    split; [|reflexivity]. intros _ key v Hk. by rewrite lookup_empty in Hk.
  - rewrite matchEntries_true, Forall_forall. split.
    + intros H key v Hk. apply (H (key, v)). by apply rangeOrder_elem.
    + intros H [key v] Hin. apply rangeOrder_elem in Hin. by apply H.
Qed.

(** C2. A fixture whose expected-argument set is empty matches any call;
    otherwise [matchArguments] answers [true] exactly when every expected
    key is present in the call's arguments with a value that the
    value-matching rule accepts; and arguments under keys the fixture does
    not constrain never change the outcome. This holds for every order in
    which the [range] loop may visit the expected entries. *)
Theorem matchArguments_subset_match expected actual :
  (expected = ∅ -> matchArguments rangeOrder expected actual = Ret true)
  /\ (matchArguments rangeOrder expected actual = Ret true <->
      forall key expectedValue,
        expected !! key = Some expectedValue ->
        exists actualValue,
          actual !! key = Some actualValue
          /\ valuesMatch expectedValue actualValue = Ret true)
  /\ (forall actual',
        (forall key, is_Some (expected !! key) -> actual' !! key = actual !! key) ->
        matchArguments rangeOrder expected actual'
        = matchArguments rangeOrder expected actual).
Proof.
  split; [|split].
  - intros ->. reflexivity.
  - apply matchArguments_true.
  - intros actual' Hagree. unfold matchArguments.
    destruct (size expected =? 0)%nat; [reflexivity|].
    apply matchEntries_agree, Forall_forall.
    intros [key v] Hin. apply rangeOrder_elem in Hin.
    apply Hagree. by exists v.
Qed.

End Order.

(** With the entries visited in the order of [map_to_list]: a fixture that
    constrains ["a"] to [1] matches a call with [a = 1.0] and an extra key. *)
Lemma matchArguments_subset_match_witness :
  matchArguments map_to_list {[ "a" := VInt KInt 1 ]}
    {[ "a" := VFloat64 (float64_of_int 1); "b" := VNil ]} = Ret true.
Proof.
  apply (matchArguments_subset_match map_to_list (fun m => reflexivity _)).
  intros key expectedValue Hkey.
  apply lookup_singleton_Some in Hkey as [<- <-].
  exists (VFloat64 (float64_of_int 1)). split; reflexivity.
Defined.

(** ** The fallback comparison *)

(** Outside the pairs of two mappings and of two sequences, [valuesMatch]
    returns a boolean. *)
Lemma valuesMatch_returns expected actual :
  (typeOf expected = typeOf actual -> comparable (typeOf expected) = true) ->
  exists b, valuesMatch expected actual = Ret b.
Proof.
  intros Hcmp.
  destruct expected, actual; simpl in *; eauto;
    specialize (Hcmp eq_refl); discriminate.
Qed.

(** Two values of one type that is not comparable make [valuesMatch] panic
    in the final [expected == actual]. *)
Lemma valuesMatch_uncomparable expected actual :
  typeOf expected = typeOf actual ->
  comparable (typeOf expected) = false ->
  valuesMatch expected actual = Panic (UncomparableType (typeOf expected)).
Proof.
  destruct expected, actual; simpl; try discriminate; reflexivity.
Qed.

(** C4 (the code faults). Both values are nested mappings, or both nested
    sequences, as the YAML decoder produces them for a fixture and the JSON
    decoder for a call: neither is numeric, a string or a boolean, so the
    comparison reaches [expected == actual], which panics instead of
    returning a boolean. *)
Theorem valuesMatch_nested_panics :
  valuesMatch (VMap {[ "a" := VInt KInt 1 ]}) (VMap {[ "a" := VFloat64 (float64_of_int 1) ]})
    = Panic (UncomparableType TMap)
  /\ valuesMatch (VSlice [VString "x"]) (VSlice [VString "x"])
    = Panic (UncomparableType TSlice)
  /\ (forall m m', valuesMatch (VMap m) (VMap m') = Panic (UncomparableType TMap))
  /\ (forall l l', valuesMatch (VSlice l) (VSlice l') = Panic (UncomparableType TSlice)).
Proof. repeat split. Qed.

(** ** Numeric values *)

Lemma valuesMatch_numeric expected actual :
  isNumeric expected = true -> isNumeric actual = true ->
  valuesMatch expected actual
  = Ret (SFeqb (toFloat64 expected).1 (toFloat64 actual).1).
Proof.
  unfold isNumeric, valuesMatch.
  destruct (toFloat64 expected) as [ef [|]], (toFloat64 actual) as [af [|]];
    simpl; intros; congruence.
Qed.

Lemma valuesMatch_ints k k' n n' :
  Z.abs n <= 2 ^ 53 -> Z.abs n' <= 2 ^ 53 ->
  valuesMatch (VInt k n) (VInt k' n') = Ret true <-> n = n'.
Proof.
  intros Hn Hn'. rewrite valuesMatch_numeric by reflexivity. simpl. split.
  - intros [= Heq]. apply (represents_functional (float64_of_int n')).
    + eapply SFeqb_represents; [exact Heq|]. by apply represents_float64_of_int.
    + by apply represents_float64_of_int.
  - intros <-. f_equal.
    pose proof (represents_float64_of_int n Hn) as Hrep.
    destruct (float64_of_int n) as [?|?| |s m e]; simpl in Hrep;
      [reflexivity | tauto | tauto |].
    apply SFeqb_finite. tauto.
Qed.

Lemma valuesMatch_int_float64 k n f :
  Z.abs n <= 2 ^ 53 -> valid_binary prec64 emax64 f = true ->
  (valuesMatch (VInt k n) (VFloat64 f) = Ret true <-> represents f n)
  /\ (valuesMatch (VFloat64 f) (VInt k n) = Ret true <-> represents f n).
Proof.
  intros Hn Hvalid. rewrite !valuesMatch_numeric by reflexivity. simpl.
  rewrite (SFeqb_sym f). rewrite <- (SFeqb_float64_of_int n f Hn Hvalid).
  split; (split; [intros [= ->]; reflexivity | intros ->; reflexivity]).
Qed.

(** C3 (as the code has it). Two numeric values match exactly when their
    conversions to [float64] (rounding to nearest, ties to even) are equal
    as binary64 numbers. For integers of magnitude at most [2^53], of any
    bit width and signedness, that is equality of the integers, and such an
    integer matches a binary64 number exactly when the number's value is
    that integer; in particular the integer [5] and the floating [5.0]
    match. *)
Theorem numeric_values_match :
  (forall expected actual,
     isNumeric expected = true -> isNumeric actual = true ->
     valuesMatch expected actual
     = Ret (SFeqb (toFloat64 expected).1 (toFloat64 actual).1))
  /\ (forall k k' n n',
        Z.abs n <= 2 ^ 53 -> Z.abs n' <= 2 ^ 53 ->
        valuesMatch (VInt k n) (VInt k' n') = Ret true <-> n = n')
  /\ (forall k n f,
        Z.abs n <= 2 ^ 53 -> valid_binary prec64 emax64 f = true ->
        (valuesMatch (VInt k n) (VFloat64 f) = Ret true <-> represents f n)
        /\ (valuesMatch (VFloat64 f) (VInt k n) = Ret true <-> represents f n))
  /\ represents float64_5 5
  /\ valuesMatch (VInt KInt 5) (VFloat64 float64_5) = Ret true
  /\ valuesMatch (VFloat64 float64_5) (VInt KInt 5) = Ret true.
Proof.
  split; [exact valuesMatch_numeric|].
  split; [exact valuesMatch_ints|].
  split; [exact valuesMatch_int_float64|].
  repeat split; vm_compute; reflexivity.
Qed.

(** The integers [300] (an [int16]) and [300] (a [uint64]) match, and [300]
    does not match [301]. *)
Lemma numeric_values_match_witness :
  valuesMatch (VInt KInt16 300) (VInt KUint64 300) = Ret true
  /\ valuesMatch (VInt KInt16 300) (VInt KUint64 301) <> Ret true.
Proof.
  split.
  - apply (proj1 (proj2 numeric_values_match) KInt16 KUint64 300 300);
      [vm_compute; discriminate | vm_compute; discriminate | reflexivity].
  - intros H.
    apply (proj1 (proj2 numeric_values_match) KInt16 KUint64 300 301) in H;
      [discriminate | vm_compute; discriminate | vm_compute; discriminate].
Defined.

(** C3 (as stated) fails: [2^53 + 1] and [2^53] are different 64-bit
    integers, both convert to the binary64 number [2^53], and so they
    match; likewise the integer [2^53 + 1] of a fixture matches the floating
    [2^53] of a call, whose value is another integer. *)
Lemma large_integers_conflated :
  inRange KInt64 9007199254740993
  /\ inRange KInt64 9007199254740992
  /\ 9007199254740993 <> 9007199254740992
  /\ valuesMatch (VInt KInt64 9007199254740993) (VInt KInt64 9007199254740992)
     = Ret true
  /\ valuesMatch (VInt KInt 9007199254740993)
       (VFloat64 (S754_finite false 4503599627370496 1)) = Ret true
  /\ represents (S754_finite false 4503599627370496 1) 9007199254740992
  /\ ~ represents (S754_finite false 4503599627370496 1) 9007199254740993.
Proof.
  split; [|split; [|split; [|split; [|split; [|split]]]]].
  - vm_compute. split; discriminate.
  - vm_compute. split; discriminate.
  - discriminate.
  - vm_compute. reflexivity.
  - vm_compute. reflexivity.
  - vm_compute. reflexivity.
  - vm_compute. discriminate.
Qed.

End MatcherValues.

(** * Properties of the fixture search *)

Module MatcherSearch.
Import GoStrings GoValue Types Matcher.

Section Search.

Variable os_Stat : string -> StatResult.
Variable os_ReadFile : string -> option string.
Variable yaml_Unmarshal : string -> option TestCaseConfig.
Variable filepath_Join : string -> string -> string.
Variable rangeOrder : gmap string Value -> list (string * Value).
Variable testCasesDir : string.

Abbreviation fileOf := (testCaseFile filepath_Join testCasesDir).
Abbreviation load := (loadTestCase os_ReadFile yaml_Unmarshal).
Abbreviation search :=
  (searchLoop os_Stat os_ReadFile yaml_Unmarshal filepath_Join rangeOrder
     testCasesDir).
Abbreviation fallback :=
  (useDefault os_Stat os_ReadFile yaml_Unmarshal filepath_Join testCasesDir).
Abbreviation find :=
  (FindMatchingTestCase os_Stat os_ReadFile yaml_Unmarshal filepath_Join
     rangeOrder testCasesDir).
Abbreviation skips :=
  (passedOver os_Stat os_ReadFile yaml_Unmarshal filepath_Join rangeOrder
     testCasesDir).
Abbreviation hits :=
  (matchesAt os_Stat os_ReadFile yaml_Unmarshal filepath_Join rangeOrder
     testCasesDir).

Variable toolName : string.
Variable args : gmap string Value.

Lemma search_skip i rest :
  skips toolName args i -> (search toolName args (i :: rest)).2 = (search toolName args rest).2.
Proof.
  intros Hskip. simpl.
  destruct (os_Stat (fileOf toolName i)) eqn:Hstat; simpl; try reflexivity;
    (destruct Hskip as [Hs|[Hl|(tc & Hl & Hm)]]; [congruence | |]);
    rewrite Hl; simpl; try rewrite Hm; simpl;
    by destruct (search toolName args rest).
Qed.

Lemma search_hit i rest testCase :
  hits toolName args i testCase ->
  (search toolName args (i :: rest)).2 = Ret (Some testCase).
Proof.
  intros (Hstat & Hload & Hmatch). simpl.
  destruct (os_Stat (fileOf toolName i)); simpl; try congruence;
    rewrite Hload, Hmatch; reflexivity.
Qed.

(** A fixture whose comparison panics ends the search with that panic. *)
Lemma search_panic i rest testCase r :
  os_Stat (fileOf toolName i) <> StatNotExist ->
  load (fileOf toolName i) = Some testCase ->
  matchArguments rangeOrder (Input testCase) args = Panic r ->
  (search toolName args (i :: rest)).2 = Panic r.
Proof.
  intros Hstat Hload Hmatch. simpl.
  destruct (os_Stat (fileOf toolName i)); simpl; try congruence;
    rewrite Hload, Hmatch; reflexivity.
Qed.

Lemma search_first before i rest testCase :
  Forall (skips toolName args) before ->
  hits toolName args i testCase ->
  (search toolName args (before ++ i :: rest)).2 = Ret (Some testCase).
Proof.
  induction 1 as [|j before Hj _ IH]; intros Hhit; simpl app.
  - by apply search_hit.
  - rewrite search_skip by exact Hj. by apply IH.
Qed.

Lemma search_none indices :
  Forall (skips toolName args) indices ->
  (search toolName args indices).2 = Ret None.
Proof.
  induction 1 as [|j rest Hj _ IH]; [reflexivity|].
  by rewrite search_skip.
Qed.

(** A fixture that exists but cannot be loaded is logged and the search goes
    on with the next number. *)
Lemma search_logs_unloadable i rest :
  os_Stat (fileOf toolName i) <> StatNotExist ->
  load (fileOf toolName i) = None ->
  search toolName args (i :: rest)
  = (LogErrorLoading (fileOf toolName i) :: (search toolName args rest).1,
     (search toolName args rest).2).
Proof.
  intros Hstat Hload. simpl.
  destruct (os_Stat (fileOf toolName i)); simpl; try congruence;
    rewrite Hload; simpl; by destruct (search toolName args rest).
Qed.

Lemma find_snd defaultTestCase :
  (find toolName args defaultTestCase).2
  = match (search toolName args (seqZ 1 100)).2 with
    | Ret (Some testCase) => Ret (Found testCase)
    | Ret None => (fallback toolName defaultTestCase).2
    | Panic r => Panic r
    end.
Proof.
  unfold FindMatchingTestCase.
  generalize (seqZ 1 100). intros indices.
  unfold mbind at 1. unfold logPrintf.
  destruct (search toolName args indices) as [l [[tc|]|r]];
    unfold mbind, mret; try reflexivity.
  by destruct (fallback toolName defaultTestCase).
Qed.

(** The search in ascending order: when fixture [i] matches and every
    fixture before it is passed over (absent, not loadable, or compared and
    found different), [FindMatchingTestCase] returns fixture [i]. *)
Lemma find_first_match i testCase defaultTestCase :
  1 <= i <= 100 ->
  (forall j, 1 <= j < i -> skips toolName args j) ->
  hits toolName args i testCase ->
  (find toolName args defaultTestCase).2 = Ret (Found testCase).
Proof.
  intros Hi Hbefore Hhit. rewrite find_snd.
  replace (seqZ 1 100) with (seqZ 1 (i - 1) ++ i :: seqZ (i + 1) (100 - i))%list.
  - rewrite (search_first _ _ _ testCase); [reflexivity | | exact Hhit].
    apply Forall_forall. intros j Hj. apply elem_of_seqZ in Hj.
    apply Hbefore. lia.
  - symmetry. transitivity (seqZ 1 ((i - 1) + (100 - i + 1))); [f_equal; lia|].
    rewrite seqZ_app by lia. f_equal.
    replace (1 + (i - 1)) with i by lia.
    rewrite seqZ_cons by lia. f_equal. f_equal; lia.
Qed.

(** The fallback: when every fixture from 1 to 100 is passed over, the
    result is that of the default policy. *)
Lemma find_no_match defaultTestCase :
  (forall j, 1 <= j <= 100 -> skips toolName args j) ->
  (find toolName args defaultTestCase).2
  = if 0 <? defaultTestCase then
      match os_Stat (fileOf toolName defaultTestCase),
            load (fileOf toolName defaultTestCase) with
      | StatOk, Some testCase => Ret (Found testCase)
      | _, _ => Ret NotFound
      end
    else Ret NotFound.
Proof.
  intros Hall. rewrite find_snd, search_none.
  - unfold useDefault. destruct (0 <? defaultTestCase); [|reflexivity].
    destruct (os_Stat _); try reflexivity.
    destruct (load _); reflexivity.
  - apply Forall_forall. intros j Hj. apply elem_of_seqZ in Hj.
    apply Hall. lia.
Qed.

End Search.

(** C1 (the code faults). Fixture 1 of [mock_search] expects
    [{tags: [x]}], fixture 2 expects nothing and therefore matches every
    call. For the call [{tags: [y]}] the first fixture that matches is
    fixture 2, but the search does not return it: comparing the two
    sequences under [tags] panics while fixture 1 is examined. *)
Theorem find_faults_before_match :
  matchArguments map_to_list (Input Scenario.wildcardFixture)
    {[ "tags" := VSlice [VString "y"] ]} = Ret true
  /\ (Scenario.find "mock_search" {[ "tags" := VSlice [VString "y"] ]} 0).2
     = Panic (UncomparableType TSlice).
Proof. split; vm_compute; reflexivity. Qed.

(** C5 (the code faults). The only fixture of [mock_find] expects
    [{tags: [x]}]; the call [{tags: [y]}] matches no fixture and no default
    is configured, yet the result is not NotFound but a panic. *)
Theorem find_faults_instead_of_not_found :
  (Scenario.find "mock_find" {[ "tags" := VSlice [VString "y"] ]} 0).2
  = Panic (UncomparableType TSlice).
Proof. vm_compute. reflexivity. Qed.

(** On the same directory: fixture 1 of [mock_echo] matches its own input;
    fixture 2 cannot be parsed, is logged and skipped, and the wildcard
    fixture 3 answers another message. *)
Example find_echo :
  (Scenario.find "mock_echo" {[ "message" := VString "Hello, World!" ]} 0).2
  = Ret (Found Scenario.helloFixture)
  /\ Scenario.find "mock_echo" {[ "message" := VString "Bye" ]} 0
     = ([ LogFinding "mock_echo" "testcases" 0;
          LogDidNotMatch "testcases/mock_echo-test-case-1.yaml";
          LogErrorLoading "testcases/mock_echo-test-case-2.yaml";
          LogMatched "testcases/mock_echo-test-case-3.yaml" ],
        Ret (Found Scenario.wildcardFixture)).
Proof. split; vm_compute; reflexivity. Qed.

End MatcherSearch.

(** * Properties of the tool registry *)

Module RegistrySpec.
Import GoValue Types Registry.

(** ** The stores of one load *)

Lemma lastEntry_None name entries :
  lastEntry name entries = None <->
  Forall (fun toolConfig => tcName toolConfig <> name) entries.
Proof.
  induction entries as [|first rest IH]; simpl.
  - split; [constructor | reflexivity].
  - rewrite Forall_cons, <- IH.
    destruct (lastEntry name rest); [split; [discriminate | intros [_ [=]]]|].
    destruct (String.eqb_spec (tcName first) name);
      split; try discriminate; tauto.
Qed.

Lemma lastEntry_hit name before toolConfig after :
  tcName toolConfig = name ->
  Forall (fun later => tcName later <> name) after ->
  lastEntry name (before ++ toolConfig :: after) = Some toolConfig.
Proof.
  intros Hname Hafter. induction before as [|first before IH]; simpl.
  - apply lastEntry_None in Hafter. rewrite Hafter.
    apply String.eqb_eq in Hname. by rewrite Hname.
  - by rewrite IH.
Qed.

(** [lastEntry] finds the entry of that name after which no entry has it. *)
Lemma lastEntry_spec name entries toolConfig :
  lastEntry name entries = Some toolConfig <->
  exists before after,
    entries = (before ++ toolConfig :: after)%list
    /\ tcName toolConfig = name
    /\ Forall (fun later => tcName later <> name) after.
Proof.
  split.
  - revert toolConfig. induction entries as [|first rest IH]; intros toolConfig;
      simpl; [discriminate|].
    destruct (lastEntry name rest) as [later|] eqn:Hlast.
    + intros [= <-]. destruct (IH later eq_refl) as (b & a & -> & Hn & Ha).
      exists (first :: b), a. auto.
    + destruct (String.eqb_spec (tcName first) name) as [Hname|Hname];
        [|discriminate].
      intros [= <-]. exists [], rest. split; [done|]. split; [done|].
      by apply lastEntry_None.
  - intros (before & after & -> & Hname & Hafter). by apply lastEntry_hit.
Qed.

Lemma run_cons tm i body : run tm (i :: body) = run (step tm i) body.
Proof. reflexivity. Qed.

Lemma run_stores_flags tm entries :
  toolsMutexHeld (run tm (IStore <$> entries)) = toolsMutexHeld tm
  /\ configPath (run tm (IStore <$> entries)) = configPath tm.
Proof.
  revert tm. induction entries as [|first rest IH]; intros tm; [done|].
  rewrite fmap_cons, run_cons.
  destruct (IH (step tm (IStore first))) as [-> ->]. done.
Qed.

Lemma run_stores_lookup tm entries name :
  tools (run tm (IStore <$> entries)) !! name
  = match lastEntry name entries with
    | Some toolConfig => Some (toolOf toolConfig)
    | None => tools tm !! name
    end.
Proof.
  revert tm. induction entries as [|first rest IH]; intros tm; [done|].
  rewrite fmap_cons, run_cons, IH. simpl.
  destruct (lastEntry name rest); [done|].
  destruct (String.eqb_spec (tcName first) name) as [<-|Hne].
  - by rewrite lookup_insert_eq.
  - by rewrite lookup_insert_ne.
Qed.

Lemma lastEntry_is_Some name entries :
  is_Some (lastEntry name entries) <-> name ∈ tcName <$> entries.
Proof.
  induction entries as [|first rest IH]; simpl.
  - split; [intros [? [=]] | intros H; inversion H].
  - rewrite elem_of_cons, <- IH.
    destruct (lastEntry name rest); [split; eauto|].
    destruct (String.eqb_spec (tcName first) name) as [<-|Hne].
    + split; eauto.
    + split; [intros [? [=]] | intros [?|[? [=]]]; congruence].
Qed.

Lemma run_loadBody tm config :
  run tm (loadBody config)
  = {| tools := tools (run {| tools := ∅; toolsMutexHeld := true;
                             configPath := configPath tm |}
                         (IStore <$> Tools config));
       toolsMutexHeld := false;
       configPath := configPath tm |}.
Proof.
  unfold loadBody. rewrite !run_cons. unfold run at 1. rewrite foldl_app.
  fold (run (step (step tm ILock) IClear) (IStore <$> Tools config)).
  simpl. f_equal.
  exact (proj2 (run_stores_flags
    {| tools := ∅; toolsMutexHeld := true; configPath := configPath tm |}
    (Tools config))).
Qed.

(** The registry after the load of a parsed document. *)
Lemma loaded_lookup tm config name :
  tools (run tm (loadBody config)) !! name
  = toolOf <$> lastEntry name (Tools config).
Proof.
  rewrite run_loadBody. simpl. rewrite run_stores_lookup. simpl.
  rewrite lookup_empty. by destruct (lastEntry name (Tools config)).
Qed.

Lemma loaded_dom tm config :
  dom (tools (run tm (loadBody config)))
  = list_to_set (tcName <$> Tools config).
Proof.
  apply set_eq. intros name.
  rewrite elem_of_dom, loaded_lookup, elem_of_list_to_set, <- lastEntry_is_Some.
  by rewrite fmap_is_Some.
Qed.

Lemma loaded_empty tm config :
  tools (run tm (loadBody config)) = ∅ <-> Tools config = [].
Proof.
  split.
  - intros Hempty. destruct (Tools config) as [|first rest] eqn:Htools; [done|].
    assert (Hin : tcName first ∈ tcName <$> Tools config)
      by (rewrite Htools; simpl; apply elem_of_cons; auto).
    apply lastEntry_is_Some in Hin as [toolConfig Hlast].
    pose proof (loaded_lookup tm config (tcName first)) as Hlook.
    rewrite Hempty, lookup_empty, Hlast in Hlook. discriminate.
  - intros Htools. apply map_eq. intros name.
    by rewrite loaded_lookup, Htools, lookup_empty.
Qed.

Lemma GetAllTools_nil tm : GetAllTools tm = [] <-> tools tm = ∅.
Proof.
  unfold GetAllTools. rewrite <- map_to_list_empty_iff.
  split; [apply fmap_nil_inv | by intros ->].
Qed.

(** ** The states of one load *)

Lemma states_held tm body :
  Forall keepsLock body -> toolsMutexHeld tm = true ->
  Forall (fun s => toolsMutexHeld s = true) (states tm body).
Proof.
  intros Hbody. revert tm.
  induction Hbody as [|i rest Hi _ IH]; intros tm Hheld; simpl.
  - by constructor.
  - constructor; [done|]. apply IH. by destruct i.
Qed.

Lemma states_snoc tm body i :
  states tm (body ++ [i]) = (states tm body ++ [run tm (body ++ [i])])%list.
Proof.
  revert tm. induction body as [|j rest IH]; intros tm; simpl; [done|].
  by rewrite IH.
Qed.

(** The states of a load that a reader can see are the one before it and the
    one it ends in. *)
Lemma states_loadBody_observable tm config s :
  s ∈ states tm (loadBody config) -> observable s = true ->
  s = tm \/ s = run tm (loadBody config).
Proof.
  intros Hin Hobs. unfold loadBody in Hin.
  change (ILock :: IClear :: (IStore <$> Tools config) ++ [IUnlock])%list
    with ((ILock :: IClear :: (IStore <$> Tools config)) ++ [IUnlock])%list in Hin.
  rewrite states_snoc in Hin. apply elem_of_app in Hin as [Hin|Hin].
  - change (states tm (ILock :: IClear :: (IStore <$> Tools config)))
      with (tm :: states (step tm ILock) (IClear :: (IStore <$> Tools config)))
      in Hin.
    apply elem_of_cons in Hin as [->|Hin]; [by left|]. exfalso.
    assert (Hheld : Forall (fun s => toolsMutexHeld s = true)
              (states (step tm ILock) (IClear :: (IStore <$> Tools config)))).
    { apply states_held; [|done]. constructor; [done|].
      apply Forall_fmap, Forall_true. done. }
    rewrite Forall_forall in Hheld. apply Hheld in Hin.
    unfold observable in Hobs. rewrite Hin in Hobs. discriminate.
  - apply list_elem_of_singleton in Hin. right. exact Hin.
Qed.

Lemma loaded_count tm config :
  length (GetAllTools (run tm (loadBody config)))
  = length (remove_dups (tcName <$> Tools config)).
Proof.
  unfold GetAllTools. rewrite length_fmap, length_map_to_list.
  rewrite <- (size_dom (D := gset string)), loaded_dom.
  rewrite <- (size_list_to_set (C := gset string) (remove_dups _))
    by apply NoDup_remove_dups.
  f_equal. apply set_eq. intros name.
  by rewrite !elem_of_list_to_set, elem_of_remove_dups.
Qed.

Section Load.

Variable os_ReadFile : string -> option string.
Variable yaml_Unmarshal : string -> option ToolsConfig.

Abbreviation load := (loadToolsFromYAML os_ReadFile yaml_Unmarshal).

Lemma load_success tm tm' :
  load tm = (tm', None) ->
  exists data config,
    os_ReadFile (configPath tm) = Some data
    /\ yaml_Unmarshal data = Some config
    /\ tm' = run tm (loadBody config).
Proof.
  unfold loadToolsFromYAML.
  destruct (os_ReadFile (configPath tm)) as [data|]; [|discriminate].
  destruct (yaml_Unmarshal data) as [config|] eqn:Hparse; [|discriminate].
  intros [= <-]. exists data, config. auto.
Qed.

Lemma load_failure tm err :
  (load tm).2 = Some err ->
  (os_ReadFile (configPath tm) = None
   \/ exists data, os_ReadFile (configPath tm) = Some data
                   /\ yaml_Unmarshal data = None)
  /\ (load tm).1 = tm
  /\ loadStates os_ReadFile yaml_Unmarshal tm = [tm].
Proof.
  unfold loadToolsFromYAML, loadStates.
  destruct (os_ReadFile (configPath tm)) as [data|]; [|auto].
  destruct (yaml_Unmarshal data) as [config|] eqn:Hparse; [discriminate|].
  intros _. split; [|done]. right. exists data. auto.
Qed.

(** C7 (as the code has it). After a successful load the registry holds
    exactly the identifiers that occur in the document's entry list, one
    descriptor for each distinct one, and each identifier is mapped to the
    descriptor built from the last entry that bears it. The identifiers are
    taken as they are: nothing checks that they are non-empty. *)
Theorem load_last_write_wins tm tm' :
  load tm = (tm', None) ->
  exists data config,
    os_ReadFile (configPath tm) = Some data
    /\ yaml_Unmarshal data = Some config
    /\ (forall name, GetTool tm' name = toolOf <$> lastEntry name (Tools config))
    /\ (forall name, is_Some (GetTool tm' name) <-> name ∈ tcName <$> Tools config)
    /\ length (GetAllTools tm')
       = length (remove_dups (tcName <$> Tools config)).
Proof.
  intros Hload. apply load_success in Hload as (data & config & Hread & Hparse & ->).
  exists data, config. split; [done|]. split; [done|].
  split; [|split].
  - intros name. apply loaded_lookup.
  - intros name. unfold GetTool.
    by rewrite loaded_lookup, fmap_is_Some, lastEntry_is_Some.
  - apply loaded_count.
Qed.

(** C6. A reload whose read or parse fails leaves the manager exactly as it
    was, also when it is the file watcher that runs it. During any reload
    the only states a reader can observe are the registry as it was before
    and the registry the reload ends in, and the latter has no tools only
    when the document parsed to an empty entry list. *)
Theorem reload_all_or_nothing tm :
  toolsMutexHeld tm = false ->
  (forall err, (load tm).2 = Some err ->
     (load tm).1 = tm
     /\ loadStates os_ReadFile yaml_Unmarshal tm = [tm]
     /\ forall event, (onEvent os_ReadFile yaml_Unmarshal tm event).1 = tm)
  /\ (forall s,
        s ∈ loadStates os_ReadFile yaml_Unmarshal tm ->
        observable s = true ->
        s = tm
        \/ (s = (load tm).1
            /\ exists data config,
                 os_ReadFile (configPath tm) = Some data
                 /\ yaml_Unmarshal data = Some config
                 /\ (GetAllTools s = [] <-> Tools config = []))).
Proof.
  intros Hfree. split.
  - intros err Herr. destruct (load_failure tm err Herr) as (_ & Hsame & Hstates).
    split; [done|]. split; [done|].
    intros event. unfold onEvent.
    destruct (_ && _); [|done].
    destruct (load tm) as [tm' [e|]] eqn:Hload; simpl in *; congruence.
  - intros s. unfold loadStates, loadToolsFromYAML.
    destruct (os_ReadFile (configPath tm)) as [data|];
      [|intros ->%list_elem_of_singleton _; by left].
    destruct (yaml_Unmarshal data) as [config|] eqn:Hparse;
      [|intros ->%list_elem_of_singleton _; by left].
    intros Hin Hobs.
    destruct (states_loadBody_observable tm config s Hin Hobs) as [->| ->];
      [by left|right].
    split; [done|]. exists data, config. split; [done|]. split; [done|].
    by rewrite GetAllTools_nil, loaded_empty.
Qed.

End Load.

(** A reload of the one-tool manager from a document that does not parse
    keeps the tool. *)
Lemma reload_all_or_nothing_witness :
  (loadToolsFromYAML (fun _ => Some "tools: [") (fun _ => None) echoManager).1
  = echoManager.
Proof.
  apply (proj1 (reload_all_or_nothing (fun _ => Some "tools: [")
                  (fun _ => None) echoManager eq_refl) FailedToParseYAML).
  reflexivity.
Defined.

(** C7 (as stated) fails: a document whose only entry has an empty
    identifier loads without error, and the empty identifier is
    registered. *)
Lemma empty_identifier_registered :
  (loadToolsFromYAML (fun _ => Some "tools: [{name: ''}]")
     (fun _ => Some unnamedDocument) echoManager).2 = None
  /\ GetTool
       (loadToolsFromYAML (fun _ => Some "tools: [{name: ''}]")
          (fun _ => Some unnamedDocument) echoManager).1 ""
     = Some (toolOf unnamedEntry).
Proof. split; reflexivity. Qed.

(** The load of that document registers one tool, under the empty
    identifier. *)
Lemma load_last_write_wins_witness :
  exists data config,
    Some "tools: [{name: ''}]" = Some data
    /\ Some unnamedDocument = Some config
    /\ (forall name,
          GetTool (run echoManager (loadBody unnamedDocument)) name
          = toolOf <$> lastEntry name (Tools config))
    /\ (forall name,
          is_Some (GetTool (run echoManager (loadBody unnamedDocument)) name)
          <-> name ∈ tcName <$> Tools config)
    /\ length (GetAllTools (run echoManager (loadBody unnamedDocument)))
       = length (remove_dups (tcName <$> Tools config)).
Proof.
  exact (load_last_write_wins (fun _ => Some "tools: [{name: ''}]")
           (fun _ => Some unnamedDocument) echoManager
           (run echoManager (loadBody unnamedDocument)) eq_refl).
Defined.

End RegistrySpec.

(** * Properties of the URL functions of the remote sync *)

Module RemoteSyncSpec.
Import GoStrings GoStringsFacts RemoteSync.

Lemma indexNat_Some_split sub s n :
  indexNat s sub = Some n ->
  firstSplit sub s (sliceTo n s) (sliceFrom (n + String.length sub) s).
Proof.
  revert n. induction s as [|c s IH]; intros n; cbn [indexNat].
  - destruct (HasPrefix "" sub) eqn:Hp; [|discriminate].
    intros [= <-]. apply HasPrefix_spec in Hp as [rest Hrest].
    destruct sub; [|discriminate]. split; [done|]. intros; simpl; lia.
  - destruct (HasPrefix (String c s) sub) eqn:Hp.
    + intros [= <-]. apply HasPrefix_spec in Hp as [rest Hrest].
      split; [|intros; simpl; lia].
      rewrite Hrest. cbn [sliceTo Nat.add]. by rewrite sliceFrom_length.
    + destruct (indexNat s sub) as [n'|] eqn:Hn; [|discriminate].
      simpl. intros [= <-]. destruct (IH n' eq_refl) as [Heq Hmin].
      split.
      * cbn [sliceTo sliceFrom Nat.add]. rewrite app_cons. by rewrite <- Heq.
      * intros pre' post' Hs. destruct pre' as [|c' pre'].
        -- rewrite app_nil_l in Hs.
           assert (HasPrefix (String c s) sub = true)
             by (apply HasPrefix_spec; eauto).
           congruence.
        -- rewrite app_cons in Hs. injection Hs as -> Hs.
           specialize (Hmin pre' post' Hs).
           assert (Hlen : String.length (sliceTo (S n') (String c' s))
                          = S (String.length (sliceTo n' s))) by reflexivity.
           rewrite Hlen. simpl. lia.
Qed.

Lemma Index_first sub s pre post :
  firstSplit sub s pre post -> Index s sub = Z.of_nat (String.length pre).
Proof. intros H. unfold Index. by rewrite (indexNat_first _ _ _ _ H). Qed.

Lemma from_app a b k :
  0 <= k -> from (Z.of_nat (String.length a) + k) (a ++ b) = from k b.
Proof.
  intros Hk. unfold from.
  replace (Z.to_nat (Z.of_nat (String.length a) + k))
    with (String.length a + Z.to_nat k)%nat by lia.
  apply sliceFrom_app.
Qed.

Lemma upto_app a b k :
  0 <= k -> upto (Z.of_nat (String.length a) + k) (a ++ b) = a ++ upto k b.
Proof.
  intros Hk. unfold upto.
  replace (Z.to_nat (Z.of_nat (String.length a) + k))
    with (String.length a + Z.to_nat k)%nat by lia.
  apply sliceTo_app.
Qed.

Lemma Index_at cred rest :
  lacks "@" cred -> Index (cred ++ "@" ++ rest) "@" = Z.of_nat (String.length cred).
Proof.
  intros Hl. unfold Index.
  change ("@" ++ rest) with (String "@" rest).
  by rewrite indexNat_char.
Qed.

Lemma Index_at_none post : lacks "@" post -> Index post "@" = -1.
Proof. intros Hl. unfold Index. by rewrite indexNat_lacks. Qed.

(** [sanitizeURLForLogging] on a URL whose scheme separator is followed by
    a credential segment. *)
Lemma sanitize_shape pre cred rest :
  indexNat (pre ++ "://" ++ cred ++ "@" ++ rest) "://" = Some (String.length pre) ->
  lacks "@" cred ->
  sanitizeURLForLogging (pre ++ "://" ++ cred ++ "@" ++ rest)
  = pre ++ "://" ++ "***" ++ "@" ++ rest.
Proof.
  intros Hidx Hl.
  assert (HI : Index (pre ++ "://" ++ cred ++ "@" ++ rest) "://"
               = Z.of_nat (String.length pre))
    by (unfold Index; by rewrite Hidx).
  unfold sanitizeURLForLogging. rewrite HI.
  destruct (Z.eqb_spec (Z.of_nat (String.length pre)) (-1)) as [|_]; [lia|].
  cbn [negb]. rewrite from_app by lia.
  change (from 3 ("://" ++ cred ++ "@" ++ rest)) with (cred ++ "@" ++ rest).
  rewrite Index_at by done.
  destruct (Z.eqb_spec (Z.of_nat (String.length cred)) (-1)) as [|_]; [lia|].
  cbn [negb]. rewrite upto_app, from_app by lia.
  change (from 1 ("@" ++ rest)) with rest.
  change (upto 3 ("://" ++ cred ++ "@" ++ rest)) with "://".
  by rewrite app_assoc.
Qed.

(** [getAuthenticatedURL] on a URL with a scheme separator: the URL's own
    credential segment, if it has one, is dropped and the configured pair
    takes its place; [rest] is what follows the credential segment. *)
Lemma authenticated_shape gs pre post rest :
  firstSplit "://" (repoURL gs) pre post ->
  username gs <> "" -> token gs <> "" ->
  (exists cred, post = cred ++ "@" ++ rest /\ lacks "@" cred)
  \/ (post = rest /\ lacks "@" post) ->
  getAuthenticatedURL gs
  = pre ++ "://" ++ (username gs ++ ":" ++ token gs) ++ "@" ++ rest.
Proof.
  intros Hsplit Huser Htoken Hpost.
  pose proof (Index_first _ _ _ _ Hsplit) as HI. destruct Hsplit as [Hurl _].
  unfold getAuthenticatedURL.
  destruct (String.eqb_spec (username gs) "") as [|_]; [done|].
  destruct (String.eqb_spec (token gs) "") as [|_]; [done|].
  cbn [orb]. rewrite HI.
  destruct (Z.eqb_spec (Z.of_nat (String.length pre)) (-1)) as [|_]; [lia|].
  cbn [negb]. rewrite Hurl, from_app by lia.
  change (from 3 ("://" ++ post)) with post.
  destruct Hpost as [(cred & -> & Hl)|[-> Hl]].
  - rewrite Index_at by done.
    destruct (Z.eqb_spec (Z.of_nat (String.length cred)) (-1)) as [|_]; [lia|].
    cbn [negb]. rewrite (upto_app pre _ 3), (from_app cred _ 1) by lia.
    change (from 1 ("@" ++ rest)) with rest.
    change (upto 3 ("://" ++ cred ++ "@" ++ rest)) with "://".
    rewrite (app_assoc pre "://" rest).
    rewrite (from_app pre _ 3), (upto_app pre _ 3) by lia.
    change (from 3 ("://" ++ rest)) with rest.
    change (upto 3 ("://" ++ rest)) with "://".
    by rewrite !app_assoc.
  - rewrite Index_at_none by done. rewrite Z.eqb_refl. cbn [negb].
    rewrite (from_app pre _ 3), (upto_app pre _ 3) by lia.
    change (from 3 ("://" ++ rest)) with rest.
    change (upto 3 ("://" ++ rest)) with "://".
    by rewrite !app_assoc.
Qed.

Lemma sanitize_authenticated gs pre post rest :
  firstSplit "://" (repoURL gs) pre post ->
  username gs <> "" -> token gs <> "" ->
  lacks "@" (username gs) -> lacks "@" (token gs) ->
  (exists cred, post = cred ++ "@" ++ rest /\ lacks "@" cred)
  \/ (post = rest /\ lacks "@" post) ->
  sanitizeURLForLogging (getAuthenticatedURL gs)
  = pre ++ "://" ++ "***" ++ "@" ++ rest.
Proof.
  intros Hsplit Huser Htoken Hlu Hlt Hpost.
  rewrite (authenticated_shape gs pre post rest) by done.
  apply sanitize_shape.
  - apply (indexNat_app_irrelevant _ _ post).
    destruct Hsplit as [Hurl Hmin]. rewrite <- Hurl.
    apply (indexNat_first _ _ _ post). by split.
  - apply lacks_app. split; [done|]. apply (lacks_app _ ":"). split; [|done].
    simpl. split; [discriminate | done].
Qed.

(** C10 (as the code has it). On a URL whose first scheme separator is
    followed by a credential segment (the text up to the first at-sign),
    [sanitizeURLForLogging] puts the marker in place of that segment and
    keeps everything before the separator and after the at-sign. When
    neither the username nor the token contains an at-sign, the sanitized
    form of the authenticated URL is the scheme, the marker and what the
    original URL has after its own credential segment: nothing of the
    embedded pair is left in the place of the credentials. *)
Theorem sanitized_url_hides_credentials :
  (forall url pre cred rest,
     firstSplit "://" url pre (cred ++ "@" ++ rest) -> lacks "@" cred ->
     sanitizeURLForLogging url = pre ++ "://" ++ "***" ++ "@" ++ rest)
  /\ (forall gs pre post,
        firstSplit "://" (repoURL gs) pre post ->
        username gs <> "" -> token gs <> "" ->
        lacks "@" (username gs) -> lacks "@" (token gs) ->
        (forall cred rest,
           post = cred ++ "@" ++ rest -> lacks "@" cred ->
           getAuthenticatedURL gs
           = pre ++ "://" ++ (username gs ++ ":" ++ token gs) ++ "@" ++ rest
           /\ sanitizeURLForLogging (getAuthenticatedURL gs)
              = pre ++ "://" ++ "***" ++ "@" ++ rest)
        /\ (lacks "@" post ->
            getAuthenticatedURL gs
            = pre ++ "://" ++ (username gs ++ ":" ++ token gs) ++ "@" ++ post
            /\ sanitizeURLForLogging (getAuthenticatedURL gs)
               = pre ++ "://" ++ "***" ++ "@" ++ post)).
Proof.
  split.
  - intros url pre cred rest Hsplit Hl.
    pose proof (indexNat_first _ _ _ _ Hsplit) as Hidx.
    destruct Hsplit as [-> _]. by apply sanitize_shape.
  - intros gs pre post Hsplit Huser Htoken Hlu Hlt. split.
    + intros cred rest -> Hl. split.
      * apply (authenticated_shape gs pre (cred ++ "@" ++ rest)); eauto.
      * apply (sanitize_authenticated gs pre (cred ++ "@" ++ rest)); eauto.
    + intros Hl. split.
      * apply (authenticated_shape gs pre post); auto.
      * apply (sanitize_authenticated gs pre post); auto.
Qed.

(** The credentials [alice:s3cr3t] embedded into a URL that carried
    [old:pw]: the sanitized form shows neither pair. *)
Lemma sanitized_url_hides_credentials_witness :
  sanitizeURLForLogging
    (getAuthenticatedURL (syncOf "https://old:pw@github.com/org/repo.git" "alice" "s3cr3t"))
  = "https://***@github.com/org/repo.git".
Proof.
  refine (proj2 (proj1 (proj2 sanitized_url_hides_credentials
            (syncOf "https://old:pw@github.com/org/repo.git" "alice" "s3cr3t")
            "https" "old:pw@github.com/org/repo.git" _ _ _ _ _)
          "old:pw" "github.com/org/repo.git" _ _)).
  - apply (indexNat_Some_split "://" "https://old:pw@github.com/org/repo.git" 5).
    reflexivity.
  - discriminate.
  - discriminate.
  - vm_compute. repeat split; discriminate.
  - vm_compute. repeat split; discriminate.
  - reflexivity.
  - vm_compute. repeat split; discriminate.
Defined.

(** C10 (as stated) fails: a username with an at-sign, as in an e-mail
    address, ends the credential segment early, and the token stays in the
    sanitized URL. *)
Lemma token_survives_sanitizing :
  sanitizeURLForLogging
    (getAuthenticatedURL
       (syncOf "https://github.com/org/repo.git" "dev@example.com" "s3cr3t"))
  = "https://***@example.com:s3cr3t@github.com/org/repo.git"
  /\ Contains
       (sanitizeURLForLogging
          (getAuthenticatedURL
             (syncOf "https://github.com/org/repo.git" "dev@example.com" "s3cr3t")))
       "s3cr3t" = true.
Proof. split; vm_compute; reflexivity. Qed.

End RemoteSyncSpec.

(** * Properties of the webhook handler *)

Module WebhookSpec.
Import GoStrings GoStringsFacts RemoteSync Webhook.

(** ** The test on one path *)

Lemma Contains_lacks s : lacks "/" s -> Contains s "/" = false.
Proof. intros Hl. unfold Contains, Index. by rewrite indexNat_lacks. Qed.

Lemma Contains_slash dir base : Contains (dir ++ "/" ++ base) "/" = true.
Proof.
  unfold Contains, Index.
  destruct (indexNat (dir ++ "/" ++ base) "/") as [n|] eqn:Hn;
    [apply Z.leb_le; lia|].
  exfalso. induction dir as [|c dir IH].
  - rewrite app_nil_l in Hn.
    change ("/" ++ base) with (String "/" base) in Hn.
    cbn [indexNat] in Hn. by rewrite HasPrefix_char_eq in Hn.
  - rewrite app_cons in Hn. cbn [indexNat] in Hn.
    destruct (HasPrefix _ _); [done|].
    destruct (indexNat (dir ++ "/" ++ base) "/"); [done|]. by apply IH.
Qed.

Lemma configDirPrefixOf_lacks s : lacks "/" s -> configDirPrefixOf s = s.
Proof.
  intros Hl. unfold configDirPrefixOf, LastIndex.
  by rewrite lastIndexNat_lacks.
Qed.

Lemma configDirPrefixOf_slash dir base :
  lacks "/" base -> configDirPrefixOf (dir ++ "/" ++ base) = dir ++ "/".
Proof.
  intros Hl. unfold configDirPrefixOf, LastIndex.
  change ("/" ++ base) with (String "/" base).
  rewrite lastIndexNat_char by done.
  destruct (Z.eqb_spec (Z.of_nat (String.length dir)) (-1)) as [|_]; [lia|].
  cbn [negb]. unfold upto.
  replace (Z.to_nat (Z.of_nat (String.length dir) + 1))
    with (String.length dir + 1)%nat by lia.
  by rewrite sliceTo_app.
Qed.

Lemma configMatches_spec repoConfigPath file :
  (if Contains repoConfigPath "/"
   then HasPrefix file (configDirPrefixOf repoConfigPath)
   else String.eqb file (configDirPrefixOf repoConfigPath)) = true
  <-> underConfigPath repoConfigPath file.
Proof.
  unfold underConfigPath.
  destruct (split_last "/" repoConfigPath) as [Hl|(dir & base & -> & Hl)].
  - rewrite Contains_lacks, configDirPrefixOf_lacks by done.
    rewrite String.eqb_eq. split; [auto|].
    intros [[_ ->]|(dir & base & rest & -> & _ & _)]; [done|].
    by apply not_lacks_app in Hl.
  - change (String "/" base) with ("/" ++ base).
    rewrite Contains_slash, configDirPrefixOf_slash by done.
    rewrite HasPrefix_spec. split.
    + intros [rest ->]. right. exists dir, base, rest.
      by rewrite app_assoc.
    + intros [[Hno _]|(dir' & base' & rest & Heq & Hl' & ->)].
      * by apply (not_lacks_app "/" dir base) in Hno.
      * pose proof (configDirPrefixOf_slash dir base Hl) as H1.
        pose proof (configDirPrefixOf_slash dir' base' Hl') as H2.
        rewrite Heq, H2 in H1. exists rest. by rewrite <- H1, app_assoc.
Qed.

Lemma testcasesMatches_spec repoTestcasesPath file :
  HasPrefix file (testcasesDirPrefixOf repoTestcasesPath) = true
  <-> underTestcasesPath repoTestcasesPath file.
Proof.
  unfold underTestcasesPath, asDirectory, testcasesDirPrefixOf.
  rewrite HasPrefix_spec.
  destruct (HasSuffix repoTestcasesPath "/") eqn:Hs; cbn [negb].
  - apply HasSuffix_spec in Hs. split.
    + intros [rest ->]. exists repoTestcasesPath, rest. auto.
    + intros (dir & rest & [[_ ->]|[Hno _]] & ->); [by exists rest | done].
  - assert (Hno : ~ exists front, repoTestcasesPath = front ++ "/").
    { intros H. apply HasSuffix_spec in H. congruence. }
    split.
    + intros [rest ->]. exists (repoTestcasesPath ++ "/"), rest. auto.
    + intros (dir & rest & [[H _]|[_ ->]] & ->); [done | by exists rest].
Qed.

Lemma fileTriggers_spec repoConfigPath repoTestcasesPath file :
  fileTriggers repoConfigPath repoTestcasesPath file = true
  <-> underConfigPath repoConfigPath file
      \/ underTestcasesPath repoTestcasesPath file.
Proof.
  unfold fileTriggers. cbv zeta.
  by rewrite orb_true_iff, configMatches_spec, testcasesMatches_spec.
Qed.

(** ** The two loops *)

Lemma scanFiles_spec cfg tcs files :
  ((scanFiles cfg tcs files).2 = true
   <-> exists file, file ∈ files /\ fileTriggers cfg tcs file = true)
  /\ RunSync ∉ (scanFiles cfg tcs files).1.
Proof.
  induction files as [|file rest [IH1 IH2]]; simpl.
  - split; [|apply not_elem_of_nil].
    split; [discriminate|]. intros (f & Hin & _). by apply elem_of_nil in Hin.
  - destruct (fileTriggers cfg tcs file) eqn:Hf; simpl.
    + split.
      * split; [|done]. intros _. exists file. split; [left|done].
      * intros Hin. apply list_elem_of_singleton in Hin. discriminate.
    + destruct (scanFiles cfg tcs rest) as [seen shouldSync]; simpl in *.
      split.
      * rewrite IH1. split.
        -- intros (f & Hin & Ht). exists f. split; [by right|done].
        -- intros (f & Hin & Ht). apply elem_of_cons in Hin as [->|Hin];
             [congruence|]. eauto.
      * intros Hin. apply elem_of_cons in Hin as [?|Hin]; [discriminate|].
        by apply IH2.
Qed.

Lemma scanCommits_spec cfg tcs commits :
  ((scanCommits cfg tcs commits).2 = true
   <-> exists commit file,
         commit ∈ commits
         /\ file ∈ ((Added commit ++ Modified commit) ++ Removed commit)%list
         /\ fileTriggers cfg tcs file = true)
  /\ RunSync ∉ (scanCommits cfg tcs commits).1.
Proof.
  induction commits as [|commit rest [IH1 IH2]]; simpl.
  - split; [|apply not_elem_of_nil].
    split; [discriminate|]. intros (c & f & Hin & _). by apply elem_of_nil in Hin.
  - pose proof (scanFiles_spec cfg tcs
      ((Added commit ++ Modified commit) ++ Removed commit)%list) as [Hf1 Hf2].
    destruct (scanFiles cfg tcs _) as [seen [|]]; simpl in *.
    + split; [|done]. split; [|done]. intros _.
      destruct (proj1 Hf1 eq_refl) as (f & Hin & Ht).
      exists commit, f. split; [left|done].
    + destruct (scanCommits cfg tcs rest) as [seen' shouldSync']; simpl in *.
      split.
      * rewrite IH1. split.
        -- intros (c & f & Hc & Hin & Ht). exists c, f. split; [by right|done].
        -- intros (c & f & Hc & Hin & Ht).
           apply elem_of_cons in Hc as [->|Hc]; [|eauto].
           assert (false = true) by (apply Hf1; eauto). discriminate.
      * intros Hin. apply elem_of_app in Hin as [Hin|Hin]; [by apply Hf2 | by apply IH2].
Qed.

Lemma scanCommits_touches gs commits :
  (scanCommits (repoConfigPath gs) (repoTestcasesPath gs) commits).2 = true
  <-> touchesWatchedPath gs commits.
Proof.
  rewrite (proj1 (scanCommits_spec _ _ _)). unfold touchesWatchedPath.
  split; intros (c & f & Hc & Hin & Ht); exists c, f; (split; [done|]).
  - rewrite !elem_of_app in Hin. apply fileTriggers_spec in Ht. tauto.
  - rewrite !elem_of_app. rewrite fileTriggers_spec. tauto.
Qed.

Lemma watched_fixture gs :
  repoTestcasesPath gs = "testcases" ->
  underTestcasesPath (repoTestcasesPath gs) "testcases/mock_echo-test-case-2.yaml".
Proof. intros ->. apply testcasesMatches_spec. reflexivity. Qed.

Lemma unwatched_readme gs :
  repoConfigPath gs = "config/tools.yaml" ->
  repoTestcasesPath gs = "testcases" ->
  ~ (underConfigPath (repoConfigPath gs) "README.md"
     \/ underTestcasesPath (repoTestcasesPath gs) "README.md").
Proof.
  intros -> -> H. apply fileTriggers_spec in H. vm_compute in H. discriminate.
Qed.

Section Handler.

Variable json_Unmarshal : string -> option GitHubWebhookPayload.
Variable hmac_sha256 : string -> string -> string.
Variable hex_EncodeToString : string -> string.
Variable Sync : GitHubSync -> option string.

Abbreviation pushEvent := (handlePushEvent json_Unmarshal Sync).
Abbreviation handle :=
  (HandleWebhook json_Unmarshal hmac_sha256 hex_EncodeToString Sync).

Lemma pushEvent_spec wh payload webhookPayload :
  json_Unmarshal payload = Some webhookPayload ->
  (RunSync ∈ (pushEvent wh payload).1
   <-> touchesWatchedPath (githubSync wh) (Commits webhookPayload))
  /\ (~ touchesWatchedPath (githubSync wh) (Commits webhookPayload) ->
      (pushEvent wh payload).2 = None).
Proof.
  intros Hjson. unfold handlePushEvent, GetRepoConfigPath, GetRepoTestcasesPath.
  rewrite Hjson.
  pose proof (scanCommits_touches (githubSync wh) (Commits webhookPayload)) as Ht.
  pose proof (proj2 (scanCommits_spec (repoConfigPath (githubSync wh))
    (repoTestcasesPath (githubSync wh)) (Commits webhookPayload))) as Hno.
  destruct (scanCommits _ _ _) as [seen [|]]; simpl in *.
  - split; [|intros Hn; destruct Hn; by apply Ht].
    split; [intros _; by apply Ht|]. intros _.
    destruct (Sync (githubSync wh)); simpl; apply elem_of_app; right; left.
  - split; [|done]. split; [done|]. intros H. apply Ht in H. discriminate.
Qed.

(** C9. A push whose payload parses runs [Sync] exactly when some commit
    adds, modifies or removes a path under the config sub-path (equal to it
    when that path has no directory component, otherwise starting with its
    containing directory) or under the fixtures sub-path read as a
    directory; otherwise the push is answered without error and without a
    sync. With fixtures path [testcases], a push that modifies
    [testcases/mock_echo-test-case-2.yaml] syncs, and, the config path being
    [config/tools.yaml], a push that touches only [README.md] does not. *)
Theorem push_syncs_iff_watched_path wh payload webhookPayload :
  json_Unmarshal payload = Some webhookPayload ->
  (RunSync ∈ (pushEvent wh payload).1
   <-> touchesWatchedPath (githubSync wh) (Commits webhookPayload))
  /\ (~ touchesWatchedPath (githubSync wh) (Commits webhookPayload) ->
      (pushEvent wh payload).2 = None
      /\ forall r,
           Method r = "POST" -> Body r = Some payload ->
           webhookSecret wh = "" ->
           HeaderGet r "X-GitHub-Event" = "push" ->
           (handle wh r).2 = OK /\ RunSync ∉ (handle wh r).1)
  /\ (repoTestcasesPath (githubSync wh) = "testcases" ->
      (exists commit,
         commit ∈ Commits webhookPayload
         /\ "testcases/mock_echo-test-case-2.yaml" ∈ Modified commit) ->
      RunSync ∈ (pushEvent wh payload).1)
  /\ (repoTestcasesPath (githubSync wh) = "testcases" ->
      repoConfigPath (githubSync wh) = "config/tools.yaml" ->
      (forall commit file,
         commit ∈ Commits webhookPayload ->
         file ∈ Added commit \/ file ∈ Modified commit \/ file ∈ Removed commit ->
         file = "README.md") ->
      RunSync ∉ (pushEvent wh payload).1).
Proof.
  intros Hjson. destruct (pushEvent_spec wh payload webhookPayload Hjson) as [Hiff Hack].
  split; [exact Hiff|]. split; [|split].
  - intros Hno. split; [by apply Hack|].
    intros r Hpost Hbody Hsecret Hevent. unfold HandleWebhook.
    rewrite Hpost, Hbody, Hsecret, Hevent. simpl.
    specialize (Hack Hno).
    destruct (pushEvent wh payload) as [effects [err|]] eqn:Hpush;
      simpl in *; [discriminate|].
    split; [done|]. intros Hin. by apply Hno, Hiff.
  - intros Htc (commit & Hc & Hm). apply Hiff.
    exists commit, "testcases/mock_echo-test-case-2.yaml".
    split; [done|]. split; [auto|]. right. by apply watched_fixture.
  - intros Htc Hcfg Honly Hin. apply Hiff in Hin.
    destruct Hin as (commit & file & Hc & Hf & Hw).
    rewrite (Honly commit file Hc Hf) in Hw.
    by apply (unwatched_readme (githubSync wh)).
Qed.

(** C8 (as the code has it). While a secret is configured, a request whose
    signature header is absent or is not the HMAC-SHA256 of its body makes
    the handler inspect no path and run no sync. Such a request is answered
    as unauthorized when it is a POST whose body was read; a request with
    another method is turned away as such before the signature is looked at,
    and so is one whose body cannot be read. *)
Theorem bad_signature_rejected wh r :
  webhookSecret wh <> "" ->
  (forall payload,
     Body r = Some payload ->
     HeaderGet r "X-Hub-Signature-256" = ""
     \/ HeaderGet r "X-Hub-Signature-256"
        <> "sha256=" ++ hex_EncodeToString (hmac_sha256 (webhookSecret wh) payload)) ->
  (handle wh r).1 = []
  /\ (Method r = "POST" -> is_Some (Body r) -> (handle wh r).2 = InvalidSignature)
  /\ (Method r <> "POST" -> (handle wh r).2 = MethodNotAllowed)
  /\ (Method r = "POST" -> Body r = None -> (handle wh r).2 = FailedToReadPayload).
Proof.
  intros Hsecret Hbad. unfold HandleWebhook.
  destruct (String.eqb_spec (Method r) "POST") as [Hpost|Hpost]; cbn [negb].
  2: { repeat split; done. }
  destruct (Body r) as [payload|] eqn:Hbody.
  2: { repeat split; try done. }
  assert (Hverify : verifySignatureWithBody hmac_sha256 hex_EncodeToString wh r payload = false).
  { unfold verifySignatureWithBody.
    destruct (String.eqb_spec (HeaderGet r "X-Hub-Signature-256") "") as [|Hsig];
      [done|].
    apply String.eqb_neq. destruct (Hbad payload eq_refl); done. }
  rewrite Hverify.
  destruct (String.eqb_spec (webhookSecret wh) "") as [|_]; [done|].
  simpl. repeat split; done.
Qed.

End Handler.

(** The two pushes of the specification, sent to the handler without
    secret: the first syncs, the second looks at [README.md] and does not. *)
Lemma push_syncs_iff_watched_path_witness :
  RunSync ∈ (handlePushEvent decodePush (fun _ => None) openHandler "fixture push").1
  /\ HandleWebhook decodePush (fun _ _ => "") (fun mac => mac) (fun _ => None)
       openHandler (pushRequest "POST" "readme push")
     = ([InspectPath "README.md"], OK).
Proof.
  split.
  - apply (proj1 (proj2 (proj2 (push_syncs_iff_watched_path decodePush
             (fun _ _ => "") (fun mac => mac) (fun _ => None)
             openHandler "fixture push"
             (pushOf ["testcases/mock_echo-test-case-2.yaml"]) eq_refl)))).
    + reflexivity.
    + exists (commitOf ["testcases/mock_echo-test-case-2.yaml"]).
      split; apply list_elem_of_singleton; reflexivity.
  - reflexivity.
Defined.

(** A signed-off POST with a wrong signature is answered as unauthorized. *)
Lemma bad_signature_rejected_witness :
  HandleWebhook decodePush (fun _ _ => "mac") (fun mac => mac) (fun _ => None)
    guardedHandler (pushRequest "POST" "fixture push")
  = ([], InvalidSignature).
Proof.
  pose proof (bad_signature_rejected decodePush (fun _ _ => "mac") (fun mac => mac)
                (fun _ => None) guardedHandler (pushRequest "POST" "fixture push"))
    as H.
  destruct H as (Heffects & Hresponse & _).
  - discriminate.
  - intros payload _. left. reflexivity.
  - specialize (Hresponse eq_refl (ex_intro _ "fixture push" eq_refl)).
    destruct (HandleWebhook _ _ _ _ _ _) as [effects response].
    simpl in *. by subst.
Defined.

(** C8 (as stated) fails: with a secret configured, a GET request without
    signature is not answered as unauthorized (401) but as method not
    allowed (405). *)
Lemma unsigned_get_not_unauthorized :
  HeaderGet (pushRequest "GET" "fixture push") "X-Hub-Signature-256" = ""
  /\ HandleWebhook decodePush (fun _ _ => "mac") (fun mac => mac) (fun _ => None)
       guardedHandler (pushRequest "GET" "fixture push")
     = ([], MethodNotAllowed)
  /\ statusCode MethodNotAllowed <> statusCode InvalidSignature.
Proof. split; [reflexivity|]. split; [reflexivity | discriminate]. Qed.

End WebhookSpec.

(** * Properties of the repository names *)

Module RepoNamesSpec.
Import GoStrings GoStringsFacts GoStringsTrim RepoNames.

(** ** Trimming *)

Lemma HasPrefix_app_r s t p : HasPrefix s p = true -> HasPrefix (s ++ t) p = true.
Proof.
  intros [rest ->]%HasPrefix_spec. apply HasPrefix_spec.
  exists (rest ++ t). apply app_assoc.
Qed.

Lemma HasSuffix_app u suffix : HasSuffix (u ++ suffix) suffix = true.
Proof. apply HasSuffix_spec. by exists u. Qed.

Lemma TrimSuffix_app u suffix : TrimSuffix (u ++ suffix) suffix = u.
Proof.
  unfold TrimSuffix. rewrite HasSuffix_app, length_app.
  replace (String.length u + String.length suffix - String.length suffix)%nat
    with (String.length u) by lia.
  apply sliceTo_length.
Qed.

Lemma TrimSuffix_none s suffix : HasSuffix s suffix = false -> TrimSuffix s suffix = s.
Proof. intros H. unfold TrimSuffix. by rewrite H. Qed.

Lemma TrimPrefix_app p s : TrimPrefix (p ++ s) p = s.
Proof. unfold TrimPrefix. rewrite HasPrefix_app. apply sliceFrom_length. Qed.

Lemma TrimPrefix_none s p : HasPrefix s p = false -> TrimPrefix s p = s.
Proof. intros H. unfold TrimPrefix. by rewrite H. Qed.

(** What [TrimSuffix] returns is a prefix of its argument. *)
Lemma TrimSuffix_prefix s suffix : exists rest, s = TrimSuffix s suffix ++ rest.
Proof.
  unfold TrimSuffix. destruct (HasSuffix s suffix) eqn:Hs.
  - apply HasSuffix_spec in Hs as [front ->]. exists suffix.
    rewrite length_app.
    replace (String.length front + String.length suffix - String.length suffix)%nat
      with (String.length front) by lia.
    by rewrite sliceTo_length.
  - exists "". by rewrite app_nil_r.
Qed.

(** A suffix that lacks a character of [u] cannot reach beyond [u]. *)
Lemma HasSuffix_app_l c a u suffix :
  lacks c suffix -> ~ lacks c u ->
  HasSuffix (a ++ u) suffix = HasSuffix u suffix.
Proof.
  intros Hsuf Hu. induction a as [|x a IH]; [done|].
  rewrite app_cons. cbn [HasSuffix].
  destruct (String.eqb_spec (String x (a ++ u)) suffix) as [<-|_]; [|exact IH].
  exfalso. apply Hu. rewrite <- app_cons in Hsuf. by apply lacks_app in Hsuf as [_ ?].
Qed.

Lemma Contains_char_lacks c s : lacks c s -> Contains s (String c "") = false.
Proof. intros Hl. unfold Contains, Index. by rewrite indexNat_lacks. Qed.

Lemma Contains_char c s : ~ lacks c s -> Contains s (String c "") = true.
Proof.
  intros Hn. destruct (split_last c s) as [Hl|(a & b & -> & _)]; [done|].
  unfold Contains, Index. clear Hn.
  destruct (indexNat (a ++ String c b) (String c "")) as [n|] eqn:Hi;
    [apply Z.leb_le; lia|].
  exfalso. induction a as [|x a IH].
  - rewrite app_nil_l in Hi. cbn [indexNat] in Hi.
    by rewrite HasPrefix_char_eq in Hi.
  - rewrite app_cons in Hi. cbn [indexNat] in Hi.
    destruct (HasPrefix _ _); [done|].
    destruct (indexNat (a ++ String c b) (String c "")); [done|]. by apply IH.
Qed.

(** ** [normalizeRepoURL] *)

Lemma normalized_form TrimSpace url :
  HasSuffix (normalizeRepoURL TrimSpace url) ".git" = true
  /\ (HasPrefix (normalizeRepoURL TrimSpace url) "http://" = true
      \/ HasPrefix (normalizeRepoURL TrimSpace url) "https://" = true).
Proof.
  unfold normalizeRepoURL.
  set (u := TrimSuffix (TrimSpace url) ".git").
  set (v := if negb (HasPrefix u "http://") && negb (HasPrefix u "https://")
            then _ else u).
  assert (Hv : HasPrefix v "http://" = true \/ HasPrefix v "https://" = true).
  { subst v. destruct (HasPrefix u "http://") eqn:H1; [by left|].
    destruct (HasPrefix u "https://") eqn:H2; [by right|].
    cbn [negb andb]. right.
    destruct (_ && _); [apply (HasPrefix_app _ "https://")|apply HasPrefix_app]. }
  clearbody v. destruct (HasSuffix v ".git") eqn:Hs; cbn [negb].
  - done.
  - split; [apply HasSuffix_app|].
    destruct Hv as [Hv|Hv]; [left|right]; by apply HasPrefix_app_r.
Qed.

(** A normalized URL always carries a scheme and the [.git] suffix. *)
Theorem normalizeRepoURL_shape TrimSpace url :
  HasSuffix (normalizeRepoURL TrimSpace url) ".git" = true
  /\ (HasPrefix (normalizeRepoURL TrimSpace url) "http://" = true
      \/ HasPrefix (normalizeRepoURL TrimSpace url) "https://" = true).
Proof. apply normalized_form. Qed.


(** The result for a stem [u] that is left after trimming. *)
Lemma normalizeRepoURL_stem TrimSpace url u :
  TrimSuffix (TrimSpace url) ".git" = u ->
  normalizeRepoURL TrimSpace url
  = let v := if negb (HasPrefix u "http://") && negb (HasPrefix u "https://")
             then if Contains u "/" && negb (Contains u "@")
                  then "https://github.com/" ++ TrimPrefix u "github.com/"
                  else "https://" ++ u
             else u in
    if negb (HasSuffix v ".git") then v ++ ".git" else v.
Proof. intros <-. reflexivity. Qed.

(** The short forms of a GitHub repository. For a path [p] such as
    [owner/repo] (it has a slash, no at-sign, no scheme, does not start with
    [github.com/] and does not end in [.git]), the forms [p],
    [github.com/p] and [https://github.com/p], each with or without [.git]
    at its end, all normalize to [https://github.com/p.git] when
    [TrimSpace] leaves them as they are (no white space around them); the
    scheme [http] is kept. *)
Theorem normalizeRepoURL_short_forms TrimSpace p :
  ~ lacks "/" p -> lacks "@" p ->
  HasSuffix p ".git" = false ->
  HasPrefix p "http://" = false -> HasPrefix p "https://" = false ->
  HasPrefix p "github.com/" = false ->
  (forall form,
     form ∈ [ p; p ++ ".git";
              "github.com/" ++ p; "github.com/" ++ p ++ ".git";
              "https://github.com/" ++ p; "https://github.com/" ++ p ++ ".git" ] ->
     TrimSpace form = form ->
     normalizeRepoURL TrimSpace form = "https://github.com/" ++ p ++ ".git")
  /\ (TrimSpace ("http://github.com/" ++ p) = "http://github.com/" ++ p ->
      normalizeRepoURL TrimSpace ("http://github.com/" ++ p)
      = "http://github.com/" ++ p ++ ".git").
Proof.
  intros Hslash Hat Hgit Hhttp Hhttps Hhub.
  assert (Hsuf : forall a, HasSuffix (a ++ p) ".git" = false).
  { intros a. rewrite (HasSuffix_app_l "/" a p ".git"); [done| |done].
    simpl. repeat split; discriminate. }
  assert (T0 : forall a, TrimSpace (a ++ p) = a ++ p ->
                         TrimSuffix (TrimSpace (a ++ p)) ".git" = a ++ p).
  { intros a ->. by apply TrimSuffix_none. }
  assert (T1 : forall a, TrimSpace (a ++ p ++ ".git") = a ++ p ++ ".git" ->
                         TrimSuffix (TrimSpace (a ++ p ++ ".git")) ".git" = a ++ p).
  { intros a ->. rewrite <- app_assoc. apply TrimSuffix_app. }
  assert (Cs : forall a, Contains (a ++ p) "/" = true).
  { intros a. apply Contains_char. rewrite lacks_app. tauto. }
  assert (Cs0 : Contains p "/" = true) by apply (Cs "").
  assert (Ca : Contains p "@" = false) by (by apply Contains_char_lacks).
  assert (Ca' : Contains ("github.com/" ++ p) "@" = false).
  { apply Contains_char_lacks. apply lacks_app. split; [|done].
    simpl. repeat split; discriminate. }
  assert (R1 : (if negb (HasSuffix ("https://github.com/" ++ p) ".git")
                then ("https://github.com/" ++ p) ++ ".git"
                else "https://github.com/" ++ p)
               = "https://github.com/" ++ p ++ ".git").
  { rewrite (Hsuf "https://github.com/"). cbn [negb]. by rewrite !app_assoc. }
  assert (S0 : forall url, TrimSuffix (TrimSpace url) ".git" = p ->
                 normalizeRepoURL TrimSpace url = "https://github.com/" ++ p ++ ".git").
  { intros url Hu. rewrite (normalizeRepoURL_stem _ _ p Hu).
    cbv zeta. rewrite Hhttp, Hhttps, Cs0, Ca. cbn [negb andb].
    by rewrite TrimPrefix_none. }
  assert (S1 : forall url, TrimSuffix (TrimSpace url) ".git" = "github.com/" ++ p ->
                 normalizeRepoURL TrimSpace url = "https://github.com/" ++ p ++ ".git").
  { intros url Hu. rewrite (normalizeRepoURL_stem _ _ _ Hu).
    cbv zeta. rewrite (Cs "github.com/"), Ca'.
    change (HasPrefix ("github.com/" ++ p) "http://") with false.
    change (HasPrefix ("github.com/" ++ p) "https://") with false.
    cbn [negb andb]. by rewrite TrimPrefix_app. }
  assert (S2 : forall url, TrimSuffix (TrimSpace url) ".git" = "https://github.com/" ++ p ->
                 normalizeRepoURL TrimSpace url = "https://github.com/" ++ p ++ ".git").
  { intros url Hu. rewrite (normalizeRepoURL_stem _ _ _ Hu).
    cbv zeta.
    change (HasPrefix ("https://github.com/" ++ p) "http://") with false.
    change (HasPrefix ("https://github.com/" ++ p) "https://")
      with (HasPrefix ("github.com/" ++ p) "").
    replace (HasPrefix ("github.com/" ++ p) "") with true by reflexivity.
    cbn [negb andb]. exact R1. }
  split.
  - intros form Hin Hform.
    repeat (apply elem_of_cons in Hin as [->|Hin]);
      [ apply S0, (T0 "" Hform)
      | apply S0, (T1 "" Hform)
      | apply S1, (T0 "github.com/" Hform)
      | apply S1, (T1 "github.com/" Hform)
      | apply S2, (T0 "https://github.com/" Hform)
      | apply S2, (T1 "https://github.com/" Hform)
      | by apply elem_of_nil in Hin ].
  - intros Hform.
    rewrite (normalizeRepoURL_stem _ _ _ (T0 "http://github.com/" Hform)).
    cbv zeta.
    change (HasPrefix ("http://github.com/" ++ p) "http://")
      with (HasPrefix ("github.com/" ++ p) "").
    replace (HasPrefix ("github.com/" ++ p) "") with true by reflexivity.
    cbn [negb andb]. rewrite (Hsuf "http://github.com/"). cbn [negb].
    by rewrite !app_assoc.
Qed.

(** The short forms of [octo/hello]. *)
Lemma normalizeRepoURL_short_forms_witness :
  normalizeRepoURL (fun s => s) "github.com/octo/hello"
  = "https://github.com/octo/hello.git".
Proof.
  refine (proj1 (normalizeRepoURL_short_forms (fun s => s)
            "octo/hello" _ _ _ _ _ _) "github.com/octo/hello" _ _).
  - simpl. intros (_ & _ & _ & _ & H & _). by apply H.
  - simpl. repeat split; discriminate.
  - reflexivity.
  - reflexivity.
  - reflexivity.
  - reflexivity.
  - do 2 right. left.
  - reflexivity.
Defined.

(** ** [sanitizeRepoName] *)

Lemma lacks_ReplaceAllByte_old s old new :
  lacks old new -> lacks old (ReplaceAllByte s old new).
Proof.
  intros Hnew. induction s as [|c s IH]; [done|]. cbn [ReplaceAllByte].
  destruct (Ascii.eqb_spec c old) as [->|Hne].
  - apply lacks_app. by split.
  - by split.
Qed.

Lemma lacks_ReplaceAllByte c s old new :
  lacks c s -> lacks c new -> lacks c (ReplaceAllByte s old new).
Proof.
  intros Hs Hnew. induction s as [|x s IH]; [done|]. cbn [ReplaceAllByte].
  destruct Hs as [Hx Hs]. destruct (Ascii.eqb x old).
  - apply lacks_app. split; [done | by apply IH].
  - split; [done | by apply IH].
Qed.

Lemma sanitized_name url :
  lacks "/" (sanitizeRepoName url)
  /\ lacks ":" (sanitizeRepoName url)
  /\ lacks "@" (sanitizeRepoName url).
Proof.
  unfold sanitizeRepoName. cbv zeta.
  assert (U : forall c : ascii, c <> "_"%char -> lacks c "_").
  { intros c Hc. simpl. split; [congruence | done]. }
  repeat split.
  - apply lacks_ReplaceAllByte; [|by apply U].
    apply lacks_ReplaceAllByte; [|by apply U].
    apply lacks_ReplaceAllByte_old. by apply U.
  - apply lacks_ReplaceAllByte; [|by apply U].
    apply lacks_ReplaceAllByte_old. by apply U.
  - apply lacks_ReplaceAllByte_old. by apply U.
Qed.

(** The directory name made from a repository URL has no slash, colon or
    at-sign, whatever the URL. *)
Theorem sanitizeRepoName_safe url :
  lacks "/" (sanitizeRepoName url)
  /\ lacks ":" (sanitizeRepoName url)
  /\ lacks "@" (sanitizeRepoName url).
Proof. apply sanitized_name. Qed.


End RepoNamesSpec.

(** * More properties of the URL functions *)

Module RemoteSyncURLs.
Import GoStrings GoStringsFacts GoStringsTrim RepoNames RemoteSync RemoteSyncRun.
Import RemoteSyncSpec RepoNamesSpec.

Lemma indexNat_char_Some c s n :
  indexNat s (String c "") = Some n ->
  exists cred rest, s = cred ++ String c rest /\ lacks c cred.
Proof.
  revert n. induction s as [|x s IH]; intros n; cbn [indexNat].
  - discriminate.
  - destruct (Ascii.eqb_spec x c) as [->|Hne].
    + intros _. by exists "", s.
    + rewrite HasPrefix_char_ne by done.
      destruct (indexNat s (String c "")) as [k|] eqn:Hk; [|discriminate].
      intros _. destruct (IH k eq_refl) as (cred & rest & -> & Hl).
      exists (String x cred), rest. by split.
Qed.

Lemma indexNat_char_None c s : indexNat s (String c "") = None -> lacks c s.
Proof.
  induction s as [|x s IH]; [done|]. cbn [indexNat].
  destruct (Ascii.eqb_spec x c) as [->|Hne].
  - by rewrite HasPrefix_char_eq.
  - rewrite HasPrefix_char_ne by done.
    destruct (indexNat s (String c "")); [discriminate|]. intros _. by split; [|apply IH].
Qed.

(** A string has no at-sign or splits at its first one. *)
Lemma split_first_at post :
  lacks "@" post \/ exists cred rest, post = cred ++ "@" ++ rest /\ lacks "@" cred.
Proof.
  destruct (indexNat post "@") as [n|] eqn:Hn.
  - right. by apply indexNat_char_Some in Hn.
  - left. by apply indexNat_char_None.
Qed.

Lemma firstSplit_of_index sub pre post :
  indexNat (pre ++ sub ++ post) sub = Some (String.length pre) ->
  firstSplit sub (pre ++ sub ++ post) pre post.
Proof.
  intros Hi. apply indexNat_Some_split in Hi.
  rewrite sliceTo_length, sliceFrom_app, sliceFrom_length in Hi. exact Hi.
Qed.

Lemma firstSplit_app_irrelevant sub pre post post' :
  firstSplit sub (pre ++ sub ++ post) pre post ->
  firstSplit sub (pre ++ sub ++ post') pre post'.
Proof.
  intros H. apply firstSplit_of_index, (indexNat_app_irrelevant _ _ post).
  by apply (indexNat_first _ _ _ post).
Qed.

(** [sanitizeURLForLogging] leaves a URL without scheme separator, or
    without at-sign after it, as it is. *)
Lemma sanitize_unchanged url :
  Index url "://" = -1
  \/ (exists pre post, firstSplit "://" url pre post /\ lacks "@" post) ->
  sanitizeURLForLogging url = url.
Proof.
  unfold sanitizeURLForLogging. intros [->|(pre & post & Hsplit & Hl)]; [done|].
  rewrite (Index_first _ _ _ _ Hsplit). destruct Hsplit as [-> _].
  destruct (Z.eqb_spec (Z.of_nat (String.length pre)) (-1)) as [|_]; [lia|].
  cbn [negb]. rewrite (from_app pre _ 3) by lia.
  change (from 3 ("://" ++ post)) with post.
  by rewrite Index_at_none.
Qed.

(** Every URL is of one of three kinds. *)
Lemma url_cases url :
  Index url "://" = -1
  \/ (exists pre post, firstSplit "://" url pre post /\ lacks "@" post)
  \/ (exists pre cred rest,
        firstSplit "://" url pre (cred ++ "@" ++ rest) /\ lacks "@" cred).
Proof.
  unfold Index. destruct (indexNat url "://") as [n|] eqn:Hn; [|by left].
  right. apply indexNat_Some_split in Hn.
  destruct (split_first_at (sliceFrom (n + String.length "://") url))
    as [Hl|(cred & rest & Heq & Hl)].
  - left. eauto.
  - right. rewrite Heq in Hn. eauto.
Qed.

(** Sanitizing is idempotent: a sanitized URL is left as it is. *)
Theorem sanitizeURLForLogging_idempotent url :
  sanitizeURLForLogging (sanitizeURLForLogging url) = sanitizeURLForLogging url.
Proof.
  destruct (url_cases url) as [H|[H|(pre & cred & rest & Hsplit & Hl)]].
  - rewrite (sanitize_unchanged url) by auto. apply sanitize_unchanged; auto.
  - rewrite (sanitize_unchanged url) by auto. apply sanitize_unchanged; auto.
  - pose proof (indexNat_first _ _ _ _ Hsplit) as Hi. destruct Hsplit as [-> _].
    rewrite (sanitize_shape pre cred rest Hi Hl).
    apply (sanitize_shape pre "***" rest).
    + by apply (indexNat_app_irrelevant _ _ (cred ++ "@" ++ rest)).
    + simpl. repeat split; discriminate.
Qed.

(** Embedding the credentials again, into a URL that already carries them,
    gives the same URL: the pair is replaced, never stacked. *)
Theorem getAuthenticatedURL_again gs pre post :
  firstSplit "://" (repoURL gs) pre post ->
  username gs <> "" -> token gs <> "" ->
  lacks "@" (username gs) -> lacks "@" (token gs) ->
  getAuthenticatedURL (withRepoURL gs (getAuthenticatedURL gs))
  = getAuthenticatedURL gs.
Proof.
  intros Hsplit Huser Htoken Hlu Hlt.
  assert (Hshape : exists rest,
            getAuthenticatedURL gs
            = pre ++ "://" ++ (username gs ++ ":" ++ token gs) ++ "@" ++ rest).
  { destruct (split_first_at post) as [Hl|(cred & rest & Heq & Hl)].
    - exists post. apply (authenticated_shape gs pre post); auto.
    - exists rest. apply (authenticated_shape gs pre post); eauto. }
  destruct Hshape as [rest Hshape]. rewrite Hshape.
  apply (authenticated_shape (withRepoURL gs _) pre
           ((username gs ++ ":" ++ token gs) ++ "@" ++ rest) rest); try done.
  - simpl. destruct Hsplit as [Hurl Hmin]. rewrite Hurl in Hmin.
    by apply (firstSplit_app_irrelevant _ _ post).
  - left. exists (username gs ++ ":" ++ token gs). split; [done|].
    apply lacks_app. split; [done|]. apply (lacks_app _ ":"). split; [|done].
    simpl. split; [discriminate | done].
Qed.

(** The pair [alice:s3cr3t] embedded twice into a URL that carried
    [old:pw]. *)
Lemma getAuthenticatedURL_again_witness :
  getAuthenticatedURL
    (withRepoURL (syncOf "https://old:pw@github.com/org/repo.git" "alice" "s3cr3t")
       (getAuthenticatedURL
          (syncOf "https://old:pw@github.com/org/repo.git" "alice" "s3cr3t")))
  = getAuthenticatedURL
      (syncOf "https://old:pw@github.com/org/repo.git" "alice" "s3cr3t").
Proof.
  apply (getAuthenticatedURL_again
           (syncOf "https://old:pw@github.com/org/repo.git" "alice" "s3cr3t")
           "https" "old:pw@github.com/org/repo.git").
  - apply (indexNat_Some_split "://" "https://old:pw@github.com/org/repo.git" 5).
    reflexivity.
  - discriminate.
  - discriminate.
  - vm_compute. repeat split; discriminate.
  - vm_compute. repeat split; discriminate.
Defined.

Lemma indexNat_lacks_first c pre sub post :
  lacks c pre ->
  indexNat (pre ++ String c sub ++ post) (String c sub) = Some (String.length pre).
Proof.
  induction pre as [|x pre IH]; intros Hl.
  - rewrite app_nil_l. apply indexNat_here.
  - destruct Hl as [Hne Hl]. rewrite app_cons. cbn [indexNat].
    rewrite HasPrefix_char_ne by done. by rewrite IH.
Qed.

(** A normalized URL splits at its scheme. *)
Lemma normalized_split TrimSpace raw :
  exists scheme post,
    (scheme = "http" \/ scheme = "https")
    /\ firstSplit "://" (normalizeRepoURL TrimSpace raw) scheme post.
Proof.
  destruct (normalized_form TrimSpace raw) as [_ [H|H]];
    apply HasPrefix_spec in H as [post Hpost]; rewrite Hpost.
  - exists "http", post. split; [by left|].
    apply (firstSplit_of_index "://" "http" post), (indexNat_lacks_first ":" "http").
    simpl. repeat split; discriminate.
  - exists "https", post. split; [by right|].
    apply (firstSplit_of_index "://" "https" post), (indexNat_lacks_first ":" "https").
    simpl. repeat split; discriminate.
Qed.

(** Whatever repository URL is given, the URL that [cloneRepo] passes to git
    for the normalized URL is the scheme ([http] or [https]), the
    credentials, an at-sign and the rest, and what is logged for it shows
    the marker in place of the credentials. *)
Theorem normalized_url_authenticated TrimSpace raw gs :
  repoURL gs = normalizeRepoURL TrimSpace raw ->
  username gs <> "" -> token gs <> "" ->
  lacks "@" (username gs) -> lacks "@" (token gs) ->
  exists scheme rest,
    (scheme = "http" \/ scheme = "https")
    /\ getAuthenticatedURL gs
       = scheme ++ "://" ++ (username gs ++ ":" ++ token gs) ++ "@" ++ rest
    /\ sanitizeURLForLogging (getAuthenticatedURL gs)
       = scheme ++ "://" ++ "***" ++ "@" ++ rest.
Proof.
  intros Hurl Huser Htoken Hlu Hlt.
  destruct (normalized_split TrimSpace raw) as (scheme & post & Hscheme & Hsplit).
  rewrite <- Hurl in Hsplit.
  assert (Hpost : exists rest,
            (exists cred, post = cred ++ "@" ++ rest /\ lacks "@" cred)
            \/ (post = rest /\ lacks "@" post)).
  { destruct (split_first_at post) as [Hl|(cred & rest & Heq & Hl)]; eauto. }
  destruct Hpost as [rest Hpost]. exists scheme, rest.
  split; [done|]. split.
  - by apply (authenticated_shape gs scheme post).
  - by apply (sanitize_authenticated gs scheme post).
Qed.

(** The short form [octo/hello] with the pair [alice:s3cr3t]. *)
Lemma normalized_url_authenticated_witness :
  exists scheme rest,
    (scheme = "http" \/ scheme = "https")
    /\ getAuthenticatedURL
         (syncOf (normalizeRepoURL (fun s => s) "octo/hello") "alice" "s3cr3t")
       = scheme ++ "://" ++ ("alice" ++ ":" ++ "s3cr3t") ++ "@" ++ rest
    /\ sanitizeURLForLogging
         (getAuthenticatedURL
            (syncOf (normalizeRepoURL (fun s => s) "octo/hello") "alice" "s3cr3t"))
       = scheme ++ "://" ++ "***" ++ "@" ++ rest.
Proof.
  apply (normalized_url_authenticated (fun s => s) "octo/hello"
           (syncOf (normalizeRepoURL (fun s => s) "octo/hello") "alice" "s3cr3t")).
  - reflexivity.
  - discriminate.
  - discriminate.
  - vm_compute. repeat split; discriminate.
  - vm_compute. repeat split; discriminate.
Defined.

End RemoteSyncURLs.

(** * More properties of the value-matching rule *)

Module MatcherKinds.
Import GoStrings GoValue Types Matcher Float64 ValueKinds.

Lemma SFeqb_refl x : SFeqb x x = negb (isNaN x).
Proof.
  destruct x as [[]|[]| |s m e]; try reflexivity.
  simpl. by apply SFeqb_finite.
Qed.

Lemma String_eqb_sym (s t : string) : String.eqb s t = String.eqb t s.
Proof.
  destruct (String.eqb_spec s t) as [->|Hne].
  - by rewrite String.eqb_refl.
  - symmetry. apply String.eqb_neq. congruence.
Qed.

Lemma IntKind_eqb_sym k k' : IntKind_eqb k k' = IntKind_eqb k' k.
Proof. by destruct k, k'. Qed.

(** The value-matching rule is symmetric: which of the two values comes from
    the fixture and which from the call makes no difference, also when the
    comparison panics. *)
Theorem valuesMatch_symmetric expected actual :
  valuesMatch expected actual = valuesMatch actual expected.
Proof.
  destruct expected as [|b|s|k n|f|f|m|l], actual as [|b'|s'|k' n'|f'|f'|m'|l'];
    unfold valuesMatch, toFloat64, asString, asBool, ifaceEq; cbn [andb];
    try reflexivity; f_equal;
    first [ apply SFeqb_sym | apply String_eqb_sym | by destruct b, b' ].
Qed.

Lemma valuesMatch_string s t :
  valuesMatch (VString s) (VString t) = Ret true <-> s = t.
Proof.
  change (valuesMatch (VString s) (VString t)) with (Ret (A:=bool) (String.eqb s t)).
  destruct (String.eqb_spec s t); split; congruence.
Qed.

Lemma valuesMatch_bool b c :
  valuesMatch (VBool b) (VBool c) = Ret true <-> b = c.
Proof. by destruct b, c. Qed.

(** Values of different kinds never match: a string never matches a number
    or a boolean, whatever it spells, and nil matches nil only. Two strings
    match exactly when they are equal, and so do two booleans. *)
Theorem valuesMatch_same_kind :
  (forall expected actual,
     valuesMatch expected actual = Ret true -> kindOf expected = kindOf actual)
  /\ (forall s t, valuesMatch (VString s) (VString t) = Ret true <-> s = t)
  /\ (forall b c, valuesMatch (VBool b) (VBool c) = Ret true <-> b = c)
  /\ (forall actual, valuesMatch VNil actual = Ret true <-> actual = VNil).
Proof.
  split; [|split; [exact valuesMatch_string|split; [exact valuesMatch_bool|]]].
  - intros expected actual.
    by destruct expected, actual; try reflexivity; intros H.
  - intros actual. by destruct actual.
Qed.

(** The string ["5"] and the integer [5] are of different kinds, so they do
    not match. *)
Lemma valuesMatch_same_kind_witness :
  valuesMatch (VString "5") (VInt KInt 5) <> Ret true.
Proof.
  intros H. apply (proj1 valuesMatch_same_kind) in H. discriminate.
Defined.

(** A value matches itself unless it is a mapping, a sequence or NaN. *)
Lemma valuesMatch_self v :
  valuesMatch v v = Ret true <->
  comparable (typeOf v) = true /\ isNaN (toFloat64 v).1 = false.
Proof.
  destruct (isNumeric v) eqn:Hnum.
  - rewrite MatcherValues.valuesMatch_numeric, SFeqb_refl by done.
    replace (comparable (typeOf v)) with true by (by destruct v).
    destruct (isNaN _); split; try done. by intros [_ ?].
  - destruct v as [|b|s|k n|f|f|m|l]; try discriminate Hnum.
    + done.
    + by destruct b.
    + change (valuesMatch (VString s) (VString s))
        with (Ret (A:=bool) (String.eqb s s)).
      by rewrite String.eqb_refl.
    + split; [done | by intros [? _]].
    + split; [done | by intros [? _]].
Qed.

Section Order.

Variable rangeOrder : gmap string Value -> list (string * Value).
Hypothesis rangeOrder_perm : forall m, rangeOrder m ≡ₚ map_to_list m.

Lemma matchArguments_scalars (input : gmap string Value) :
  (forall key value,
     input !! key = Some value ->
     comparable (typeOf value) = true /\ isNaN (toFloat64 value).1 = false) ->
  matchArguments rangeOrder input input = Ret true.
Proof.
  rewrite (MatcherValues.matchArguments_true rangeOrder rangeOrder_perm).
  intros H key value Hkey. exists value. split; [done|].
  apply valuesMatch_self. eauto.
Qed.

(** A call with exactly the arguments a fixture expects matches it, unless
    one of them is a mapping, a sequence or NaN: a fixture matches its own
    input exactly when every value in it is a scalar other than NaN. *)
Theorem matchArguments_self (input : gmap string Value) :
  matchArguments rangeOrder input input = Ret true <->
  forall key value,
    input !! key = Some value ->
    comparable (typeOf value) = true /\ isNaN (toFloat64 value).1 = false.
Proof.
  split; [|apply matchArguments_scalars].
  rewrite (MatcherValues.matchArguments_true rangeOrder rangeOrder_perm).
  intros H key value Hkey. destruct (H key value Hkey) as (v & Hv & Hm).
  rewrite Hkey in Hv. injection Hv as <-. by apply valuesMatch_self.
Qed.

(** Dropping constraints keeps a match: when a fixture matches a call, so
    does every fixture that expects a part of its arguments. *)
Theorem matchArguments_fewer_constraints (expected' expected actual : gmap string Value) :
  expected' ⊆ expected ->
  matchArguments rangeOrder expected actual = Ret true ->
  matchArguments rangeOrder expected' actual = Ret true.
Proof.
  rewrite !(MatcherValues.matchArguments_true rangeOrder rangeOrder_perm).
  intros Hsub H key value Hkey. apply H.
  by apply (lookup_weaken expected').
Qed.

End Order.

(** The fixture input [{message: Hello}] matches itself. *)
Lemma matchArguments_self_witness :
  matchArguments map_to_list {[ "message" := VString "Hello" ]}
    {[ "message" := VString "Hello" ]} = Ret true.
Proof.
  apply (matchArguments_self map_to_list (fun m => reflexivity _)).
  intros key value Hkey. apply lookup_singleton_Some in Hkey as [_ <-].
  split; reflexivity.
Defined.

(** A fixture that expects [a = 1] and [b = "x"], and the one that expects
    [a = 1] only. *)
Lemma matchArguments_fewer_constraints_witness :
  matchArguments map_to_list {[ "a" := VInt KInt 1 ]}
    {[ "a" := VFloat64 (float64_of_int 1); "b" := VString "x" ]} = Ret true.
Proof.
  apply (matchArguments_fewer_constraints map_to_list (fun m => reflexivity _)
           {[ "a" := VInt KInt 1 ]}
           {[ "a" := VInt KInt 1; "b" := VString "x" ]}).
  - apply insert_mono, map_empty_subseteq.
  - vm_compute. reflexivity.
Defined.

End MatcherKinds.

(** * Matching as a partial equivalence *)

Module MatcherEquivalence.
Import GoStrings GoValue Types Matcher Float64 ValueKinds.

Lemma SFeqb_trans x y z : SFeqb x y = true -> SFeqb y z = true -> SFeqb x z = true.
Proof.
  destruct x as [[]|[]| |[] m e], y as [[]|[]| |[] m' e'], z as [[]|[]| |[] m'' e''];
    try reflexivity; try discriminate;
    rewrite !SFeqb_finite; intuition congruence.
Qed.

(** Matching is transitive: when [valuesMatch] accepts a first value with a
    second and the second with a third, it accepts the first with the
    third. With symmetry, the values that match one another form classes:
    the numbers of one binary64 value, each string, each boolean, nil. *)
Theorem valuesMatch_transitive a b c :
  valuesMatch a b = Ret true -> valuesMatch b c = Ret true ->
  valuesMatch a c = Ret true.
Proof.
  intros Hab Hbc.
  destruct (isNumeric a) eqn:Ha, (isNumeric b) eqn:Hb, (isNumeric c) eqn:Hc;
    try (destruct a, b; try discriminate Ha; try discriminate Hb; discriminate Hab);
    try (destruct b, c; try discriminate Hb; try discriminate Hc; discriminate Hbc).
  - rewrite MatcherValues.valuesMatch_numeric in Hab, Hbc |- * by done.
    injection Hab as Hab. injection Hbc as Hbc.
    by rewrite (SFeqb_trans _ _ _ Hab Hbc).
  - destruct a as [|x|s|k n|f|f|m|l], b as [|y|t|k' n'|f'|f'|m'|l'];
      try discriminate Ha; try discriminate Hb; try discriminate Hab;
      destruct c as [|z|u|k'' n''|f''|f''|m''|l''];
      try discriminate Hc; try discriminate Hbc.
    + done.
    + apply MatcherKinds.valuesMatch_bool in Hab, Hbc. subst.
      by apply MatcherKinds.valuesMatch_bool.
    + apply MatcherKinds.valuesMatch_string in Hab, Hbc. subst.
      by apply MatcherKinds.valuesMatch_string.
Qed.

(** The integer [5], the binary64 number [5.0] and the [uint8] [5]. *)
Lemma valuesMatch_transitive_witness :
  valuesMatch (VInt KInt 5) (VInt KUint8 5) = Ret true.
Proof.
  apply (valuesMatch_transitive (VInt KInt 5) (VFloat64 float64_5) (VInt KUint8 5));
    vm_compute; reflexivity.
Defined.

End MatcherEquivalence.

(** * More properties of the fixture search *)

Module MatcherOutcome.
Import GoStrings GoValue Types Matcher TestCaseStore.

Section Search.

Variable os_Stat : string -> StatResult.
Variable os_ReadFile : string -> option string.
Variable yaml_Unmarshal : string -> option TestCaseConfig.
Variable filepath_Join : string -> string -> string.
Variable rangeOrder : gmap string Value -> list (string * Value).
Variable testCasesDir : string.

Abbreviation fileOf := (testCaseFile filepath_Join testCasesDir).
Abbreviation load := (loadTestCase os_ReadFile yaml_Unmarshal).
Abbreviation search :=
  (searchLoop os_Stat os_ReadFile yaml_Unmarshal filepath_Join rangeOrder
     testCasesDir).
Abbreviation find :=
  (FindMatchingTestCase os_Stat os_ReadFile yaml_Unmarshal filepath_Join
     rangeOrder testCasesDir).
Abbreviation skips :=
  (passedOver os_Stat os_ReadFile yaml_Unmarshal filepath_Join rangeOrder
     testCasesDir).
Abbreviation hits :=
  (matchesAt os_Stat os_ReadFile yaml_Unmarshal filepath_Join rangeOrder
     testCasesDir).
Abbreviation faults :=
  (faultsAt os_Stat os_ReadFile yaml_Unmarshal filepath_Join rangeOrder
     testCasesDir).

Variable toolName : string.
Variable args : gmap string Value.

(** What the loop does with one fixture number. *)
Lemma classify i :
  skips toolName args i
  \/ (exists testCase, hits toolName args i testCase)
  \/ (exists r, faults toolName args i r).
Proof.
  unfold passedOver, matchesAt, faultsAt.
  destruct (os_Stat (fileOf toolName i)) eqn:Hstat; [| by left; left |];
    (destruct (load (fileOf toolName i)) as [testCase|] eqn:Hload; [|by left; right; left]);
    (destruct (matchArguments rangeOrder (Input testCase) args) as [[|]|r] eqn:Hm;
     [ right; left; exists testCase; by repeat split
     | left; right; right; by exists testCase
     | right; right; exists r; split; [done | by exists testCase] ]).
Qed.

Lemma skips_not_hits i testCase :
  skips toolName args i -> hits toolName args i testCase -> False.
Proof.
  intros [Hs|[Hl|(tc & Hl & Hm)]] (Hstat & Hload & Hmatch); congruence.
Qed.

(** Every run of the loop is accounted for: all fixtures are passed over,
    or the first one that is not matches, or panics. *)
Lemma search_cases indices :
  (Forall (skips toolName args) indices
   /\ (search toolName args indices).2 = Ret None)
  \/ (exists before i rest,
        indices = (before ++ i :: rest)%list
        /\ Forall (skips toolName args) before
        /\ ((exists testCase,
               hits toolName args i testCase
               /\ (search toolName args indices).2 = Ret (Some testCase))
            \/ (exists r,
                  faults toolName args i r
                  /\ (search toolName args indices).2 = Panic r))).
Proof.
  induction indices as [|i rest IH].
  - left. by split.
  - destruct (classify i) as [Hskip|[[testCase Hhit]|[r Hfault]]].
    + rewrite (MatcherSearch.search_skip _ _ _ _ _ _ _ _ _ _ Hskip).
      destruct IH as [[Hall Hres]|(before & j & rest' & -> & Hbefore & Hres)].
      * left. split; [by constructor | done].
      * right. exists (i :: before), j, rest'. split; [done|].
        split; [by constructor | done].
    + right. exists [], i, rest. split; [done|]. split; [constructor|].
      left. exists testCase. split; [done|].
      by apply MatcherSearch.search_hit.
    + right. exists [], i, rest. split; [done|]. split; [constructor|].
      right. exists r. split; [done|].
      destruct Hfault as (Hstat & testCase & Hload & Hm).
      by apply (MatcherSearch.search_panic _ _ _ _ _ _ _ _ _ _ testCase).
Qed.

(** The position of an element of the list [1, ..., 100]. *)
Lemma seqZ_split before i rest :
  seqZ 1 100 = (before ++ i :: rest)%list ->
  1 <= i <= 100 /\ forall j, 1 <= j < i -> j ∈ before.
Proof.
  intros Heq.
  assert (Hi : seqZ 1 100 !! length before = Some i).
  { rewrite Heq. by apply list_lookup_middle. }
  apply lookup_seqZ in Hi as [-> Hlen]. split; [lia|].
  intros j Hj.
  assert (Hk : seqZ 1 100 !! Z.to_nat (j - 1) = Some j).
  { apply lookup_seqZ. lia. }
  rewrite Heq, lookup_app_l in Hk by lia.
  apply list_elem_of_lookup. eauto.
Qed.

Lemma all_skipped :
  Forall (skips toolName args) (seqZ 1 100) ->
  forall j, 1 <= j <= 100 -> skips toolName args j.
Proof.
  intros Hall j Hj. rewrite Forall_forall in Hall. apply Hall.
  apply elem_of_seqZ. lia.
Qed.

Lemma before_skipped before i :
  Forall (skips toolName args) before ->
  (forall j, 1 <= j < i -> j ∈ before) ->
  forall j, 1 <= j < i -> skips toolName args j.
Proof.
  intros Hall Hin j Hj. rewrite Forall_forall in Hall. auto.
Qed.

(** Every answer of [FindMatchingTestCase] is accounted for. A fixture is
    returned only if it is the lowest-numbered fixture from 1 to 100 that is
    not passed over and it matches the call, or if all of them are passed
    over and it is the configured default; a panic comes from the
    lowest-numbered fixture that is not passed over; and the answer is
    "not found" only when all hundred are passed over and there is no usable
    default. *)
Theorem find_accounted_for defaultTestCase :
  (forall testCase,
     (find toolName args defaultTestCase).2 = Ret (Found testCase) ->
     (exists i, 1 <= i <= 100
                /\ hits toolName args i testCase
                /\ forall j, 1 <= j < i -> skips toolName args j)
     \/ ((forall j, 1 <= j <= 100 -> skips toolName args j)
         /\ 0 < defaultTestCase
         /\ os_Stat (fileOf toolName defaultTestCase) = StatOk
         /\ load (fileOf toolName defaultTestCase) = Some testCase))
  /\ (forall r,
        (find toolName args defaultTestCase).2 = Panic r ->
        exists i, 1 <= i <= 100
                  /\ faults toolName args i r
                  /\ forall j, 1 <= j < i -> skips toolName args j)
  /\ ((find toolName args defaultTestCase).2 = Ret NotFound ->
      (forall j, 1 <= j <= 100 -> skips toolName args j)
      /\ (defaultTestCase <= 0
          \/ os_Stat (fileOf toolName defaultTestCase) <> StatOk
          \/ load (fileOf toolName defaultTestCase) = None)).
Proof.
  rewrite MatcherSearch.find_snd.
  destruct (search_cases (seqZ 1 100))
    as [[Hall Hres]|(before & i & rest & Heq & Hbefore & Hres)].
  - rewrite Hres. pose proof (all_skipped Hall) as Hskip.
    unfold useDefault.
    destruct (Z.ltb_spec 0 defaultTestCase) as [Hd|Hd].
    + destruct (os_Stat (fileOf toolName defaultTestCase)) eqn:Hstat;
        [destruct (load (fileOf toolName defaultTestCase)) as [tc|] eqn:Hload| |];
        (split; [|split]); simpl; try discriminate;
        try (intros _; split; [done|]; right; by (left + right));
        intros testCase [= <-]; right; by repeat split.
    + (split; [|split]); simpl; try discriminate.
      intros _. split; [done|]. left. lia.
  - apply seqZ_split in Heq as [Hi Hin].
    pose proof (before_skipped _ _ Hbefore Hin) as Hskip.
    destruct Hres as [(tc & Hhit & ->)|(r & Hfault & ->)];
      (split; [|split]); try discriminate.
    + intros testCase [= <-]. left. by exists i.
    + intros r' [= <-]. by exists i.
Qed.

(** A fixture with no expected arguments, wherever it stands among the first
    hundred, ends every search: for every call the answer is a fixture or a
    panic, never "not found", and the configured default plays no part. *)
Theorem wildcard_ends_search i testCase defaultTestCase defaultTestCase' :
  1 <= i <= 100 ->
  os_Stat (fileOf toolName i) <> StatNotExist ->
  load (fileOf toolName i) = Some testCase ->
  Input testCase = ∅ ->
  (find toolName args defaultTestCase).2 <> Ret NotFound
  /\ (find toolName args defaultTestCase).2
     = (find toolName args defaultTestCase').2.
Proof.
  intros Hi Hstat Hload Hinput.
  assert (Hhit : hits toolName args i testCase).
  { repeat split; try done. by rewrite Hinput. }
  rewrite !MatcherSearch.find_snd.
  destruct (search_cases (seqZ 1 100))
    as [[Hall Hres]|(before & k & rest & Heq & Hbefore & Hres)].
  - destruct (skips_not_hits i testCase); [|done]. by apply (all_skipped Hall).
  - by destruct Hres as [(tc & _ & ->)|(r & _ & ->)].
Qed.

End Search.

(** On the directory of the scenario, the call [{message: Bye}] of
    [mock_echo] is answered by the wildcard fixture 3, after fixtures 1 and
    2 were passed over. *)
Lemma find_accounted_for_witness :
  (exists i, 1 <= i <= 100
     /\ matchesAt Scenario.stat Scenario.readFile Scenario.decode Scenario.join
          map_to_list "testcases" "mock_echo" {[ "message" := VString "Bye" ]} i
          Scenario.wildcardFixture
     /\ forall j, 1 <= j < i ->
          passedOver Scenario.stat Scenario.readFile Scenario.decode Scenario.join
            map_to_list "testcases" "mock_echo" {[ "message" := VString "Bye" ]} j)
  \/ ((forall j, 1 <= j <= 100 ->
         passedOver Scenario.stat Scenario.readFile Scenario.decode Scenario.join
           map_to_list "testcases" "mock_echo" {[ "message" := VString "Bye" ]} j)
      /\ 0 < 0
      /\ Scenario.stat
           (testCaseFile Scenario.join "testcases" "mock_echo" 0) = StatOk
      /\ loadTestCase Scenario.readFile Scenario.decode
           (testCaseFile Scenario.join "testcases" "mock_echo" 0)
         = Some Scenario.wildcardFixture).
Proof.
  apply (proj1 (find_accounted_for Scenario.stat Scenario.readFile Scenario.decode
                  Scenario.join map_to_list "testcases" "mock_echo"
                  {[ "message" := VString "Bye" ]} 0)
           Scenario.wildcardFixture).
  vm_compute. reflexivity.
Defined.

(** On the same directory, the wildcard fixture 3 of [mock_echo] makes the
    default irrelevant. *)
Lemma wildcard_ends_search_witness :
  (FindMatchingTestCase Scenario.stat Scenario.readFile Scenario.decode
     Scenario.join map_to_list "testcases" "mock_echo"
     {[ "message" := VString "Bye" ]} 0).2 <> Ret NotFound
  /\ (FindMatchingTestCase Scenario.stat Scenario.readFile Scenario.decode
        Scenario.join map_to_list "testcases" "mock_echo"
        {[ "message" := VString "Bye" ]} 0).2
     = (FindMatchingTestCase Scenario.stat Scenario.readFile Scenario.decode
          Scenario.join map_to_list "testcases" "mock_echo"
          {[ "message" := VString "Bye" ]} 7).2.
Proof.
  apply (wildcard_ends_search Scenario.stat Scenario.readFile Scenario.decode
           Scenario.join map_to_list "testcases" "mock_echo"
           {[ "message" := VString "Bye" ]} 3 Scenario.wildcardFixture 0 7).
  - lia.
  - vm_compute. discriminate.
  - vm_compute. reflexivity.
  - reflexivity.
Defined.

Section SaveFind.

Variable FS : Type.
Variable os_MkdirAll : string -> FS -> FS * bool.
Variable os_WriteFile : string -> string -> FS -> FS * bool.
Variable os_Stat : FS -> string -> StatResult.
Variable os_ReadFile : FS -> string -> option string.
Variable yaml_Marshal : TestCaseConfig -> option string.
Variable yaml_Unmarshal : string -> option TestCaseConfig.
Variable filepath_Join : string -> string -> string.
Variable rangeOrder : gmap string Value -> list (string * Value).
Variable testCasesDir : string.

(** A file that was written is there and reads back. *)
Hypothesis write_then_read : forall path data fs fs',
  os_WriteFile path data fs = (fs', true) ->
  os_Stat fs' path = StatOk /\ os_ReadFile fs' path = Some data.

Lemma SaveTestCase_written toolName testCaseNumber testCase fs fs' :
  SaveTestCase FS os_MkdirAll os_WriteFile yaml_Marshal filepath_Join testCasesDir
    toolName testCaseNumber testCase fs = (fs', None) ->
  exists data,
    yaml_Marshal testCase = Some data
    /\ os_Stat fs' (testCaseFile filepath_Join testCasesDir toolName testCaseNumber)
       = StatOk
    /\ os_ReadFile fs' (testCaseFile filepath_Join testCasesDir toolName testCaseNumber)
       = Some data.
Proof.
  unfold SaveTestCase.
  destruct (os_MkdirAll testCasesDir fs) as [fs1 [|]]; [|discriminate]. cbn [negb].
  destruct (yaml_Marshal testCase) as [data|]; [|discriminate].
  destruct (os_WriteFile _ data fs1) as [fs2 [|]] eqn:Hwrite; [|discriminate].
  cbn [negb]. intros [= <-]. exists data. split; [done|].
  by apply (write_then_read _ _ fs1).
Qed.

(** After [SaveTestCase] has stored a fixture under a number from 1 to 100,
    the search returns it for every call it matches, when the fixtures with
    lower numbers are passed over. *)
Lemma save_then_find toolName testCaseNumber testCase fs fs' args defaultTestCase :
  SaveTestCase FS os_MkdirAll os_WriteFile yaml_Marshal filepath_Join testCasesDir
    toolName testCaseNumber testCase fs = (fs', None) ->
  (forall data, yaml_Marshal testCase = Some data ->
                yaml_Unmarshal data = Some testCase) ->
  1 <= testCaseNumber <= 100 ->
  matchArguments rangeOrder (Input testCase) args = Ret true ->
  (forall j, 1 <= j < testCaseNumber ->
     passedOver (os_Stat fs') (os_ReadFile fs') yaml_Unmarshal filepath_Join
       rangeOrder testCasesDir toolName args j) ->
  (FindMatchingTestCase (os_Stat fs') (os_ReadFile fs') yaml_Unmarshal
     filepath_Join rangeOrder testCasesDir toolName args defaultTestCase).2
  = Ret (Found testCase).
Proof.
  intros Hsave Hyaml Hn Hmatch Hbefore.
  apply SaveTestCase_written in Hsave as (data & Hdata & Hstat & Hread).
  apply (MatcherSearch.find_first_match _ _ _ _ _ _ _ _ testCaseNumber); try done.
  unfold matchesAt, loadTestCase. rewrite Hstat, Hread.
  split; [done|]. split; [by apply Hyaml | done].
Qed.

End SaveFind.

End MatcherOutcome.

(** * Properties of the server *)

Module ServerSpec.
Import GoStrings GoValue Types Matcher Registry TestCaseStore Server.

Section Requests.

Variable os_Stat : string -> StatResult.
Variable os_ReadFile : string -> option string.
Variable yaml_Unmarshal : string -> option TestCaseConfig.
Variable filepath_Join : string -> string -> string.
Variable rangeOrder : gmap string Value -> list (string * Value).
Variable json_Unmarshal_InitializeParams : string -> option string.
Variable json_Unmarshal_ToolCall : string -> string + (string * gmap string Value).
Variable Sprint_args : gmap string Value -> string.

Abbreviation process :=
  (processRequest os_Stat os_ReadFile yaml_Unmarshal filepath_Join rangeOrder
     json_Unmarshal_InitializeParams json_Unmarshal_ToolCall Sprint_args).
Abbreviation call :=
  (handleCallTool os_Stat os_ReadFile yaml_Unmarshal filepath_Join rangeOrder
     json_Unmarshal_ToolCall Sprint_args).
Abbreviation execute :=
  (executeMockTool os_Stat os_ReadFile yaml_Unmarshal filepath_Join rangeOrder
     Sprint_args).
Abbreviation find :=
  (FindMatchingTestCase os_Stat os_ReadFile yaml_Unmarshal filepath_Join rangeOrder).

Lemma wellFormed_error req code message data :
  wellFormed req (errorResponse req code message data).
Proof. split; [done|]. split; [done|]. right. by split. Qed.

Lemma wellFormed_result req result :
  wellFormed req (resultResponse req result).
Proof. split; [done|]. split; [done|]. left. by split. Qed.

Lemma execute_cases s name args :
  let defaultTestCase :=
    match GetTool (toolManager s) name with
    | Some tool => DefaultTestCase tool
    | None => 0
    end in
  match (find (testCasesDir s) name args defaultTestCase).2 with
  | Ret (Found testCase) => (execute s name args).2 = Ret (Response testCase)
  | Ret NotFound =>
      exists text,
        (execute s name args).2
        = Ret {| Content := [ {| cbType := "text"; cbText := text; cbJSON := VNil |} ];
                 IsError := true |}
  | Panic r => (execute s name args).2 = Panic r
  end.
Proof.
  unfold executeMockTool. cbv zeta.
  destruct (find _ _ _ _) as [lines [[testCase|]|r]]; simpl; eauto.
Qed.

Lemma call_registered s req name args tool :
  json_Unmarshal_ToolCall (Params req) = inr (name, args) ->
  GetTool (toolManager s) name = Some tool ->
  (call s req).2
  = match (execute s name args).2 with
    | Ret result => Ret (resultResponse req (CallResult result))
    | Panic r => Panic r
    end.
Proof.
  intros Hdecode Htool. unfold handleCallTool. rewrite Hdecode, Htool.
  by destruct (execute s name args) as [lines [result|r]].
Qed.

Lemma process_call s req :
  Method req = "tools/call" -> process s req = call s req.
Proof. unfold processRequest. by intros ->. Qed.

(** Every response is well formed: whatever the request, when
    [processRequest] returns, the response carries version 2.0 and the
    identifier of the request, and holds a result or an error, never both
    and never neither. *)
Theorem processRequest_well_formed s req lines resp :
  process s req = (lines, Ret resp) -> wellFormed req resp.
Proof.
  unfold processRequest, handleInitialize, handleListTools, handleCallTool.
  destruct (String.eqb (Method req) "initialize").
  { destruct (json_Unmarshal_InitializeParams _); intros [= _ <-];
      [apply wellFormed_error | apply wellFormed_result]. }
  destruct (String.eqb (Method req) "tools/list").
  { intros [= _ <-]. apply wellFormed_result. }
  destruct (String.eqb (Method req) "tools/call");
    [|intros [= _ <-]; apply wellFormed_error].
  destruct (json_Unmarshal_ToolCall _) as [err|[name args]];
    [intros [= _ <-]; apply wellFormed_error|].
  destruct (GetTool _ _); [|intros [= _ <-]; apply wellFormed_error].
  destruct (execute s name args) as [lines' [result|r]]; [|discriminate].
  intros [= _ <-]. apply wellFormed_result.
Qed.

(** The protocol errors. A response carries an error only in three cases:
    the method is none of [initialize], [tools/list] and [tools/call]
    (code -32601, "Method not found"); the called tool is not registered
    (code -32601, "Tool not found"); the parameters of [initialize] or
    [tools/call] do not decode (code -32602, "Invalid params", with the
    decoder's message). In each case nothing is logged, so no fixture was
    looked for. A call that no fixture answers is not among them. *)
Theorem processRequest_errors s req lines resp e :
  process s req = (lines, Ret resp) ->
  Error resp = Some e ->
  lines = []
  /\ ((Code e = -32601 /\ Message e = "Method not found" /\ Data e = None
       /\ Method req <> "initialize" /\ Method req <> "tools/list"
       /\ Method req <> "tools/call")
      \/ (Code e = -32601 /\ Message e = "Tool not found" /\ Data e = None
          /\ Method req = "tools/call"
          /\ exists name args,
               json_Unmarshal_ToolCall (Params req) = inr (name, args)
               /\ GetTool (toolManager s) name = None)
      \/ (Code e = -32602 /\ Message e = "Invalid params"
          /\ ((Method req = "initialize"
               /\ json_Unmarshal_InitializeParams (Params req) = Data e
               /\ is_Some (Data e))
              \/ (Method req = "tools/call"
                  /\ exists err, json_Unmarshal_ToolCall (Params req) = inl err
                                 /\ Data e = Some err)))).
Proof.
  unfold processRequest, handleInitialize, handleListTools, handleCallTool.
  destruct (String.eqb_spec (Method req) "initialize") as [Hinit|Hinit].
  { destruct (json_Unmarshal_InitializeParams _) as [err|] eqn:Hdecode;
      intros [= <- <-]; [|discriminate].
    intros [= <-]. split; [done|]. right. right. simpl. eauto 10. }
  destruct (String.eqb_spec (Method req) "tools/list") as [Hlist|Hlist].
  { intros [= <- <-]. discriminate. }
  destruct (String.eqb_spec (Method req) "tools/call") as [Hcall|Hcall].
  - destruct (json_Unmarshal_ToolCall _) as [err|[name args]] eqn:Hdecode.
    { intros [= <- <-] [= <-]. split; [done|]. right. right. simpl. eauto 10. }
    destruct (GetTool _ _) eqn:Htool.
    + destruct (execute s name args) as [lines' [result|r]]; [|discriminate].
      intros [= <- <-]. discriminate.
    + intros [= <- <-] [= <-]. split; [done|]. right. left. simpl. eauto 10.
  - intros [= <- <-] [= <-]. split; [done|]. left. by repeat split.
Qed.

(** The configured default is served: when a registered tool is called, the
    fixtures 1 to 100 are all passed over and the fixture with the tool's
    [defaultTestCase] number exists and loads, the response carries that
    fixture's [response], whatever the arguments. *)
Theorem default_fixture_served s req name args tool testCase :
  Method req = "tools/call" ->
  json_Unmarshal_ToolCall (Params req) = inr (name, args) ->
  GetTool (toolManager s) name = Some tool ->
  0 < DefaultTestCase tool ->
  (forall j, 1 <= j <= 100 ->
     passedOver os_Stat os_ReadFile yaml_Unmarshal filepath_Join rangeOrder
       (testCasesDir s) name args j) ->
  os_Stat (testCaseFile filepath_Join (testCasesDir s) name (DefaultTestCase tool))
  = StatOk ->
  loadTestCase os_ReadFile yaml_Unmarshal
    (testCaseFile filepath_Join (testCasesDir s) name (DefaultTestCase tool))
  = Some testCase ->
  (process s req).2 = Ret (resultResponse req (CallResult (Response testCase))).
Proof.
  intros Hmethod Hdecode Htool Hdefault Hskip Hstat Hload.
  rewrite (process_call _ _ Hmethod), (call_registered _ _ _ _ _ Hdecode Htool).
  pose proof (execute_cases s name args) as Hexec. cbv zeta in Hexec.
  rewrite Htool, (MatcherSearch.find_no_match _ _ _ _ _ _ _ _ _ Hskip) in Hexec.
  apply Z.ltb_lt in Hdefault. rewrite Hdefault, Hstat, Hload in Hexec.
  by rewrite Hexec.
Qed.

End Requests.

(** The list of tools of the echo server. *)
Lemma processRequest_well_formed_witness :
  wellFormed (requestOf "tools/list" "")
    (handleListTools echoServer (requestOf "tools/list" "")).
Proof.
  apply (processRequest_well_formed Scenario.stat Scenario.readFile Scenario.decode
           Scenario.join map_to_list decodeInitialize decodeCall (fun _ => "map[]")
           echoServer (requestOf "tools/list" "") []).
  reflexivity.
Defined.

(** A call of a tool that is not registered. *)
Lemma processRequest_errors_witness :
  ([] : list ServerLog) = []
  /\ ((-32601 = -32601 /\ "Tool not found" = "Method not found" /\ None = @None string
       /\ "tools/call" <> "initialize" /\ "tools/call" <> "tools/list"
       /\ "tools/call" <> "tools/call")
      \/ (-32601 = -32601 /\ "Tool not found" = "Tool not found" /\ None = @None string
          /\ "tools/call" = "tools/call"
          /\ exists name args,
               decodeCall "lost" = inr (name, args)
               /\ GetTool (toolManager echoServer) name = None)
      \/ (-32601 = -32602 /\ "Tool not found" = "Invalid params"
          /\ (("tools/call" = "initialize"
               /\ decodeInitialize "lost" = None
               /\ is_Some (@None string))
              \/ ("tools/call" = "tools/call"
                  /\ exists err, decodeCall "lost" = inl err
                                 /\ None = Some err)))).
Proof.
  apply (processRequest_errors Scenario.stat Scenario.readFile Scenario.decode
           Scenario.join map_to_list decodeInitialize decodeCall (fun _ => "map[]")
           echoServer (requestOf "tools/call" "lost") []
           (errorResponse (requestOf "tools/call" "lost") (-32601) "Tool not found" None)
           {| Code := -32601; Message := "Tool not found"; Data := None |}).
  - reflexivity.
  - reflexivity.
Defined.

(** Every fixture file holds the hello fixture, the call says [Bye], and
    fixture 1 is the default of the tool. *)
Lemma default_fixture_served_witness :
  (processRequest (fun _ => StatOk) (fun _ => Some "hello") decodeFixture
     Scenario.join map_to_list decodeInitialize decodeCall (fun _ => "map[]")
     defaultingServer (requestOf "tools/call" "echo bye")).2
  = Ret (resultResponse (requestOf "tools/call" "echo bye")
           (CallResult (Response Scenario.helloFixture))).
Proof.
  eapply (default_fixture_served (fun _ => StatOk) (fun _ => Some "hello") decodeFixture
            Scenario.join map_to_list decodeInitialize decodeCall (fun _ => "map[]")
            defaultingServer (requestOf "tools/call" "echo bye")
            "mock_echo" {[ "message" := VString "Bye" ]}).
  - reflexivity.
  - reflexivity.
  - reflexivity.
  - reflexivity.
  - intros j _. right. right. exists Scenario.helloFixture. split; reflexivity.
  - reflexivity.
  - reflexivity.
Defined.

Section SaveAndCall.

Variable FS : Type.
Variable os_MkdirAll : string -> FS -> FS * bool.
Variable os_WriteFile : string -> string -> FS -> FS * bool.
Variable os_Stat : FS -> string -> StatResult.
Variable os_ReadFile : FS -> string -> option string.
Variable yaml_Marshal : TestCaseConfig -> option string.
Variable yaml_Unmarshal : string -> option TestCaseConfig.
Variable filepath_Join : string -> string -> string.
Variable rangeOrder : gmap string Value -> list (string * Value).
Variable json_Decode_SaveRequest : string -> string + SaveRequest.
Variable json_Unmarshal_InitializeParams : string -> option string.
Variable json_Unmarshal_ToolCall : string -> string + (string * gmap string Value).
Variable Sprint_args : gmap string Value -> string.

Hypothesis rangeOrder_perm : forall m, rangeOrder m ≡ₚ map_to_list m.

(** A file that was written is there and reads back. *)
Hypothesis write_then_read : forall path data fs fs',
  os_WriteFile path data fs = (fs', true) ->
  os_Stat fs' path = StatOk /\ os_ReadFile fs' path = Some data.

Abbreviation save :=
  (HandleSaveTestCase FS os_MkdirAll os_WriteFile yaml_Marshal filepath_Join
     json_Decode_SaveRequest).

Lemma save_cases s method body fs :
  (method <> "POST" /\ save s method body fs = (fs, SaveMethodNotAllowed))
  \/ (method = "POST"
      /\ ((exists err, json_Decode_SaveRequest body = inl err
                       /\ save s method body fs = (fs, SaveInvalidRequest err))
          \/ (exists req,
                json_Decode_SaveRequest body = inr req
                /\ ((GetTool (toolManager s) (ToolName req) = None
                     /\ save s method body fs = (fs, SaveToolNotFound (ToolName req)))
                    \/ (is_Some (GetTool (toolManager s) (ToolName req))
                        /\ exists fs' outcome,
                             SaveTestCase FS os_MkdirAll os_WriteFile yaml_Marshal
                               filepath_Join (testCasesDir s) (ToolName req)
                               (TestCaseNumber req)
                               {| Input := saveInput req; Response := saveResponse req |}
                               fs = (fs', outcome)
                             /\ save s method body fs
                                = (fs', match outcome with
                                        | Some err => SaveFailed err
                                        | None =>
                                            SaveSucceeded
                                              ("Test case saved: " ++ ToolName req
                                               ++ "-test-case-"
                                               ++ itoa (TestCaseNumber req) ++ ".yaml")
                                        end)))))).
Proof.
  unfold HandleSaveTestCase.
  destruct (String.eqb_spec method "POST") as [->|Hne]; [right|by left].
  split; [done|]. cbn [negb].
  destruct (json_Decode_SaveRequest body) as [err|req]; [left; by exists err|].
  right. exists req. split; [done|].
  destruct (GetTool _ _) as [tool|]; [right|by left].
  split; [done|].
  destruct (SaveTestCase _ _ _ _ _ _ _ _ _ _) as [fs' [err|]] eqn:Hsave;
    by eexists _, _.
Qed.

(** A request to save a fixture is carried out only as a POST whose body
    decodes and names a registered tool: every request that is answered
    with 405 or 400 leaves the file system as it was, and an answer of 200
    or 500 means that the three conditions held. *)
Theorem save_only_for_registered_tool s method body fs fs' resp :
  save s method body fs = (fs', resp) ->
  (saveStatusCode resp = 405 \/ saveStatusCode resp = 400 -> fs' = fs)
  /\ (saveStatusCode resp = 200 \/ saveStatusCode resp = 500 ->
      method = "POST"
      /\ exists req,
           json_Decode_SaveRequest body = inr req
           /\ is_Some (GetTool (toolManager s) (ToolName req))).
Proof.
  destruct (save_cases s method body fs)
    as [[Hm ->]|[-> [(err & Hd & ->)|(req & Hd & [[Ht ->]|(Ht & fs2 & o & Hs & ->)])]]];
    try destruct o as [failure|]; intros [= <- <-];
    (split; intros [H|H]; try discriminate H; try done);
    (split; [done | by exists req]).
Qed.

(** A fixture saved through the server is served by it: after
    [HandleSaveTestCase] has answered that the fixture was saved, under a
    number from 1 to 100 and with expected arguments that are scalars other
    than NaN, a [tools/call] of the same tool with exactly those arguments
    is answered with the saved response, provided the decoder reads back
    what the encoder wrote and the fixtures with lower numbers are passed
    over. *)
Theorem saved_fixture_served s method body fs fs' message saved req :
  save s method body fs = (fs', SaveSucceeded message) ->
  json_Decode_SaveRequest body = inr saved ->
  (forall data,
     yaml_Marshal {| Input := saveInput saved; Response := saveResponse saved |}
     = Some data ->
     yaml_Unmarshal data
     = Some {| Input := saveInput saved; Response := saveResponse saved |}) ->
  1 <= TestCaseNumber saved <= 100 ->
  (forall key value,
     saveInput saved !! key = Some value ->
     comparable (typeOf value) = true
     /\ ValueKinds.isNaN (toFloat64 value).1 = false) ->
  (forall j, 1 <= j < TestCaseNumber saved ->
     passedOver (os_Stat fs') (os_ReadFile fs') yaml_Unmarshal filepath_Join
       rangeOrder (testCasesDir s) (ToolName saved) (saveInput saved) j) ->
  Method req = "tools/call" ->
  json_Unmarshal_ToolCall (Params req) = inr (ToolName saved, saveInput saved) ->
  (processRequest (os_Stat fs') (os_ReadFile fs') yaml_Unmarshal filepath_Join
     rangeOrder json_Unmarshal_InitializeParams json_Unmarshal_ToolCall
     Sprint_args s req).2
  = Ret (resultResponse req (CallResult (saveResponse saved))).
Proof.
  intros Hsave Hdecode Hyaml Hn Hscalars Hbefore Hmethod Hcall.
  destruct (save_cases s method body fs)
    as [[_ Heq]|[_ [(err & Hd & Heq)|(r & Hd & [[_ Heq]|(Ht & fs2 & o & Hs & Heq)])]]];
    rewrite Heq in Hsave; try discriminate.
  rewrite Hdecode in Hd. injection Hd as <-.
  destruct o as [err|]; [discriminate|]. injection Hsave as -> _.
  destruct Ht as [tool Htool].
  rewrite (process_call _ _ _ _ _ _ _ _ _ _ Hmethod).
  rewrite (call_registered _ _ _ _ _ _ _ _ _ _ _ _ Hcall Htool).
  pose proof (execute_cases (os_Stat fs') (os_ReadFile fs') yaml_Unmarshal
                filepath_Join rangeOrder Sprint_args s (ToolName saved)
                (saveInput saved)) as Hexec.
  cbv zeta in Hexec.
  rewrite (MatcherOutcome.save_then_find FS os_MkdirAll os_WriteFile os_Stat
             os_ReadFile yaml_Marshal yaml_Unmarshal filepath_Join rangeOrder
             (testCasesDir s) write_then_read _ _ _ fs fs' _ _ Hs Hyaml Hn) in Hexec.
  - by rewrite Hexec.
  - by apply (MatcherKinds.matchArguments_scalars rangeOrder rangeOrder_perm).
  - done.
Qed.

End SaveAndCall.

Lemma memWrite_then_read path data (fs fs' : gmap string string) :
  memWriteFile path data fs = (fs', true) ->
  memStat fs' path = StatOk /\ memReadFile fs' path = Some data.
Proof.
  intros [= <-]. unfold memStat, memReadFile. by rewrite lookup_insert_eq.
Qed.

(** A request without body. *)
Lemma save_only_for_registered_tool_witness :
  ∅ = (∅ : gmap string string).
Proof.
  apply (proj1 (save_only_for_registered_tool (gmap string string) memMkdirAll
                  memWriteFile encodeFixture Scenario.join decodeSave
                  echoServer "POST" "" ∅ ∅
                  (SaveInvalidRequest "unexpected end of JSON input") eq_refl)).
  by right.
Defined.

(** The hello fixture saved as number 1 of the echo tool into an empty
    directory, and the call of the echo tool with its message. *)
Lemma saved_fixture_served_witness :
  (processRequest
     (memStat {[ "testcases/mock_echo-test-case-1.yaml" := "hello" ]})
     (memReadFile {[ "testcases/mock_echo-test-case-1.yaml" := "hello" ]})
     decodeFixture Scenario.join map_to_list decodeInitialize decodeCall
     (fun _ => "map[]") echoServer (requestOf "tools/call" "echo hello")).2
  = Ret (resultResponse (requestOf "tools/call" "echo hello")
           (CallResult (Response Scenario.helloFixture))).
Proof.
  apply (saved_fixture_served (gmap string string) memMkdirAll memWriteFile
           memStat memReadFile encodeFixture decodeFixture Scenario.join
           map_to_list decodeSave decodeInitialize decodeCall (fun _ => "map[]")
           (fun m => reflexivity _) memWrite_then_read
           echoServer "POST" "save hello" ∅
           {[ "testcases/mock_echo-test-case-1.yaml" := "hello" ]}
           "Test case saved: mock_echo-test-case-1.yaml" saveHello).
  - reflexivity.
  - reflexivity.
  - by intros data [= <-].
  - simpl. lia.
  - intros key value Hkey.
    change (saveInput saveHello) with
      ({[ "message" := VString "Hello, World!" ]} : gmap string Value) in Hkey.
    apply lookup_singleton_Some in Hkey as [_ <-].
    split; reflexivity.
  - simpl. intros j Hj. lia.
  - reflexivity.
  - reflexivity.
Defined.

End ServerSpec.

(** * More properties of the webhook *)

Module WebhookServer.
Import GoStrings RemoteSync Webhook WebhookSpec.

Lemma scanFiles_prefix cfg tcs files :
  exists checked rest,
    files = (checked ++ rest)%list
    /\ (scanFiles cfg tcs files).1 = InspectPath <$> checked
    /\ if (scanFiles cfg tcs files).2
       then exists before file,
              checked = (before ++ [file])%list
              /\ fileTriggers cfg tcs file = true
              /\ Forall (fun f => fileTriggers cfg tcs f = false) before
       else rest = [] /\ Forall (fun f => fileTriggers cfg tcs f = false) checked.
Proof.
  induction files as [|file files (checked & rest & Heq & Hseen & Hlast)].
  - exists [], []. by repeat split.
  - cbn [scanFiles]. destruct (fileTriggers cfg tcs file) eqn:Hf.
    + exists [file], files. split; [done|]. split; [done|].
      exists [], file. by repeat split.
    + destruct (scanFiles cfg tcs files) as [seen shouldSync]. simpl in *.
      exists (file :: checked), rest. split; [by rewrite Heq|].
      split; [by rewrite Hseen|].
      destruct shouldSync.
      * destruct Hlast as (before & f & -> & Hft & Hbefore).
        exists (file :: before), f. split; [done|]. split; [done|].
        by constructor.
      * destruct Hlast as [-> Hall]. split; [done|]. by constructor.
Qed.

(** Inspection stops at the first watched path. The paths of a push are
    inspected in order (commit by commit, the added, the modified and the
    removed paths of each); when a sync is due, the inspected paths end
    with a watched path and no path before it is watched, and everything
    after it is not looked at; when no sync is due, every path was
    inspected and none is watched. *)
Theorem scan_stops_at_first_watched cfg tcs commits :
  exists checked rest,
    Server.changedFiles commits = (checked ++ rest)%list
    /\ (scanCommits cfg tcs commits).1 = InspectPath <$> checked
    /\ if (scanCommits cfg tcs commits).2
       then exists before file,
              checked = (before ++ [file])%list
              /\ fileTriggers cfg tcs file = true
              /\ Forall (fun f => fileTriggers cfg tcs f = false) before
       else rest = [] /\ Forall (fun f => fileTriggers cfg tcs f = false) checked.
Proof.
  induction commits as [|commit commits (checked & rest & Heq & Hseen & Hlast)].
  - exists [], []. by repeat split.
  - cbn [scanCommits Server.changedFiles flat_map].
    destruct (scanFiles_prefix cfg tcs
                ((Added commit ++ Modified commit) ++ Removed commit)%list)
      as (checked0 & rest0 & Heq0 & Hseen0 & Hlast0).
    destruct (scanFiles cfg tcs _) as [seen0 [|]]; simpl in Hseen0, Hlast0.
    + exists checked0, (rest0 ++ flat_map
                          (fun c => (Added c ++ Modified c) ++ Removed c)%list commits)%list.
      split; [by rewrite Heq0, <- app_assoc|]. by split.
    + destruct Hlast0 as [-> Hall0]. rewrite app_nil_r in Heq0.
      destruct (scanCommits cfg tcs commits) as [seen shouldSync]. simpl in *.
      exists (checked0 ++ checked)%list, rest.
      split; [unfold Server.changedFiles in Heq; by rewrite Heq0, Heq, <- app_assoc|].
      split; [by rewrite Hseen0, Hseen, fmap_app|].
      destruct shouldSync.
      * destruct Hlast as (before & f & -> & Hft & Hbefore).
        exists (checked0 ++ before)%list, f.
        split; [by rewrite app_assoc|]. split; [done|].
        by apply Forall_app.
      * destruct Hlast as [-> Hall]. split; [done|]. by apply Forall_app.
Qed.

Section Handler.

Variable json_Unmarshal : string -> option GitHubWebhookPayload.
Variable hmac_sha256 : string -> string -> string.
Variable hex_EncodeToString : string -> string.
Variable Sync : GitHubSync -> option string.

Abbreviation pushEvent := (handlePushEvent json_Unmarshal Sync).
Abbreviation handle :=
  (HandleWebhook json_Unmarshal hmac_sha256 hex_EncodeToString Sync).
Abbreviation serve :=
  (Server.HandleWebhook json_Unmarshal hmac_sha256 hex_EncodeToString Sync).

Lemma verify_true wh r payload :
  verifySignatureWithBody hmac_sha256 hex_EncodeToString wh r payload = true ->
  HeaderGet r "X-Hub-Signature-256"
  = "sha256=" ++ hex_EncodeToString (hmac_sha256 (webhookSecret wh) payload).
Proof.
  unfold verifySignatureWithBody.
  destruct (String.eqb (HeaderGet r "X-Hub-Signature-256") ""); [done|].
  by intros ?%String.eqb_eq.
Qed.

Lemma pushEvent_sync wh payload :
  RunSync ∈ (pushEvent wh payload).1 ->
  exists webhookPayload seen,
    json_Unmarshal payload = Some webhookPayload
    /\ touchesWatchedPath (githubSync wh) (Commits webhookPayload)
    /\ (pushEvent wh payload).1 = (seen ++ [RunSync])%list
    /\ (RunSync ∉ seen)
    /\ (pushEvent wh payload).2
       = match Sync (githubSync wh) with
         | Some err => Some (FailedToSync err)
         | None => None
         end.
Proof.
  unfold handlePushEvent, GetRepoConfigPath, GetRepoTestcasesPath.
  destruct (json_Unmarshal payload) as [webhookPayload|]; simpl;
    [|by intros ?%elem_of_nil].
  pose proof (scanCommits_touches (githubSync wh) (Commits webhookPayload)) as Ht.
  pose proof (proj2 (scanCommits_spec (repoConfigPath (githubSync wh))
    (repoTestcasesPath (githubSync wh)) (Commits webhookPayload))) as Hno.
  destruct (scanCommits _ _ _) as [seen [|]]; simpl in *; [|done].
  intros _. exists webhookPayload, seen. split; [done|].
  split; [by apply Ht|].
  by destruct (Sync (githubSync wh)).
Qed.

(** A sync needs an authentic push. When a request to the webhook endpoint
    makes the server run [Sync], the server has a webhook handler, the
    request is a POST whose body was read, it carries the right signature
    if a secret is configured, its event type is [push], its payload parses
    and some commit touches a watched path. [Sync] then runs once, after
    the paths were inspected, and the answer is 200 if it succeeds and 500
    if it fails. *)
Theorem sync_needs_authentic_push s r :
  RunSync ∈ (serve s r).1 ->
  exists wh payload webhookPayload seen,
    Server.webhookHandler s = Some wh
    /\ Method r = "POST"
    /\ Body r = Some payload
    /\ (webhookSecret wh = ""
        \/ HeaderGet r "X-Hub-Signature-256"
           = "sha256=" ++ hex_EncodeToString (hmac_sha256 (webhookSecret wh) payload))
    /\ HeaderGet r "X-GitHub-Event" = "push"
    /\ json_Unmarshal payload = Some webhookPayload
    /\ touchesWatchedPath (githubSync wh) (Commits webhookPayload)
    /\ (serve s r).1 = (seen ++ [RunSync])%list
    /\ (RunSync ∉ seen)
    /\ Server.webhookStatusCode (serve s r).2
       = match Sync (githubSync wh) with Some _ => 500 | None => 200 end.
Proof.
  unfold Server.HandleWebhook.
  destruct (Server.webhookHandler s) as [wh|]; [|by intros ?%elem_of_nil].
  unfold HandleWebhook.
  destruct (String.eqb_spec (Method r) "POST") as [Hpost|]; cbn [negb];
    [|by intros ?%elem_of_nil].
  destruct (Body r) as [payload|]; [|by intros ?%elem_of_nil].
  destruct (String.eqb_spec (webhookSecret wh) "") as [Hsecret|Hsecret];
    cbn [negb andb];
    [|destruct (verifySignatureWithBody _ _ _ _ _) eqn:Hverify; cbn [negb];
      [apply verify_true in Hverify|by intros ?%elem_of_nil]];
    (destruct (String.eqb (HeaderGet r "X-GitHub-Event") ""); [by intros ?%elem_of_nil|]);
    (destruct (String.eqb_spec (HeaderGet r "X-GitHub-Event") "push") as [Hpush|];
       [|by intros ?%elem_of_nil]);
    (pose proof (pushEvent_sync wh payload) as Hsync;
     destruct (pushEvent wh payload) as [effects [failure|]]; simpl in *;
     intros Hin; destruct (Hsync Hin) as (webhookPayload & seen & Hj & Ht & -> & Hno & Hout);
     exists wh, payload, webhookPayload, seen;
     repeat (split; [by auto|]);
     by destruct (Sync (githubSync wh))).
Qed.

End Handler.

(** The push of a fixture, rightly signed, sent to the server whose handler
    has the secret ["s"]. *)
Lemma sync_needs_authentic_push_witness :
  exists wh payload webhookPayload seen,
    Server.webhookHandler Server.hookedServer = Some wh
    /\ Method (Server.signedPush "fixture push" "sha256=mac") = "POST"
    /\ Body (Server.signedPush "fixture push" "sha256=mac") = Some payload
    /\ (webhookSecret wh = ""
        \/ HeaderGet (Server.signedPush "fixture push" "sha256=mac") "X-Hub-Signature-256"
           = "sha256=" ++ "mac")
    /\ HeaderGet (Server.signedPush "fixture push" "sha256=mac") "X-GitHub-Event" = "push"
    /\ decodePush payload = Some webhookPayload
    /\ touchesWatchedPath (githubSync wh) (Commits webhookPayload)
    /\ (Server.HandleWebhook decodePush (fun _ _ => "mac") (fun mac => mac)
          (fun _ => None) Server.hookedServer
          (Server.signedPush "fixture push" "sha256=mac")).1
       = (seen ++ [RunSync])%list
    /\ (RunSync ∉ seen)
    /\ Server.webhookStatusCode
         (Server.HandleWebhook decodePush (fun _ _ => "mac") (fun mac => mac)
            (fun _ => None) Server.hookedServer
            (Server.signedPush "fixture push" "sha256=mac")).2
       = 200.
Proof.
  apply (sync_needs_authentic_push decodePush (fun _ _ => "mac") (fun mac => mac)
           (fun _ => None) Server.hookedServer
           (Server.signedPush "fixture push" "sha256=mac")).
  vm_compute. apply list_elem_of_further, list_elem_of_here.
Defined.

End WebhookServer.

(** * Properties of the start of the tool manager and of its watcher *)

Module RegistryStartSpec.
Import GoValue Types Matcher Registry RegistryStart RegistrySpec.

(** ** Entries with distinct identifiers *)

Lemma lastEntry_distinct name entries toolConfig :
  NoDup (tcName <$> entries) ->
  lastEntry name entries = Some toolConfig <->
  toolConfig ∈ entries /\ tcName toolConfig = name.
Proof.
  intros Hnodup. rewrite lastEntry_spec. split.
  - intros (before & after & -> & Hname & _). split; [|done].
    apply elem_of_app. right. left.
  - intros [Hin Hname]. apply list_elem_of_split in Hin as (before & after & ->).
    exists before, after. split; [done|]. split; [done|].
    rewrite fmap_app, fmap_cons in Hnodup.
    apply NoDup_app in Hnodup as (_ & _ & Hnodup).
    apply NoDup_cons in Hnodup as [Hnotin _].
    apply Forall_forall. intros later Hlater Heq. apply Hnotin.
    rewrite Hname, <- Heq. by apply list_elem_of_fmap_2.
Qed.

Lemma lastEntry_permutation name entries entries' :
  NoDup (tcName <$> entries) -> entries ≡ₚ entries' ->
  lastEntry name entries = lastEntry name entries'.
Proof.
  intros Hnodup Hperm.
  assert (Hnodup' : NoDup (tcName <$> entries')) by (by rewrite <- Hperm).
  destruct (lastEntry name entries) as [toolConfig|] eqn:Hlast.
  - symmetry. apply lastEntry_distinct; [done|].
    apply lastEntry_distinct in Hlast as [Hin Hname]; [|done].
    by rewrite <- Hperm.
  - destruct (lastEntry name entries') as [toolConfig|] eqn:Hlast'; [|done].
    apply lastEntry_distinct in Hlast' as [Hin Hname]; [|done].
    rewrite <- Hperm in Hin.
    assert (Hsome : lastEntry name entries = Some toolConfig)
      by (by apply lastEntry_distinct).
    congruence.
Qed.

(** The order of the entries does not matter when their identifiers are
    distinct: two documents that list the same entries in different orders
    load into the same registry. *)
Theorem load_order_irrelevant tm config config' :
  NoDup (tcName <$> Tools config) ->
  Tools config ≡ₚ Tools config' ->
  run tm (loadBody config) = run tm (loadBody config').
Proof.
  intros Hnodup Hperm.
  assert (Htools : tools (run tm (loadBody config))
                   = tools (run tm (loadBody config'))).
  { apply map_eq. intros name. rewrite !loaded_lookup.
    by rewrite (lastEntry_permutation name _ _ Hnodup Hperm). }
  rewrite (run_loadBody tm config), (run_loadBody tm config').
  rewrite !run_loadBody in Htools. simpl in Htools. by rewrite Htools.
Qed.

(** The document of the echo tool and of the unnamed tool, in both orders. *)
Lemma load_order_irrelevant_witness :
  run echoManager (loadBody {| Tools := [echoEntry; unnamedEntry] |})
  = run echoManager (loadBody {| Tools := [unnamedEntry; echoEntry] |}).
Proof.
  apply load_order_irrelevant.
  - simpl. apply NoDup_cons. split.
    + intros Hin. apply list_elem_of_singleton in Hin. discriminate.
    + apply NoDup_singleton.
  - simpl. apply Permutation_swap.
Defined.

Section Start.

Variable stringSlice : list string -> Value.
Variable FS : Type.
Variable os_Stat : FS -> string -> StatResult.
Variable os_ReadFile : FS -> string -> option string.
Variable os_WriteFile : string -> string -> FS -> FS * bool.
Variable yaml_Unmarshal : string -> option ToolsConfig.
Variable yaml_Marshal : ToolsConfig -> option string.
Variable startFileWatcher : string -> bool.

Abbreviation defaults := (registerDefaultTools stringSlice).
Abbreviation example := (exampleConfig stringSlice).
Abbreviation start :=
  (NewToolManager stringSlice FS os_Stat os_ReadFile os_WriteFile yaml_Unmarshal
     yaml_Marshal startFileWatcher).

Lemma defaults_flags tm :
  toolsMutexHeld (defaults tm) = false /\ configPath (defaults tm) = configPath tm.
Proof. done. Qed.

Lemma defaults_fresh tm :
  tools tm = ∅ -> tools (defaults tm) = tools (run tm (loadBody example)).
Proof.
  intros Hempty. rewrite run_loadBody.
  unfold registerDefaultTools, store, step, run. simpl. by rewrite Hempty.
Qed.

(** The default tools and the example document agree.
    [registerDefaultTools] registers [mock_echo], [mock_calculator] and
    [mock_delay] exactly as loading the document of [createExampleYAML]
    registers them, keeps every other tool of the registry, and leaves the
    mutex free; on an empty registry the result is the registry of the
    example document. *)
Theorem default_tools_are_example tm :
  toolsMutexHeld (defaults tm) = false
  /\ configPath (defaults tm) = configPath tm
  /\ (forall name,
        name ∈ tcName <$> Tools example ->
        GetTool (defaults tm) name = GetTool (run tm (loadBody example)) name)
  /\ (forall name,
        name ∉ tcName <$> Tools example ->
        GetTool (defaults tm) name = GetTool tm name)
  /\ (tools tm = ∅ -> tools (defaults tm) = tools (run tm (loadBody example)))
  /\ tcName <$> Tools example = ["mock_echo"; "mock_calculator"; "mock_delay"].
Proof.
  split; [done|]. split; [done|]. split; [|split; [|split; [apply defaults_fresh|done]]].
  - intros name Hin. unfold GetTool. rewrite loaded_lookup.
    simpl in Hin. rewrite !elem_of_cons in Hin.
    unfold registerDefaultTools, store, step. cbn [tools].
    destruct Hin as [->|[->|[->|Hin]]]; [..|by apply elem_of_nil in Hin];
      rewrite ?lookup_insert_ne by done; by rewrite lookup_insert_eq.
  - intros name Hnotin. simpl in Hnotin. rewrite !not_elem_of_cons in Hnotin.
    destruct Hnotin as (H1 & H2 & H3 & _).
    unfold GetTool, registerDefaultTools, store, step. simpl.
    by rewrite !lookup_insert_ne.
Qed.

Lemma start_cases path fs :
  let fresh := {| tools := ∅; toolsMutexHeld := false; configPath := path |} in
  (exists data config,
     os_Stat fs path = StatOk
     /\ os_ReadFile fs path = Some data
     /\ yaml_Unmarshal data = Some config
     /\ (start path fs).1.1 = run fresh (loadBody config)
     /\ (start path fs).1.2 = fs)
  \/ ((start path fs).1.1 = defaults fresh
      /\ ((os_Stat fs path = StatOk
           /\ (os_ReadFile fs path = None
               \/ exists data, os_ReadFile fs path = Some data
                               /\ yaml_Unmarshal data = None)
           /\ (start path fs).1.2 = fs)
          \/ (os_Stat fs path <> StatOk
              /\ (start path fs).1.2
                 = (createExampleYAML stringSlice FS os_WriteFile yaml_Marshal
                      (defaults fresh) fs).1))).
Proof.
  intros fresh. unfold NewToolManager. fold fresh.
  destruct (os_Stat fs path) eqn:Hstat.
  - unfold loadToolsFromYAML. simpl.
    destruct (os_ReadFile fs path) as [data|] eqn:Hread.
    + destruct (yaml_Unmarshal data) as [config|] eqn:Hparse.
      * left. exists data, config. by destruct (startFileWatcher path).
      * right. destruct (startFileWatcher path); (split; [done|]); left;
          (split; [done|]); (split; [|done]); right; by exists data.
    + right. destruct (startFileWatcher path); (split; [done|]); left;
        (split; [done|]); (split; [|done]); by left.
  - right. destruct (createExampleYAML _ _ _ _ _ _) as [fs' logs] eqn:Hexample.
    destruct (startFileWatcher path); (split; [done|]); right; by split.
  - right. destruct (createExampleYAML _ _ _ _ _ _) as [fs' logs] eqn:Hexample.
    destruct (startFileWatcher path); (split; [done|]); right; by split.
Qed.

(** A manager always starts with a registry. When the config file is there,
    reads and parses, the registry holds the tools of the document (the
    last entry of each identifier) and nothing is written. In every other
    case the registry holds exactly the three default tools, those of the
    example document; the example file is written only when the config file
    is not there, never over a file that is there but does not load. The
    mutex is free and the config path is the one given. *)
Theorem NewToolManager_registry path fs :
  toolsMutexHeld (start path fs).1.1 = false
  /\ configPath (start path fs).1.1 = path
  /\ ((exists data config,
         os_Stat fs path = StatOk
         /\ os_ReadFile fs path = Some data
         /\ yaml_Unmarshal data = Some config
         /\ (forall name,
               GetTool (start path fs).1.1 name
               = toolOf <$> lastEntry name (Tools config))
         /\ (start path fs).1.2 = fs)
      \/ ((os_Stat fs path <> StatOk
           \/ os_ReadFile fs path = None
           \/ exists data, os_ReadFile fs path = Some data
                           /\ yaml_Unmarshal data = None)
          /\ (forall name,
                GetTool (start path fs).1.1 name
                = toolOf <$> lastEntry name (Tools example))
          /\ dom (tools (start path fs).1.1)
             = {[ "mock_echo"; "mock_calculator"; "mock_delay" ]}
          /\ (os_Stat fs path = StatOk -> (start path fs).1.2 = fs))).
Proof.
  pose proof (start_cases path fs) as Hcases. cbv zeta in Hcases.
  set (fresh := {| tools := ∅; toolsMutexHeld := false; configPath := path |}) in *.
  assert (Hdefault : forall name,
            GetTool (defaults fresh) name = toolOf <$> lastEntry name (Tools example)).
  { intros name. unfold GetTool. rewrite (defaults_fresh fresh eq_refl).
    apply loaded_lookup. }
  assert (Hdom : dom (tools (defaults fresh))
                 = {[ "mock_echo"; "mock_calculator"; "mock_delay" ]}).
  { rewrite (defaults_fresh fresh eq_refl), loaded_dom. simpl. set_solver. }
  destruct Hcases as [(data & config & Hstat & Hread & Hparse & -> & Hfs)
                     |[-> [(Hstat & Hload & Hfs)|[Hstat Hfs]]]].
  - rewrite run_loadBody. split; [done|]. split; [done|]. left.
    exists data, config. repeat (split; [done|]). split; [|done].
    intros name. unfold GetTool. rewrite <- (run_loadBody fresh config).
    apply loaded_lookup.
  - split; [done|]. split; [done|]. right. split; [tauto|]. by repeat split.
  - split; [done|]. split; [done|]. right. split; [tauto|]. by repeat split.
Qed.

End Start.

(** ** The watcher *)

Section Watcher.

Variable FS : Type.
Variable os_ReadFile : FS -> string -> option string.
Variable yaml_Unmarshal : string -> option ToolsConfig.

Abbreviation watch := (watchFileChanges FS os_ReadFile yaml_Unmarshal).
Abbreviation reloads := (reloadsFrom FS os_ReadFile yaml_Unmarshal).
Abbreviation closed := (closes FS).

Lemma onEvent_flags tm event fs :
  toolsMutexHeld tm = false ->
  toolsMutexHeld (onEvent (os_ReadFile fs) yaml_Unmarshal tm event).1 = false
  /\ configPath (onEvent (os_ReadFile fs) yaml_Unmarshal tm event).1 = configPath tm.
Proof.
  intros Hfree. unfold onEvent, loadToolsFromYAML.
  destruct (_ && _); [|done].
  destruct (os_ReadFile fs (configPath tm)) as [data|]; [|done].
  destruct (yaml_Unmarshal data) as [config|]; [|done].
  cbn [fst]. by rewrite run_loadBody.
Qed.

(** What one turn does to the manager. *)
Lemma onEvent_cases tm event fs :
  (exists config,
     reloads tm (fs, EventMessage event) config
     /\ (onEvent (os_ReadFile fs) yaml_Unmarshal tm event).1 = run tm (loadBody config))
  \/ ((forall config, ~ reloads tm (fs, EventMessage event) config)
      /\ (onEvent (os_ReadFile fs) yaml_Unmarshal tm event).1 = tm).
Proof.
  unfold onEvent, loadToolsFromYAML, reloadsFrom. simpl.
  destruct (Z.eqb_spec (Z.land (evOp event) Write) Write) as [Hw|Hw];
    destruct (Z.eqb_spec (Z.land (evOp event) Rename) Rename) as [Hr|Hr];
    destruct (String.eqb_spec (evName event) (configPath tm)) as [Hn|Hn];
    cbn [orb andb];
    try (right; split; [|done];
         intros config (ev & data & [= <-] & Hop & Hname & _); tauto);
    (destruct (os_ReadFile fs (configPath tm)) as [data|] eqn:Hread;
     [destruct (yaml_Unmarshal data) as [config|] eqn:Hparse|]);
    try (left; exists config; split; [exists event, data; tauto | done]);
    right; (split; [|done]);
    intros config (ev & data' & [= <-] & _ & _ & Hread' & Hparse'); congruence.
Qed.

Lemma reloads_same_path tm tm' turn config :
  configPath tm' = configPath tm -> reloads tm turn config -> reloads tm' turn config.
Proof. unfold reloadsFrom. intros ->. done. Qed.

Lemma loaded_independent tm tm' config :
  configPath tm' = configPath tm ->
  run tm' (loadBody config) = run tm (loadBody config).
Proof. intros Hpath. by rewrite !run_loadBody, Hpath. Qed.

Lemma watch_inert tm turns :
  toolsMutexHeld tm = false ->
  Forall (fun turn => forall config, ~ reloads tm turn config) turns ->
  (watch tm turns).1 = tm.
Proof.
  intros Hfree. induction 1 as [|[fs message] turns Hturn _ IH]; [done|].
  cbn [watchFileChanges]. destruct message as [event| | |]; try done.
  - destruct (onEvent_cases tm event fs) as [(config & Hre & _)|[_ Heq]];
      [by destruct (Hturn config)|].
    destruct (onEvent _ _ tm event) as [tm1 logs]. simpl in Heq. subst tm1.
    by destruct (watch tm turns).
  - by destruct (watch tm turns).
Qed.

Lemma watch_flags tm turns :
  toolsMutexHeld tm = false ->
  toolsMutexHeld (watch tm turns).1 = false
  /\ configPath (watch tm turns).1 = configPath tm.
Proof.
  revert tm. induction turns as [|[fs message] turns IH]; intros tm Hfree; [done|].
  cbn [watchFileChanges]. destruct message as [event| | |]; try done.
  - destruct (onEvent_flags tm event fs Hfree) as [Hfree1 Hpath1].
    destruct (onEvent _ _ tm event) as [tm1 logs]. simpl in *.
    destruct (IH tm1 Hfree1) as [Hfree2 Hpath2].
    destruct (watch tm1 turns). simpl in *. by rewrite Hpath2.
  - destruct (IH tm Hfree). by destruct (watch tm turns).
Qed.

(** The last good reload wins. Through any sequence of messages the mutex
    ends free and the config path stays; the registry is the one read at
    the last turn that reloaded it, provided no channel was closed before
    that turn: turns that do not reload (other events, events for other
    files, files that do not read or parse, watcher errors) change nothing,
    and a registry that was loaded never depends on the one before it. *)
Theorem watch_last_good_reload tm before turn after config :
  toolsMutexHeld tm = false ->
  Forall (fun earlier => ~ closed earlier) before ->
  reloads tm turn config ->
  Forall (fun later => forall config', ~ reloads tm later config') after ->
  toolsMutexHeld (watch tm (before ++ turn :: after)).1 = false
  /\ configPath (watch tm (before ++ turn :: after)).1 = configPath tm
  /\ (watch tm (before ++ turn :: after)).1 = run tm (loadBody config).
Proof.
  intros Hfree Hopen Hturn Hafter.
  split; [by apply watch_flags|]. split; [by apply watch_flags|].
  revert tm Hfree Hturn Hafter.
  induction Hopen as [|[fs message] before Hhead _ IH]; intros tm Hfree Hturn Hafter.
  - destruct turn as [fs message].
    destruct Hturn as (event & data & Hmsg & Hop & Hname & Hread & Hparse).
    simpl in Hmsg, Hread. subst message. cbn [app watchFileChanges].
    destruct (onEvent_cases tm event fs) as [(config' & Hre & Heq)|[Hno _]].
    + destruct Hre as (ev & data' & [= <-] & _ & _ & Hread' & Hparse').
      simpl in Hread'. assert (config' = config) as -> by congruence.
      destruct (onEvent _ _ tm event) as [tm1 logs]. simpl in Heq. subst tm1.
      assert (Hfree1 : toolsMutexHeld (run tm (loadBody config)) = false)
        by (by rewrite run_loadBody).
      assert (Hpath1 : configPath (run tm (loadBody config)) = configPath tm)
        by (by rewrite run_loadBody).
      assert (Hinert : (watch (run tm (loadBody config)) after).1
                       = run tm (loadBody config)).
      { apply watch_inert; [done|].
        eapply Forall_impl; [exact Hafter|]. intros later Hno config' Hre.
        apply (Hno config'). by apply (reloads_same_path (run tm (loadBody config))). }
      by destruct (watch _ after).
    + destruct (Hno config). exists event, data. by repeat split.
  - cbn [app watchFileChanges]. destruct message as [event| | |].
    + destruct (onEvent_flags tm event fs Hfree) as [Hfree1 Hpath1].
      destruct (onEvent _ _ tm event) as [tm1 logs]. cbn [fst] in Hfree1, Hpath1.
      specialize (IH tm1 Hfree1).
      rewrite <- (loaded_independent tm tm1 config Hpath1).
      destruct (watch tm1 _). cbn [fst] in *. apply IH.
      * by apply (reloads_same_path tm).
      * eapply Forall_impl; [exact Hafter|]. intros later Hno config' Hre.
        apply (Hno config'). by apply (reloads_same_path tm1).
    + destruct Hhead. by left.
    + specialize (IH tm Hfree Hturn Hafter). by destruct (watch tm _).
    + destruct Hhead. by right.
Qed.

End Watcher.

(** The echo tool that a manager holds is replaced by the default one. *)
Lemma default_tools_are_example_witness :
  GetTool (registerDefaultTools (fun l => VSlice (VString <$> l)) echoManager) "mock_echo"
  = GetTool (run echoManager (loadBody (exampleConfig (fun l => VSlice (VString <$> l)))))
      "mock_echo".
Proof.
  apply (proj1 (proj2 (proj2 (default_tools_are_example
                                (fun l => VSlice (VString <$> l)) echoManager)))).
  simpl. left.
Defined.

(** A start in an empty directory. *)
Lemma NewToolManager_registry_witness :
  dom (tools (NewToolManager (fun l => VSlice (VString <$> l)) (gmap string string)
                TestCaseStore.memStat TestCaseStore.memReadFile
                TestCaseStore.memWriteFile (fun _ => None) (fun _ => Some "tools: ...")
                (fun _ => true) "config/tools.yaml" ∅).1.1)
  = {[ "mock_echo"; "mock_calculator"; "mock_delay" ]}.
Proof.
  destruct (NewToolManager_registry (fun l => VSlice (VString <$> l))
              (gmap string string) TestCaseStore.memStat TestCaseStore.memReadFile
              TestCaseStore.memWriteFile (fun _ => None) (fun _ => Some "tools: ...")
              (fun _ => true) "config/tools.yaml" ∅)
    as (_ & _ & [(data & config & Hstat & _)|(_ & _ & Hdom & _)]).
  - discriminate Hstat.
  - exact Hdom.
Defined.

(** A watcher error, then a write of the config file that parses, then a
    write of it that does not. *)
Lemma watch_last_good_reload_witness :
  (watchFileChanges (gmap string string) TestCaseStore.memReadFile
     (fun data => if String.eqb data "tools: [{name: ''}]"
                  then Some unnamedDocument else None)
     echoManager
     [ (∅, ErrorMessage);
       ({[ "config/tools.yaml" := "tools: [{name: ''}]" ]},
        EventMessage {| evName := "config/tools.yaml"; evOp := Write |});
       ({[ "config/tools.yaml" := "tools: [" ]},
        EventMessage {| evName := "config/tools.yaml"; evOp := Write |}) ]).1
  = run echoManager (loadBody unnamedDocument).
Proof.
  apply (watch_last_good_reload (gmap string string) TestCaseStore.memReadFile
           (fun data => if String.eqb data "tools: [{name: ''}]"
                        then Some unnamedDocument else None)
           echoManager
           [ (∅, ErrorMessage) ]
           ({[ "config/tools.yaml" := "tools: [{name: ''}]" ]},
            EventMessage {| evName := "config/tools.yaml"; evOp := Write |})
           [ ({[ "config/tools.yaml" := "tools: [" ]},
              EventMessage {| evName := "config/tools.yaml"; evOp := Write |}) ]
           unnamedDocument).
  - reflexivity.
  - apply Forall_singleton. by intros [?|?].
  - exists {| evName := "config/tools.yaml"; evOp := Write |}, "tools: [{name: ''}]".
    repeat split. by left.
  - apply Forall_singleton.
    intros config' (event & data & _ & _ & _ & Hread & Hparse).
    vm_compute in Hread. injection Hread as <-. discriminate Hparse.
Defined.

End RegistryStartSpec.

(** * Properties of the sync run *)

Module RemoteSyncRunSpec.
Import GoStrings RemoteSync RepoNames RemoteSyncRun.

(** ** Rules for code that calls and logs *)

Lemma preserves_ret {A} (P : Call -> Prop) (a : A) (Q : A -> Prop) :
  Q a -> preserves P (ret a) Q.
Proof. intros Ha st Hst. by split. Qed.

Lemma preserves_bind {A B} (P : Call -> Prop) (m : Op A) (f : A -> Op B)
    (Q : A -> Prop) (R : B -> Prop) :
  preserves P m Q -> (forall a, Q a -> preserves P (f a) R) ->
  preserves P (bind m f) R.
Proof.
  intros Hm Hf st Hst. unfold bind.
  destruct (Hm st Hst) as [Hcalls Ha]. destruct (m st) as [st1 a].
  by apply Hf.
Qed.

Lemma preserves_weaken {A} (P : Call -> Prop) (m : Op A) (Q Q' : A -> Prop) :
  preserves P m Q -> (forall a, Q a -> Q' a) -> preserves P m Q'.
Proof. intros Hm Himp st Hst. destruct (Hm st Hst). auto. Qed.

Lemma preserves_logPrintf (P : Call -> Prop) line :
  preserves P (logLine line) (fun _ => True).
Proof. intros [calls logs] Hst. by split. Qed.

Lemma sameTrace_to_bind {A A' B} (m : Op A) (m' : Op A') (f : A -> Op B) (f' : A' -> Op B) :
  sameTrace m m' -> (forall a a', sameCalls (f a) (f' a')) ->
  sameCalls (bind m f) (bind m' f').
Proof.
  intros Hm Hf st st' Hst. unfold bind.
  specialize (Hm st st' Hst). destruct (m st) as [st1 a], (m' st') as [st1' a'].
  by apply Hf.
Qed.

Lemma sameCalls_bind {A B} (m m' : Op A) (f f' : A -> Op B) :
  sameCalls m m' -> (forall a, sameCalls (f a) (f' a)) ->
  sameCalls (bind m f) (bind m' f').
Proof.
  intros Hm Hf st st' Hst. unfold bind.
  destruct (Hm st st' Hst) as [Hcalls Ha].
  destruct (m st) as [st1 a], (m' st') as [st1' a']. simpl in *. subst a'.
  by apply Hf.
Qed.

Lemma sameCalls_ret {A} (a : A) : sameCalls (ret a) (ret a).
Proof. by intros st st' Hst. Qed.

Lemma sameCalls_logPrintf line : sameCalls (logLine line) (logLine line).
Proof. by intros [calls logs] [calls' logs'] Hst. Qed.

Lemma sameTrace_logs {A B} (m : Op A) (m' : Op B) :
  (forall st, (m st).1.1 = st.1) -> (forall st, (m' st).1.1 = st.1) ->
  sameTrace m m'.
Proof. intros Hm Hm' st st' Hst. by rewrite Hm, Hm'. Qed.

Section Run.

Variable succeeds : list Call -> Call -> bool.
Variable os_Stat : list Call -> string -> Matcher.StatResult.
Variable os_ReadFile : list Call -> string -> option string.
Variable filepath_Join : string -> string -> string.

Abbreviation within := (confined os_ReadFile filepath_Join).
Abbreviation sync := (Sync succeeds os_Stat os_ReadFile filepath_Join).
Abbreviation config := (syncConfig succeeds os_Stat os_ReadFile filepath_Join).
Abbreviation testcases := (syncTestcases succeeds os_Stat filepath_Join).

Lemma preserves_call (P : Call -> Prop) c :
  P c -> preserves P (call succeeds c) (fun _ => True).
Proof.
  intros Hc [calls logs] Hst. split; [|done].
  apply Forall_app. split; [done|]. by apply Forall_singleton.
Qed.

Lemma preserves_stat (P : Call -> Prop) path :
  P (Stat path) -> preserves P (osStat os_Stat path) (fun _ => True).
Proof.
  intros Hc [calls logs] Hst. split; [|done].
  apply Forall_app. split; [done|]. by apply Forall_singleton.
Qed.

Lemma preserves_readFile (P : Call -> Prop) path :
  P (ReadFile path) ->
  preserves P (osReadFile os_ReadFile path)
    (fun data => exists calls, os_ReadFile calls path = data).
Proof.
  intros Hc [calls logs] Hst. split; [|by exists calls].
  apply Forall_app. split; [done|]. by apply Forall_singleton.
Qed.

Lemma cloneRepo_confined gs (P : Call -> Prop) :
  (forall c, within gs c -> P c) ->
  preserves P (cloneRepo succeeds gs (filepath_Join (cacheDir gs) "repo"))
    (fun _ => True).
Proof.
  intros HP. unfold cloneRepo.
  eapply preserves_bind; [apply preserves_call, HP; by left|]. intros removed _.
  destruct removed; cbn [negb]; [|by apply preserves_ret].
  eapply preserves_bind.
  { apply preserves_call, HP. left. split; [done|]. set_solver. }
  intros cloned _. destruct cloned; by apply preserves_ret.
Qed.

Lemma pullRepo_confined gs (P : Call -> Prop) :
  (forall c, within gs c -> P c) ->
  preserves P (pullRepo succeeds gs (filepath_Join (cacheDir gs) "repo"))
    (fun _ => True).
Proof.
  intros HP. unfold pullRepo.
  eapply preserves_bind with (Q := fun _ => True).
  - destruct (_ && _); [|by apply preserves_ret].
    eapply preserves_bind.
    { apply preserves_call, HP. left. split; [done|]. set_solver. }
    intros updated _.
    destruct updated; [by apply preserves_ret | apply preserves_logPrintf].
  - intros _ _. apply preserves_call, HP. left. split; [done|]. set_solver.
Qed.

Lemma copyDirectory_confined gs srcDir (P : Call -> Prop) :
  (forall c, within gs c -> P c) ->
  preserves P (copyDirectory succeeds srcDir (testcasesDir gs))
    (fun _ => True).
Proof.
  intros HP. unfold copyDirectory.
  eapply preserves_bind; [apply preserves_call, HP; by right|]. intros removed _.
  destruct removed; cbn [negb]; [|by apply preserves_ret].
  eapply preserves_bind; [apply preserves_call, HP; by (right; right)|]. intros made _.
  destruct made; cbn [negb]; [|by apply preserves_ret].
  eapply preserves_bind; [apply preserves_call, HP; by right|]. intros copied _.
  destruct copied; cbn [negb]; [by apply preserves_ret|].
  eapply preserves_bind; [by apply preserves_call, HP|]. intros walked _.
  destruct walked; by apply preserves_ret.
Qed.

(** The errors of the copying part are not those of the fetching part. *)
Abbreviation copyOutcome :=
  (fun failed : option SyncError =>
     forall err, failed = Some err -> fetchError err = false).

Lemma syncTestcases_confined gs (P : Call -> Prop) :
  (forall c, within gs c -> P c) ->
  preserves P (testcases gs (filepath_Join (cacheDir gs) "repo")) copyOutcome.
Proof.
  intros HP. unfold syncTestcases. cbv zeta.
  eapply preserves_bind; [by apply preserves_stat, HP|]. intros found _.
  destruct found.
  - eapply preserves_bind; [by apply copyDirectory_confined|]. intros copied _.
    destruct copied as [err|].
    + apply preserves_ret. by intros ? [= <-].
    + eapply preserves_bind; [apply preserves_logPrintf|]. intros _ _.
      by apply preserves_ret.
  - eapply preserves_bind; [apply preserves_logPrintf|]. intros _ _.
    by apply preserves_ret.
  - eapply preserves_bind; [apply preserves_logPrintf|]. intros _ _.
    by apply preserves_ret.
Qed.

Lemma syncConfig_confined gs (P : Call -> Prop) :
  (forall c, within gs c -> P c) ->
  preserves P (config gs (filepath_Join (cacheDir gs) "repo")) copyOutcome.
Proof.
  intros HP. unfold syncConfig. cbv zeta.
  eapply preserves_bind; [by apply preserves_stat, HP|]. intros found _.
  destruct found.
  - eapply preserves_bind; [apply preserves_call, HP; by (right; left)|]. intros made _.
    destruct made; cbn [negb]; [|apply preserves_ret; by intros ? [= <-]].
    eapply preserves_bind; [by apply preserves_readFile, HP|]. intros data [calls Hread].
    destruct data as [data|]; [|apply preserves_ret; by intros ? [= <-]].
    eapply preserves_bind.
    { apply preserves_call, HP. split; [done|]. by exists calls. }
    intros written _.
    destruct written; cbn [negb]; [|apply preserves_ret; by intros ? [= <-]].
    eapply preserves_bind; [apply preserves_logPrintf|]. intros _ _.
    by apply syncTestcases_confined.
  - eapply preserves_bind; [apply preserves_logPrintf|]. intros _ _.
    by apply syncTestcases_confined.
  - eapply preserves_bind; [apply preserves_logPrintf|]. intros _ _.
    by apply syncTestcases_confined.
Qed.

Lemma Sync_preserves gs :
  preserves (within gs) (sync gs) (fun _ => True).
Proof.
  unfold Sync.
  destruct (String.eqb (repoURL gs) ""); [by apply preserves_ret|].
  eapply preserves_bind; [apply preserves_call; by left|]. intros made _.
  destruct made; cbn [negb]; [|by apply preserves_ret].
  cbv zeta.
  eapply preserves_bind; [by apply preserves_stat|]. intros found _.
  destruct found.
  - eapply preserves_bind; [apply preserves_logPrintf|]. intros _ _.
    eapply preserves_bind; [by apply pullRepo_confined|]. intros pulled _.
    eapply preserves_bind with (Q := fun _ => True).
    { destruct pulled; apply preserves_logPrintf. }
    intros _ _. eapply preserves_weaken; [by apply syncConfig_confined|done].
  - eapply preserves_bind; [apply preserves_logPrintf|]. intros _ _.
    eapply preserves_bind; [by apply cloneRepo_confined|]. intros cloned _.
    destruct cloned; [by apply preserves_ret|].
    eapply preserves_bind; [apply preserves_logPrintf|]. intros _ _.
    eapply preserves_weaken; [by apply syncConfig_confined|done].
  - by apply preserves_ret.
Qed.

(** A sync stays within its directories. Whatever the environment answers,
    every call that [Sync] makes is confined: directories are made at the
    cache, config and testcases directories only and removed at the clone
    and the testcases directory only; the one file written is [tools.yaml]
    in the config directory, and its content was read from the config file
    of the clone; git works on the clone; copies go to the testcases
    directory. *)
Theorem Sync_confined gs :
  Forall (within gs) (runOp (sync gs)).1.1.
Proof. by apply (Sync_preserves gs ([], [])). Qed.

Lemma bind_call {B} c (f : bool -> Op B) calls logs :
  bind (call succeeds c) f (calls, logs)
  = f (succeeds calls c) ((calls ++ [c])%list, logs).
Proof. reflexivity. Qed.

Lemma bind_stat {B} path (f : Matcher.StatResult -> Op B) calls logs :
  bind (osStat os_Stat path) f (calls, logs)
  = f (os_Stat calls path) ((calls ++ [Stat path])%list, logs).
Proof. reflexivity. Qed.

Lemma bind_logPrintf {B} line (f : unit -> Op B) calls logs :
  bind (logLine line) f (calls, logs) = f tt (calls, (logs ++ [line])%list).
Proof. reflexivity. Qed.

Lemma bind_run {A B} (m : Op A) (f : A -> Op B) st :
  bind m f st = f (m st).2 (m st).1.
Proof. unfold bind. by destruct (m st). Qed.

Lemma syncConfig_outcome gs st err :
  (config gs (filepath_Join (cacheDir gs) "repo") st).2 = Some err ->
  fetchError err = false.
Proof.
  intros Hres.
  destruct (syncConfig_confined gs (fun _ => True) (fun _ _ => I) st) as [_ Hout].
  - by apply Forall_true.
  - by apply Hout.
Qed.

(** A sync that fails while fetching has copied nothing: when [Sync]
    returns one of the errors of the fetching part (empty URL, cache
    directory, clone, repository status), the calls it made are the first
    ones of: make the cache directory, look for the clone, remove the clone
    directory, [git clone]. *)
Theorem fetch_failure_copies_nothing gs err :
  (runOp (sync gs)).2 = Some err ->
  fetchError err = true ->
  exists n, (runOp (sync gs)).1.1 = take n (fetchCalls filepath_Join gs).
Proof.
  unfold runOp, Sync.
  destruct (String.eqb (repoURL gs) ""); [by exists 0%nat|].
  rewrite bind_call. cbn [app].
  destruct (succeeds _ _); cbn [negb]; [|by exists 1%nat].
  cbv zeta. rewrite bind_stat. cbn [app].
  destruct (os_Stat _ _).
  - rewrite bind_logPrintf, bind_run, bind_run.
    intros Hres Hfetch. apply syncConfig_outcome in Hres. congruence.
  - rewrite bind_logPrintf. unfold cloneRepo. rewrite bind_run.
    rewrite !bind_call. cbn [app].
    destruct (succeeds _ (RemoveAll _)); cbn [negb]; [|by exists 3%nat].
    rewrite bind_call. cbn [app].
    destruct (succeeds _ (Command _ _)); cbn [negb]; [|by exists 4%nat].
    cbn [ret fst snd]. rewrite bind_logPrintf.
    intros Hres Hfetch. apply syncConfig_outcome in Hres. congruence.
  - by exists 2%nat.
Qed.

Variable os_Getenv : string -> string.
Variable os_TempDir : string.
Variable TrimSpace : string -> string.

Abbreviation prepared := (syncFor filepath_Join os_Getenv os_TempDir TrimSpace).
Abbreviation fromGitHub :=
  (SyncFromGitHub succeeds os_Stat os_ReadFile filepath_Join os_Getenv os_TempDir
     TrimSpace).


End Run.

Section Tolerance.

Variable succeeds succeeds' : list Call -> Call -> bool.
Variable os_Stat : list Call -> string -> Matcher.StatResult.
Variable os_ReadFile : list Call -> string -> option string.
Variable filepath_Join : string -> string -> string.

(** The two environments differ at most in the answers to the git commands
    that work on the clone in place. *)
Hypothesis same_answers : forall calls c,
  gitInPlace c = false -> succeeds' calls c = succeeds calls c.

Lemma sameCalls_call c :
  gitInPlace c = false -> sameCalls (call succeeds c) (call succeeds' c).
Proof.
  intros Hc [calls logs] [calls' logs'] Hst. simpl in *. subst calls'.
  by rewrite same_answers.
Qed.

Lemma sameTrace_call c : sameTrace (call succeeds c) (call succeeds' c).
Proof. intros [calls logs] [calls' logs'] Hst. simpl in *. by subst calls'. Qed.

Lemma sameCalls_stat path : sameCalls (osStat os_Stat path) (osStat os_Stat path).
Proof. intros [calls logs] [calls' logs'] Hst. simpl in *. by subst calls'. Qed.

Lemma sameCalls_readFile path :
  sameCalls (osReadFile os_ReadFile path) (osReadFile os_ReadFile path).
Proof. intros [calls logs] [calls' logs'] Hst. simpl in *. by subst calls'. Qed.

Lemma sameCalls_copyDirectory srcDir destDir :
  sameCalls (copyDirectory succeeds srcDir destDir)
    (copyDirectory succeeds' srcDir destDir).
Proof.
  unfold copyDirectory.
  apply sameCalls_bind; [by apply sameCalls_call|]. intros removed.
  destruct removed; cbn [negb]; [|apply sameCalls_ret].
  apply sameCalls_bind; [by apply sameCalls_call|]. intros made.
  destruct made; cbn [negb]; [|apply sameCalls_ret].
  apply sameCalls_bind; [by apply sameCalls_call|]. intros copied.
  destruct copied; cbn [negb]; [apply sameCalls_ret|].
  apply sameCalls_bind; [by apply sameCalls_call|]. intros walked.
  destruct walked; apply sameCalls_ret.
Qed.

Lemma sameCalls_syncTestcases gs repoDir :
  sameCalls (syncTestcases succeeds os_Stat filepath_Join gs repoDir)
    (syncTestcases succeeds' os_Stat filepath_Join gs repoDir).
Proof.
  unfold syncTestcases. cbv zeta.
  apply sameCalls_bind; [apply sameCalls_stat|]. intros found.
  destruct found.
  - apply sameCalls_bind; [apply sameCalls_copyDirectory|]. intros copied.
    destruct copied; [apply sameCalls_ret|].
    apply sameCalls_bind; [apply sameCalls_logPrintf|]. intros _. apply sameCalls_ret.
  - apply sameCalls_bind; [apply sameCalls_logPrintf|]. intros _. apply sameCalls_ret.
  - apply sameCalls_bind; [apply sameCalls_logPrintf|]. intros _. apply sameCalls_ret.
Qed.

Lemma sameCalls_syncConfig gs repoDir :
  sameCalls (syncConfig succeeds os_Stat os_ReadFile filepath_Join gs repoDir)
    (syncConfig succeeds' os_Stat os_ReadFile filepath_Join gs repoDir).
Proof.
  unfold syncConfig. cbv zeta.
  apply sameCalls_bind; [apply sameCalls_stat|]. intros found.
  destruct found.
  - apply sameCalls_bind; [by apply sameCalls_call|]. intros made.
    destruct made; cbn [negb]; [|apply sameCalls_ret].
    apply sameCalls_bind; [apply sameCalls_readFile|]. intros data.
    destruct data as [data|]; [|apply sameCalls_ret].
    apply sameCalls_bind; [by apply sameCalls_call|]. intros written.
    destruct written; cbn [negb]; [|apply sameCalls_ret].
    apply sameCalls_bind; [apply sameCalls_logPrintf|]. intros _.
    apply sameCalls_syncTestcases.
  - apply sameCalls_bind; [apply sameCalls_logPrintf|]. intros _.
    apply sameCalls_syncTestcases.
  - apply sameCalls_bind; [apply sameCalls_logPrintf|]. intros _.
    apply sameCalls_syncTestcases.
Qed.

Lemma sameCalls_cloneRepo gs destDir :
  sameCalls (cloneRepo succeeds gs destDir) (cloneRepo succeeds' gs destDir).
Proof.
  unfold cloneRepo.
  apply sameCalls_bind; [by apply sameCalls_call|]. intros removed.
  destruct removed; cbn [negb]; [|apply sameCalls_ret].
  apply sameCalls_bind; [by apply sameCalls_call|]. intros cloned.
  destruct cloned; apply sameCalls_ret.
Qed.

Lemma sameTrace_pullRepo gs repoDir :
  sameTrace (pullRepo succeeds gs repoDir) (pullRepo succeeds' gs repoDir).
Proof.
  unfold pullRepo. intros [calls logs] [calls' logs'] Hst. simpl in Hst. subst calls'.
  destruct (_ && _).
  - unfold bind, call, logLine, ret.
    by destruct (succeeds calls _), (succeeds' calls _).
  - reflexivity.
Qed.

(** A pull that fails does not fail the sync. Two environments that answer
    alike, except perhaps to [git remote set-url] and [git pull] on the
    clone, make [Sync] issue the same calls and return the same result:
    what those two commands answer is logged and nothing more. *)
Theorem pull_failure_tolerated gs :
  (runOp (Sync succeeds os_Stat os_ReadFile filepath_Join gs)).1.1
  = (runOp (Sync succeeds' os_Stat os_ReadFile filepath_Join gs)).1.1
  /\ (runOp (Sync succeeds os_Stat os_ReadFile filepath_Join gs)).2
     = (runOp (Sync succeeds' os_Stat os_ReadFile filepath_Join gs)).2.
Proof.
  unfold runOp.
  assert (H : sameCalls (Sync succeeds os_Stat os_ReadFile filepath_Join gs)
                (Sync succeeds' os_Stat os_ReadFile filepath_Join gs));
    [|by apply H].
  unfold Sync.
  destruct (String.eqb (repoURL gs) ""); [apply sameCalls_ret|].
  apply sameCalls_bind; [by apply sameCalls_call|]. intros made.
  destruct made; cbn [negb]; [|apply sameCalls_ret].
  cbv zeta. apply sameCalls_bind; [apply sameCalls_stat|]. intros found.
  destruct found.
  - apply sameCalls_bind; [apply sameCalls_logPrintf|]. intros _.
    apply sameTrace_to_bind; [apply sameTrace_pullRepo|]. intros pulled pulled'.
    apply sameTrace_to_bind; [|intros _ _; apply sameCalls_syncConfig].
    by apply sameTrace_logs; intros [calls logs]; destruct pulled, pulled'.
  - apply sameCalls_bind; [apply sameCalls_logPrintf|]. intros _.
    apply sameCalls_bind; [apply sameCalls_cloneRepo|]. intros cloned.
    destruct cloned; [apply sameCalls_ret|].
    apply sameCalls_bind; [apply sameCalls_logPrintf|]. intros _.
    apply sameCalls_syncConfig.
  - apply sameCalls_ret.
Qed.

End Tolerance.

(** A clone that is there and a repository without config file and
    testcases: the sync succeeds whether the pull does or not. *)
Lemma pull_failure_tolerated_witness :
  (runOp (Sync (fun _ _ => true) (fun _ path =>
                  if String.eqb path "/tmp/mock-mcp-github-sync/repo/repo/.git"
                  then Matcher.StatOk else Matcher.StatNotExist)
            (fun _ _ => None) (fun dir name => dir ++ "/" ++ name)
            (syncOf "https://github.com/org/repo.git" "" ""))).2
  = (runOp (Sync (fun _ c => negb (gitInPlace c)) (fun _ path =>
                    if String.eqb path "/tmp/mock-mcp-github-sync/repo/repo/.git"
                    then Matcher.StatOk else Matcher.StatNotExist)
              (fun _ _ => None) (fun dir name => dir ++ "/" ++ name)
              (syncOf "https://github.com/org/repo.git" "" ""))).2.
Proof.
  apply (pull_failure_tolerated (fun _ _ => true) (fun _ c => negb (gitInPlace c))).
  intros calls c Hc. by rewrite Hc.
Defined.

(** A clone that fails. *)
Lemma fetch_failure_copies_nothing_witness :
  exists n,
    (runOp (Sync (fun _ c => match c with Command _ _ => false | _ => true end)
              (fun _ _ => Matcher.StatNotExist) (fun _ _ => None)
              (fun dir name => dir ++ "/" ++ name)
              (syncOf "https://github.com/org/repo.git" "" ""))).1.1
    = take n (fetchCalls (fun dir name => dir ++ "/" ++ name)
                (syncOf "https://github.com/org/repo.git" "" "")).
Proof.
  apply (fetch_failure_copies_nothing
           (fun _ c => match c with Command _ _ => false | _ => true end)
           (fun _ _ => Matcher.StatNotExist) (fun _ _ => None)
           (fun dir name => dir ++ "/" ++ name)
           (syncOf "https://github.com/org/repo.git" "" "")
           (FailedToCloneRepository GitCloneFailed)).
  - reflexivity.
  - reflexivity.
Defined.


End RemoteSyncRunSpec.

(** * The list of tools and the calls *)

Module ServerListing.
Import GoStrings GoValue Types Matcher Registry RegistrySpec TestCaseStore Server.

Lemma GetAllTools_elem tm tool :
  tool ∈ GetAllTools tm <-> exists name, GetTool tm name = Some tool.
Proof.
  unfold GetAllTools, GetTool. rewrite list_elem_of_fmap. split.
  - intros ([name tool'] & -> & Hin). exists name.
    by apply elem_of_map_to_list in Hin.
  - intros [name Hname]. exists (name, tool). split; [done|].
    by apply elem_of_map_to_list.
Qed.

(** In a registry that was loaded, every tool stands under its own name. *)
Lemma loaded_key_is_name tm config name tool :
  GetTool (run tm (loadBody config)) name = Some tool -> Name tool = name.
Proof.
  unfold GetTool. rewrite loaded_lookup.
  destruct (lastEntry name (Tools config)) as [toolConfig|] eqn:Hlast; [|done].
  intros [= <-]. apply lastEntry_spec in Hlast as (before & after & _ & Hname & _).
  done.
Qed.

Section Requests.

Variable os_Stat : string -> StatResult.
Variable os_ReadFile : string -> option string.
Variable yaml_Unmarshal : string -> option TestCaseConfig.
Variable filepath_Join : string -> string -> string.
Variable rangeOrder : gmap string Value -> list (string * Value).
Variable json_Unmarshal_InitializeParams : string -> option string.
Variable json_Unmarshal_ToolCall : string -> string + (string * gmap string Value).
Variable Sprint_args : gmap string Value -> string.

Abbreviation process :=
  (processRequest os_Stat os_ReadFile yaml_Unmarshal filepath_Join rangeOrder
     json_Unmarshal_InitializeParams json_Unmarshal_ToolCall Sprint_args).

(** What [tools/list] shows is what [tools/call] accepts. On a server whose
    registry was loaded from a config document, the tools listed are the
    registered ones, each under its own name, and a call is answered with
    "Tool not found" exactly when no listed tool bears the called name. *)
Theorem listed_tools_are_callable s tm config :
  toolManager s = run tm (loadBody config) ->
  (forall req,
     Method req = "tools/list" ->
     process s req
     = ([], Ret (resultResponse req (ToolsResult (GetAllTools (toolManager s))))))
  /\ (forall tool,
        tool ∈ GetAllTools (toolManager s) <->
        GetTool (toolManager s) (Name tool) = Some tool)
  /\ (forall req name args,
        Method req = "tools/call" ->
        json_Unmarshal_ToolCall (Params req) = inr (name, args) ->
        process s req = ([], Ret (errorResponse req (-32601) "Tool not found" None))
        <-> forall tool, tool ∈ GetAllTools (toolManager s) -> Name tool <> name).
Proof.
  intros Hloaded.
  assert (Hlisted : forall tool,
            tool ∈ GetAllTools (toolManager s) <->
            GetTool (toolManager s) (Name tool) = Some tool).
  { intros tool. rewrite GetAllTools_elem. split; [|by exists (Name tool)].
    intros [name Hname]. rewrite Hloaded in Hname |- *.
    by rewrite (loaded_key_is_name _ _ _ _ Hname). }
  split; [|split; [exact Hlisted|]].
  - intros req Hmethod. unfold processRequest. by rewrite Hmethod.
  - intros req name args Hmethod Hdecode.
    unfold processRequest, handleCallTool. rewrite Hmethod, Hdecode. cbn [String.eqb].
    change (String.eqb "tools/call" "initialize") with false.
    change (String.eqb "tools/call" "tools/list") with false.
    change (String.eqb "tools/call" "tools/call") with true. cbv iota.
    destruct (GetTool (toolManager s) name) as [tool|] eqn:Htool.
    + split.
      * destruct (executeMockTool _ _ _ _ _ _ _ _ _) as [lines [result|r]];
          discriminate.
      * intros Hnone. destruct (Hnone tool).
        -- apply GetAllTools_elem. by exists name.
        -- rewrite Hloaded in Htool. by apply (loaded_key_is_name tm config).
    + split; [|done]. intros _ tool Hin Hname. apply Hlisted in Hin.
      rewrite Hname in Hin. congruence.
Qed.

End Requests.

(** The echo server after a load of the document with the echo tool: the
    tool [mock_lost] is not listed, and the call of it is turned away. *)
Lemma listed_tools_are_callable_witness :
  processRequest Scenario.stat Scenario.readFile Scenario.decode Scenario.join
    map_to_list decodeInitialize decodeCall (fun _ => "map[]")
    {| toolManager := run echoManager (loadBody {| Tools := [echoEntry] |});
       testCasesDir := "testcases";
       webhookHandler := None |}
    (requestOf "tools/call" "lost")
  = ([], Ret (errorResponse (requestOf "tools/call" "lost") (-32601)
                "Tool not found" None)).
Proof.
  apply (proj2 (proj2 (listed_tools_are_callable Scenario.stat Scenario.readFile
                         Scenario.decode Scenario.join map_to_list decodeInitialize
                         decodeCall (fun _ => "map[]")
                         {| toolManager := run echoManager (loadBody {| Tools := [echoEntry] |});
                            testCasesDir := "testcases";
                            webhookHandler := None |}
                         echoManager {| Tools := [echoEntry] |} eq_refl))
           (requestOf "tools/call" "lost") "mock_lost" ∅ eq_refl eq_refl).
  intros tool Hin Hname.
  apply GetAllTools_elem in Hin as [name Hget].
  pose proof (loaded_key_is_name _ _ _ _ Hget) as Hkey. rewrite Hname in Hkey. subst name.
  vm_compute in Hget. discriminate.
Defined.

End ServerListing.

(** * Fixture numbers that the search does not reach *)

Module StoreRange.
Import GoStrings GoStringsFacts GoValue Types Matcher TestCaseStore.

Lemma app_inv_head (s a b : string) : s ++ a = s ++ b -> a = b.
Proof.
  induction s as [|c s IH]; [done|]. rewrite !app_cons. intros [= H]. auto.
Qed.

Lemma app_inv_tail (a b s : string) : a ++ s = b ++ s -> a = b.
Proof.
  intros Heq.
  assert (Hlen : String.length a = String.length b).
  { apply (f_equal String.length) in Heq. rewrite !length_app in Heq. lia. }
  revert b Heq Hlen. induction a as [|c a IH]; intros [|d b] Heq Hlen;
    try discriminate; [done|].
  rewrite !app_cons in Heq. injection Heq as -> Heq. f_equal.
  apply IH; [done|]. simpl in Hlen. lia.
Qed.

Lemma to_int_nonnil n :
  Z.to_int n <> Decimal.Pos Decimal.Nil /\ Z.to_int n <> Decimal.Neg Decimal.Nil.
Proof.
  destruct n as [|p|p]; simpl; split; try done;
    intros [= H]; by apply DecimalPos.Unsigned.to_uint_nonnil in H.
Qed.

Lemma itoa_inj i j : itoa i = itoa j -> i = j.
Proof.
  unfold itoa. intros Heq.
  apply (f_equal NilZero.int_of_string) in Heq.
  destruct (to_int_nonnil i), (to_int_nonnil j).
  rewrite !NilZero.isi in Heq by done. injection Heq as Heq.
  apply (f_equal Z.of_int) in Heq. by rewrite !DecimalZ.of_to in Heq.
Qed.

Section OutOfRange.

Variable FS : Type.
Variable os_MkdirAll : string -> FS -> FS * bool.
Variable os_WriteFile : string -> string -> FS -> FS * bool.
Variable os_Stat : FS -> string -> StatResult.
Variable os_ReadFile : FS -> string -> option string.
Variable yaml_Marshal : TestCaseConfig -> option string.
Variable yaml_Unmarshal : string -> option TestCaseConfig.
Variable filepath_Join : string -> string -> string.
Variable rangeOrder : gmap string Value -> list (string * Value).
Variable testCasesDir : string.

Abbreviation fileOf := (testCaseFile filepath_Join testCasesDir).
Abbreviation findIn fs :=
  (FindMatchingTestCase (os_Stat fs) (os_ReadFile fs) yaml_Unmarshal filepath_Join
     rangeOrder testCasesDir).
Abbreviation searchIn fs :=
  (searchLoop (os_Stat fs) (os_ReadFile fs) yaml_Unmarshal filepath_Join
     rangeOrder testCasesDir).

(** Different names in the directory are different files; making the
    directory changes no file in it; writing a file changes no other. *)
Hypothesis Join_inj : forall name name',
  filepath_Join testCasesDir name = filepath_Join testCasesDir name' -> name = name'.
Hypothesis mkdir_frame : forall fs fs' ok name,
  os_MkdirAll testCasesDir fs = (fs', ok) ->
  os_Stat fs' (filepath_Join testCasesDir name)
  = os_Stat fs (filepath_Join testCasesDir name)
  /\ os_ReadFile fs' (filepath_Join testCasesDir name)
     = os_ReadFile fs (filepath_Join testCasesDir name).
Hypothesis write_frame : forall path data fs fs' ok other,
  os_WriteFile path data fs = (fs', ok) -> other <> path ->
  os_Stat fs' other = os_Stat fs other /\ os_ReadFile fs' other = os_ReadFile fs other.

Lemma fileOf_inj toolName i j : fileOf toolName i = fileOf toolName j -> i = j.
Proof.
  unfold testCaseFile. intros Heq. apply Join_inj in Heq.
  apply app_inv_head in Heq. apply (app_inv_head "-test-case-") in Heq.
  by apply app_inv_tail, itoa_inj in Heq.
Qed.

(** The search reads the file system at the fixture files only. *)
Lemma search_agree fs fs' toolName args indices :
  Forall (fun i => os_Stat fs' (fileOf toolName i) = os_Stat fs (fileOf toolName i)
                   /\ os_ReadFile fs' (fileOf toolName i)
                      = os_ReadFile fs (fileOf toolName i)) indices ->
  searchIn fs' toolName args indices = searchIn fs toolName args indices.
Proof.
  induction 1 as [|i indices [Hstat Hread] _ IH]; [done|].
  cbn [searchLoop]. unfold loadTestCase. by rewrite Hstat, Hread, IH.
Qed.

Lemma find_agree fs fs' toolName args defaultTestCase :
  (forall i, 1 <= i <= 100 \/ i = defaultTestCase ->
     os_Stat fs' (fileOf toolName i) = os_Stat fs (fileOf toolName i)
     /\ os_ReadFile fs' (fileOf toolName i) = os_ReadFile fs (fileOf toolName i)) ->
  findIn fs' toolName args defaultTestCase = findIn fs toolName args defaultTestCase.
Proof.
  intros Hagree. unfold FindMatchingTestCase.
  rewrite (search_agree fs fs').
  - unfold useDefault, loadTestCase.
    destruct (Hagree defaultTestCase) as [-> ->]; [by right|]. done.
  - apply Forall_forall. intros i Hi. apply elem_of_seqZ in Hi.
    apply Hagree. left. lia.
Qed.

Lemma SaveTestCase_frame toolName testCaseNumber testCase fs fs' outcome i :
  SaveTestCase FS os_MkdirAll os_WriteFile yaml_Marshal filepath_Join testCasesDir
    toolName testCaseNumber testCase fs = (fs', outcome) ->
  i <> testCaseNumber ->
  os_Stat fs' (fileOf toolName i) = os_Stat fs (fileOf toolName i)
  /\ os_ReadFile fs' (fileOf toolName i) = os_ReadFile fs (fileOf toolName i).
Proof.
  unfold SaveTestCase. intros Hsave Hne.
  destruct (os_MkdirAll testCasesDir fs) as [fs1 made] eqn:Hmkdir.
  pose proof (mkdir_frame fs fs1 made
                (toolName ++ "-test-case-" ++ itoa i ++ ".yaml") Hmkdir) as Hframe1.
  destruct made; cbn [negb] in Hsave; [|by injection Hsave as <- _].
  destruct (yaml_Marshal testCase) as [data|]; [|by injection Hsave as <- _].
  destruct (os_WriteFile _ data fs1) as [fs2 written] eqn:Hwrite.
  assert (fs' = fs2) as -> by (by destruct written; injection Hsave as <- _).
  destruct (write_frame _ _ _ _ _ (fileOf toolName i) Hwrite) as [-> ->]; [|done].
  intros Heq. by apply fileOf_inj in Heq.
Qed.

(** A fixture saved under a number outside 1 to 100 is not reached by the
    search. [SaveTestCase] takes any number, but the loop of
    [FindMatchingTestCase] looks at the numbers 1 to 100 only: after a
    fixture was saved under another number, every search for the tool
    answers and logs exactly as before, unless that number is the
    configured default. *)
Theorem fixture_out_of_range_not_searched
    toolName testCaseNumber testCase fs fs' outcome args defaultTestCase :
  SaveTestCase FS os_MkdirAll os_WriteFile yaml_Marshal filepath_Join testCasesDir
    toolName testCaseNumber testCase fs = (fs', outcome) ->
  ~ 1 <= testCaseNumber <= 100 ->
  defaultTestCase <> testCaseNumber ->
  findIn fs' toolName args defaultTestCase = findIn fs toolName args defaultTestCase.
Proof.
  intros Hsave Hrange Hdefault. apply find_agree. intros i Hi.
  apply (SaveTestCase_frame _ _ _ _ _ _ _ Hsave).
  destruct Hi as [Hi| ->]; [lia | done].
Qed.

End OutOfRange.

(** The hello fixture saved as number 101 of the echo tool into the
    directory of the scenario: the call [{message: Bye}] is answered as
    before. *)
Lemma fixture_out_of_range_not_searched_witness :
  FindMatchingTestCase
    (memStat (<[ "testcases/mock_echo-test-case-101.yaml" := "hello" ]> Scenario.files))
    (memReadFile (<[ "testcases/mock_echo-test-case-101.yaml" := "hello" ]> Scenario.files))
    Scenario.decode Scenario.join map_to_list "testcases" "mock_echo"
    {[ "message" := VString "Bye" ]} 0
  = FindMatchingTestCase (memStat Scenario.files) (memReadFile Scenario.files)
      Scenario.decode Scenario.join map_to_list "testcases" "mock_echo"
      {[ "message" := VString "Bye" ]} 0.
Proof.
  apply (fixture_out_of_range_not_searched (gmap string string) memMkdirAll
           memWriteFile memStat memReadFile (fun _ => Some "hello") Scenario.decode
           Scenario.join map_to_list "testcases")
    with (testCaseNumber := 101) (testCase := Scenario.helloFixture) (outcome := None).
  - intros name name' Heq. unfold Scenario.join in Heq.
    by apply app_inv_head, (app_inv_head "/") in Heq.
  - by intros fs fs' ok name [= <- _].
  - intros path data fs fs' ok other [= <- _] Hne. unfold memStat, memReadFile.
    by rewrite lookup_insert_ne.
  - reflexivity.
  - lia.
  - lia.
Defined.

End StoreRange.
